(** * Social Wallet API: wallet ledger, gifting, payment webhook and OAuth code grant

    A shallow embedding of
      - [src/services/walletService.ts]  (class [WalletService]),
      - [src/services/giftService.ts]    (classes [GiftService] and [StripeService]),
      - the OAuth service                (class [OAuthService]),
    over an explicit model of the relational store, followed by the
    properties of the ledger, of gift sending, of the payment webhook and of
    the authorization-code exchange.

    Conventions of the embedding:
      - integer columns (coin amounts, quantities, timestamps in ms) are [Z],
        without the range of the column type, which the sources do not
        declare; [Columns] has the wallet methods over a column type taken
        as a parameter. The fee rates are IEEE binary64 numbers
        ([PrimFloat.float]), the number type of the source language;
      - a table with a unique key is a [gmap] from that key, a table that is
        only appended to is a [list] in insertion order; row ids generated by
        the store are drawn from a counter;
      - an [async] method is a function from the store to a result and the
        store it leaves behind; [throw] is the [Err] result. The only
        failures are the ones the methods raise themselves and the ones the
        store client raises on a missing row, a repeated unique key or a
        number that is not an integer: the store itself does not fail and has
        no foreign keys;
      - the clock and the random strings that a method reads are arguments
        of its model;
      - [logger] calls have no effect on the store and are left out. *)

From Stdlib Require Import ZArith Lia Ascii PrimFloat Uint63 SpecFloat FloatOps.
From stdpp Require Import base option gmap strings list pretty.

Open Scope Z_scope.

(** ** Numbers and strings of the source language *)

Module Js.

(** The literal [0.1] of the source, as the binary64 value it denotes. *)
Definition lit_0_1 : float := 0x1.999999999999ap-4%float.

(** The literal [0.015] of the source, as the binary64 value it denotes. *)
Definition lit_0_015 : float := 0x1.eb851eb851eb8p-7%float.

(** An integer as a number: the nearest binary64 value (exact below 2^53
    in absolute value, a tie going to the even mantissa). *)
Definition float_of_Z (z : Z) : float :=
  SF2Prim (binary_normalize prec emax z 0 false).

(** [Math.round]: the nearest integer, a tie going towards +infinity.
    [None] stands for the results that are not integers (NaN, +-Infinity). *)
Definition Math_round (x : float) : option Z :=
  match Prim2SF x with
  | S754_zero _ => Some 0
  | S754_finite s m e =>
      let num := if s then Z.neg m else Z.pos m in
      if 0 <=? e then Some (num * 2 ^ e)
      else Some ((2 * num + 2 ^ (- e)) / 2 ^ (- e + 1))
  | S754_infinity _ => None
  | S754_nan => None
  end.

(** Truthiness of a number: [0], [-0] and [NaN] are falsy. *)
Definition truthy_number (x : float) : bool :=
  negb (PrimFloat.is_zero x || PrimFloat.is_nan x).

(** Truthiness of an integer number. *)
Definition truthy_int (z : Z) : bool := negb (z =? 0).

(** Truthiness of a string: only the empty string is falsy. *)
Definition truthy_string (s : string) : bool :=
  match s with EmptyString => false | String _ _ => true end.

(** Truthiness of a value that may be [undefined] or [null]. *)
Definition truthy_opt {A} (truthy : A → bool) (o : option A) : bool :=
  match o with Some a => truthy a | None => false end.

Definition is_white (c : Ascii.ascii) : bool :=
  let n := Ascii.nat_of_ascii c in
  ((n =? 32) || (n =? 9) || (n =? 10) || (n =? 11) || (n =? 12) || (n =? 13))%nat.

Fixpoint skip_white (s : string) : string :=
  match s with
  | String c s' => if is_white c then skip_white s' else s
  | EmptyString => s
  end.

(** The value of a character as a digit of the given radix. *)
Definition digit_of (radix : Z) (c : Ascii.ascii) : option Z :=
  let n := Z.of_nat (Ascii.nat_of_ascii c) in
  let d := if (48 <=? n) && (n <=? 57) then Some (n - 48)
           else if (97 <=? n) && (n <=? 122) then Some (n - 97 + 10)
           else if (65 <=? n) && (n <=? 90) then Some (n - 65 + 10)
           else None in
  match d with
  | Some v => if v <? radix then Some v else None
  | None => None
  end.

(** The longest prefix of digits, read left to right; [None] when the
    prefix is empty. *)
Fixpoint digits (radix : Z) (acc : option Z) (s : string) : option Z :=
  match s with
  | String c s' =>
      match digit_of radix c with
      | Some d => digits radix (Some (radix * default 0 acc + d)) s'
      | None => acc
      end
  | EmptyString => acc
  end.

(** [parseInt(s)] without a radix argument: leading white space, a sign,
    a [0x] prefix, then digits; [None] stands for [NaN]. *)
Definition parseInt (s : string) : option Z :=
  let s1 := skip_white s in
  let '(neg, s2) :=
    match s1 with
    | String "-"%char r => (true, r)
    | String "+"%char r => (false, r)
    | _ => (false, s1)
    end in
  let '(radix, s3) :=
    match s2 with
    | String "0"%char (String "x"%char r) => (16, r)
    | String "0"%char (String "X"%char r) => (16, r)
    | _ => (10, s2)
    end in
  match digits radix None s3 with
  | Some n => Some (if neg then - n else n)
  | None => None
  end.

(** [(cents / 100).toFixed(2)] for a non-negative integer number of cents. *)
Definition toFixed2_of_cents (cents : Z) : string :=
  let frac := cents mod 100 in
  pretty (cents / 100) +:+ "." +:+ (if frac <? 10 then "0" else "") +:+ pretty frac.

End Js.

(** ** Errors and results *)

(** The machine codes passed to [createError], with their [details], and the
    three errors raised by the store client itself. *)
Inductive ApiError : Type :=
  | INVALID_AMOUNT
  | WALLET_EXISTS
  | WALLET_NOT_FOUND
  | WALLET_LOCKED
  | INSUFFICIENT_BALANCE (required available : Z)
  | INVALID_TRANSFER
  | INVALID_RECIPIENT
  | INVALID_QUANTITY
  | GIFT_NOT_FOUND
  | GIFT_NOT_AVAILABLE
  | INSUFFICIENT_QUANTITY (available requested : Z)
  | INVALID_CLIENT
  | INVALID_REDIRECT_URI
  | INVALID_CLIENT_CREDENTIALS
  | SUBSCRIPTION_INACTIVE
  | UNSUPPORTED_GRANT_TYPE
  | INVALID_REFRESH_TOKEN
  | INVALID_CODE
  | CODE_ALREADY_USED
  | CODE_EXPIRED
  | CODE_VALIDATION_FAILED
  | RECORD_NOT_FOUND       (* update of a row that does not exist *)
  | UNIQUE_CONSTRAINT      (* insert that repeats a unique key *)
  | STORE_VALIDATION.      (* a number that is not an integer written to an integer column *)

Inductive Result (A : Type) : Type :=
  | Ok (a : A)
  | Err (e : ApiError).
Arguments Ok {A} a.
Arguments Err {A} e.


(** ** Asynchronous computations against a store

    A computation runs against the committed store and the writes that the
    enclosing interactive transaction has made through its handle [tx] and
    not yet committed. What the handle sees is the committed store with
    those writes replayed. *)

Module Db.
Section WithStore.
Context {Store : Type}.

Record Ctx : Type := mkCtx {
  committed : Store;
  pending : Store → Store
}.

Definition view (c : Ctx) : Store := pending c (committed c).

Definition Async (A : Type) : Type := Ctx → Result A * Ctx.

Definition ret {A} (a : A) : Async A := fun c => (Ok a, c).

Definition throw {A} (e : ApiError) : Async A := fun c => (Err e, c).

Definition bind {A B} (m : Async A) (k : A → Async B) : Async B :=
  fun c => match m c with
           | (Ok a, c') => k a c'
           | (Err e, c') => (Err e, c')
           end.

(** [prisma.$transaction(async (tx) => body)]: the writes made through
    [tx] are committed together when [body] returns and dropped when it
    throws. A call that [body] makes on the global client is not part of
    the transaction: it commits on its own, whatever happens to [body]. *)
Definition transaction {A} (body : Async A) : Async A :=
  fun c => match body (mkCtx (committed c) id) with
           | (Ok a, c') => (Ok a, mkCtx (view c') (pending c))
           | (Err e, c') => (Err e, mkCtx (committed c') (pending c))
           end.

(** A top-level call: the result and the committed store. *)
Definition run {A} (m : Async A) (s : Store) : Result A * Store :=
  let '(r, c) := m (mkCtx s id) in (r, committed c).

(** The two clients a query can be sent through: the global client
    [prisma] and the handle [tx] of the enclosing transaction. *)
Inductive Client : Type := prisma | tx.

(** What a client sees: [tx] sees its own uncommitted writes. *)
Definition seen (cl : Client) (c : Ctx) : Store :=
  match cl with prisma => committed c | tx => view c end.

Definition read {A} (cl : Client) (f : Store → A) : Async A :=
  fun c => (Ok (f (seen cl c)), c).

(** A write through [prisma] is committed at once; a write through [tx]
    joins the pending writes of the transaction. *)
Definition write (cl : Client) (f : Store → Store) : Async unit :=
  fun c => match cl with
           | prisma => (Ok tt, mkCtx (f (committed c)) (pending c))
           | tx => (Ok tt, mkCtx (committed c) (fun s => f (pending c s)))
           end.

(** [prisma.$transaction([q1, ..., qn])]: the queries run in order in one
    transaction. *)
Fixpoint in_order (queries : list (Client → Async unit)) : Async unit :=
  match queries with
  | [] => ret tt
  | q :: rest => bind (q tx) (fun _ => in_order rest)
  end.

Definition transaction_batch (queries : list (Client → Async unit)) : Async unit :=
  transaction (in_order queries).

End WithStore.
Arguments Ctx : clear implicits.
Arguments Async : clear implicits.
End Db.

Declare Scope async_scope.
Delimit Scope async_scope with async.
Notation "'await' x ← m ; k" := (Db.bind m (fun x => k))
  (at level 10, x name, m at level 100, k at level 200) : async_scope.
Notation "'exec' m ; k" := (Db.bind m (fun _ => k))
  (at level 10, m at level 100, k at level 200) : async_scope.

(** ** The tables of the wallet, gift and payment services *)

Module Ledger.

Inductive TransactionType : Type :=
  | DEPOSIT | GIFT_SENT | GIFT_RECEIVED | BONUS | REFUND | WITHDRAWAL | PENALTY.

Inductive PaymentStatus : Type :=
  | PENDING | SUCCEEDED | FAILED | CANCELED | REFUNDED.

(** One row of [wallet]. Row ids are generated by the store; they are
    drawn here from the counter [nextWalletId]. *)
Record Wallet : Type := mkWallet {
  w_id : N;
  w_userId : string;
  balanceCoins : Z;
  totalSpent : Z;
  totalEarned : Z;
  isLocked : bool
}.

(** One row of [walletTransaction]. [wt_metadata] is a flat JSON object. *)
Record WalletTransaction : Type := mkWalletTransaction {
  wt_walletId : N;
  wt_type : TransactionType;
  wt_amount : Z;
  balanceAfter : Z;
  wt_description : string;
  referenceType : option string;
  referenceId : option string;
  wt_metadata : option (list (string * option string))
}.

(** The columns of [giftType] that [sendGift] reads or writes. *)
Record GiftType : Type := mkGiftType {
  gt_name : string;
  gt_platformId : option string;
  priceCoins : Z;
  isActive : bool;
  isLimited : bool;
  maxQuantity : option Z;
  soldQuantity : Z
}.

Record GiftMarketplace : Type := mkGiftMarketplace {
  revenueShare : float;
  isEnabled : bool
}.

(** One row of [giftTransaction]; its status is always ['COMPLETED']. *)
Record GiftTransaction : Type := mkGiftTransaction {
  g_fromUserId : string;
  g_toUserId : string;
  g_giftTypeId : string;
  g_platformId : string;
  g_quantity : Z;
  totalCoins : Z;
  g_message : option string;
  g_transactionId : string;
  g_platformFee : Z;
  g_socialWalletFee : Z
}.

Record StripePayment : Type := mkStripePayment {
  sp_userId : string;
  sp_amount : Z;
  sp_coins : Z;
  sp_status : PaymentStatus;
  completedAt : option Z
}.

(** The tables: [wallets] by its unique [userId], [giftTypes] by [id],
    [giftMarketplaces] by its unique [platformId], [stripePayments] by its
    unique [stripePaymentId]. *)
Record Store : Type := mkStore {
  wallets : gmap string Wallet;
  nextWalletId : N;
  walletTransactions : list WalletTransaction;
  giftTypes : gmap string GiftType;
  giftMarketplaces : gmap string GiftMarketplace;
  giftTransactions : list GiftTransaction;
  stripePayments : gmap string StripePayment
}.

Definition empty_store : Store :=
  mkStore ∅ 0%N [] ∅ ∅ [] ∅.

Definition with_wallets (f : gmap string Wallet → gmap string Wallet) (s : Store) : Store :=
  mkStore (f (wallets s)) (nextWalletId s) (walletTransactions s) (giftTypes s)
          (giftMarketplaces s) (giftTransactions s) (stripePayments s).

Definition with_nextWalletId (n : N) (s : Store) : Store :=
  mkStore (wallets s) n (walletTransactions s) (giftTypes s)
          (giftMarketplaces s) (giftTransactions s) (stripePayments s).

Definition with_walletTransactions (f : list WalletTransaction → list WalletTransaction)
    (s : Store) : Store :=
  mkStore (wallets s) (nextWalletId s) (f (walletTransactions s)) (giftTypes s)
          (giftMarketplaces s) (giftTransactions s) (stripePayments s).

Definition with_giftTypes (f : gmap string GiftType → gmap string GiftType) (s : Store) : Store :=
  mkStore (wallets s) (nextWalletId s) (walletTransactions s) (f (giftTypes s))
          (giftMarketplaces s) (giftTransactions s) (stripePayments s).

Definition with_giftMarketplaces
    (f : gmap string GiftMarketplace → gmap string GiftMarketplace) (s : Store) : Store :=
  mkStore (wallets s) (nextWalletId s) (walletTransactions s) (giftTypes s)
          (f (giftMarketplaces s)) (giftTransactions s) (stripePayments s).

Definition with_giftTransactions (f : list GiftTransaction → list GiftTransaction)
    (s : Store) : Store :=
  mkStore (wallets s) (nextWalletId s) (walletTransactions s) (giftTypes s)
          (giftMarketplaces s) (f (giftTransactions s)) (stripePayments s).

Definition with_stripePayments (f : gmap string StripePayment → gmap string StripePayment)
    (s : Store) : Store :=
  mkStore (wallets s) (nextWalletId s) (walletTransactions s) (giftTypes s)
          (giftMarketplaces s) (giftTransactions s) (f (stripePayments s)).

Definition Async : Type → Type := Db.Async Store.

End Ledger.

(** *** Queries on the tables *)

Module Prisma.
Import Db Ledger.
Local Open Scope async_scope.

(** [cl.wallet.findUnique({ where: { userId } })] *)
Definition wallet_findUnique (cl : Client) (userId : string) : Async (option Wallet) :=
  read cl (fun s => wallets s !! userId).

(** [cl.wallet.create({ data: { userId, balanceCoins, totalSpent, totalEarned } })];
    the row gets a fresh id and starts unlocked; [userId] is unique. *)
Definition wallet_create (cl : Client) (userId : string)
    (balance spent earned : Z) : Async Wallet :=
  await s ← read cl (fun s => s);
  match wallets s !! userId with
  | Some _ => throw UNIQUE_CONSTRAINT
  | None =>
      let w := mkWallet (nextWalletId s) userId balance spent earned false in
      exec write cl (fun s' => with_nextWalletId (N.succ (w_id w))
                                 (with_wallets (insert userId w) s'));
      ret w
  end.

(** [cl.wallet.update({ where: { userId }, data })] *)
Definition wallet_update (cl : Client) (userId : string) (data : Wallet → Wallet)
    : Async unit :=
  await found ← wallet_findUnique cl userId;
  match found with
  | None => throw RECORD_NOT_FOUND
  | Some _ => write cl (with_wallets (alter data userId))
  end.

(** [cl.walletTransaction.create({ data })] *)
Definition walletTransaction_create (cl : Client) (row : WalletTransaction) : Async unit :=
  write cl (with_walletTransactions (fun rows => rows ++ [row])).

(** [cl.giftType.findUnique({ where: { id } })] *)
Definition giftType_findUnique (cl : Client) (id : string) : Async (option GiftType) :=
  read cl (fun s => giftTypes s !! id).

(** [cl.giftType.update({ where: { id }, data })] *)
Definition giftType_update (cl : Client) (id : string) (data : GiftType → GiftType)
    : Async unit :=
  await found ← giftType_findUnique cl id;
  match found with
  | None => throw RECORD_NOT_FOUND
  | Some _ => write cl (with_giftTypes (alter data id))
  end.

(** [cl.giftMarketplace.findUnique({ where: { platformId } })] *)
Definition giftMarketplace_findUnique (cl : Client) (platformId : string)
    : Async (option GiftMarketplace) :=
  read cl (fun s => giftMarketplaces s !! platformId).

(** [cl.giftTransaction.create({ data })] *)
Definition giftTransaction_create (cl : Client) (row : GiftTransaction) : Async unit :=
  write cl (with_giftTransactions (fun rows => rows ++ [row])).

(** [cl.stripePayment.update({ where: { stripePaymentId }, data })] *)
Definition stripePayment_update (cl : Client) (stripePaymentId : string)
    (data : StripePayment → StripePayment) : Async unit :=
  await found ← read cl (fun s => stripePayments s !! stripePaymentId);
  match found with
  | None => throw RECORD_NOT_FOUND
  | Some _ => write cl (with_stripePayments (alter data stripePaymentId))
  end.

(** The fields set by an update's [data]. *)
Definition set_balance_spent (balance spent : Z) (w : Wallet) : Wallet :=
  mkWallet (w_id w) (w_userId w) balance spent (totalEarned w) (isLocked w).

Definition set_balance_earned (balance earned : Z) (w : Wallet) : Wallet :=
  mkWallet (w_id w) (w_userId w) balance (totalSpent w) earned (isLocked w).

Definition set_isLocked (b : bool) (w : Wallet) : Wallet :=
  mkWallet (w_id w) (w_userId w) (balanceCoins w) (totalSpent w) (totalEarned w) b.

Definition increment_soldQuantity (n : Z) (g : GiftType) : GiftType :=
  mkGiftType (gt_name g) (gt_platformId g) (priceCoins g) (isActive g) (isLimited g)
             (maxQuantity g) (soldQuantity g + n).

Definition set_status_completedAt (st : PaymentStatus) (at_ : option Z)
    (p : StripePayment) : StripePayment :=
  mkStripePayment (sp_userId p) (sp_amount p) (sp_coins p) st at_.

End Prisma.

(** ** [WalletService] *)

Module WalletService.
Import Db Ledger Prisma.
Local Open Scope async_scope.

Definition createWallet (userId : string) : Async string :=
  await existingWallet ← wallet_findUnique prisma userId;
  match existingWallet with
  | Some _ => throw WALLET_EXISTS
  | None =>
      exec wallet_create prisma userId 0 0 0;
      ret "Wallet created successfully"
  end.

Definition addCoins (userId : string) (coins : Z) (type : TransactionType)
    (description : string) (referenceType referenceId : option string)
    (metadata : option (list (string * option string))) : Async Z :=
  if coins <=? 0 then throw INVALID_AMOUNT
  else
    transaction (
      await found ← wallet_findUnique tx userId;
      await wallet ← match found with
                     | Some w => ret w
                     | None => wallet_create tx userId 0 0 0
                     end;
      let newBalance := balanceCoins wallet + coins in
      exec wallet_update tx userId
             (set_balance_earned newBalance (totalEarned wallet + coins));
      exec walletTransaction_create tx
             (mkWalletTransaction (w_id wallet) type coins newBalance description
                                  referenceType referenceId metadata);
      ret newBalance).

Definition deductCoins (userId : string) (coins : Z) (type : TransactionType)
    (description : string) (referenceType referenceId : option string)
    (metadata : option (list (string * option string))) : Async Z :=
  if coins <=? 0 then throw INVALID_AMOUNT
  else
    transaction (
      await found ← wallet_findUnique tx userId;
      match found with
      | None => throw WALLET_NOT_FOUND
      | Some wallet =>
          if isLocked wallet then throw WALLET_LOCKED
          else if balanceCoins wallet <? coins then
            throw (INSUFFICIENT_BALANCE coins (balanceCoins wallet))
          else
            let newBalance := balanceCoins wallet - coins in
            exec wallet_update tx userId
                   (set_balance_spent newBalance (totalSpent wallet + coins));
            exec walletTransaction_create tx
                   (mkWalletTransaction (w_id wallet) type (- coins) newBalance description
                                        referenceType referenceId metadata);
            ret newBalance
      end).

Definition lockWallet (userId : string) : Async string :=
  exec wallet_update prisma userId (set_isLocked true);
  ret "Wallet locked successfully".

Definition unlockWallet (userId : string) : Async string :=
  exec wallet_update prisma userId (set_isLocked false);
  ret "Wallet unlocked successfully".

(** The transfer id; [now] is [Date.now()] and [rnd] the string drawn from
    [Math.random()]. *)
Definition transferId_of (now : Z) (rnd : string) : string :=
  "transfer_" +:+ pretty now +:+ "_" +:+ rnd.

Definition transferCoins (now : Z) (rnd : string)
    (fromUserId toUserId : string) (coins : Z) (description : string) : Async string :=
  if decide (fromUserId = toUserId) then throw INVALID_TRANSFER
  else if coins <=? 0 then throw INVALID_AMOUNT
  else
    let transferId := transferId_of now rnd in
    exec transaction (
      exec deductCoins fromUserId coins GIFT_SENT description
             (Some "peer_transfer") (Some transferId) None;
      exec addCoins toUserId coins GIFT_RECEIVED description
             (Some "peer_transfer") (Some transferId) None;
      ret tt);
    ret "Transfer completed successfully".

End WalletService.

(** ** [WalletService] over integer columns of a given type

    The schema of the store is not among the sources, so the type of its
    integer columns is a parameter here: [column z] tells whether an integer
    column holds [z]. The store refuses a write of a value that a column does
    not hold, with its validation error, and the transaction that made the
    write is rolled back. [addCoins], [deductCoins] and [transferCoins] are
    the methods of [WalletService] above, line for line, over the checked
    writes; with a column type that holds every integer they are the same
    functions. *)

Module Columns.
Import Db Ledger Prisma.
Local Open Scope async_scope.

Section WithColumn.
Variable column : Z → bool.

(** The integer columns of a wallet row, and of a ledger row. A row is
    checked as a whole when it is written: the columns that an update leaves
    alone hold values that an earlier write put there. *)
Definition wallet_fits (w : Wallet) : bool :=
  column (balanceCoins w) && column (totalSpent w) && column (totalEarned w).

Definition walletTransaction_fits (row : WalletTransaction) : bool :=
  column (wt_amount row) && column (balanceAfter row).

(** [cl.wallet.create({ data })] *)
Definition wallet_create (cl : Client) (userId : string)
    (balance spent earned : Z) : Async Wallet :=
  if negb (column balance && column spent && column earned) then throw STORE_VALIDATION
  else Prisma.wallet_create cl userId balance spent earned.

(** [cl.wallet.update({ where: { userId }, data })] *)
Definition wallet_update (cl : Client) (userId : string) (data : Wallet → Wallet)
    : Async unit :=
  await found ← wallet_findUnique cl userId;
  match found with
  | None => throw RECORD_NOT_FOUND
  | Some w =>
      if negb (wallet_fits (data w)) then throw STORE_VALIDATION
      else write cl (with_wallets (alter data userId))
  end.

(** [cl.walletTransaction.create({ data })] *)
Definition walletTransaction_create (cl : Client) (row : WalletTransaction) : Async unit :=
  if negb (walletTransaction_fits row) then throw STORE_VALIDATION
  else Prisma.walletTransaction_create cl row.

Definition addCoins (userId : string) (coins : Z) (type : TransactionType)
    (description : string) (referenceType referenceId : option string)
    (metadata : option (list (string * option string))) : Async Z :=
  if coins <=? 0 then throw INVALID_AMOUNT
  else
    transaction (
      await found ← wallet_findUnique tx userId;
      await wallet ← match found with
                     | Some w => ret w
                     | None => wallet_create tx userId 0 0 0
                     end;
      let newBalance := balanceCoins wallet + coins in
      exec wallet_update tx userId
             (set_balance_earned newBalance (totalEarned wallet + coins));
      exec walletTransaction_create tx
             (mkWalletTransaction (w_id wallet) type coins newBalance description
                                  referenceType referenceId metadata);
      ret newBalance).

Definition deductCoins (userId : string) (coins : Z) (type : TransactionType)
    (description : string) (referenceType referenceId : option string)
    (metadata : option (list (string * option string))) : Async Z :=
  if coins <=? 0 then throw INVALID_AMOUNT
  else
    transaction (
      await found ← wallet_findUnique tx userId;
      match found with
      | None => throw WALLET_NOT_FOUND
      | Some wallet =>
          if isLocked wallet then throw WALLET_LOCKED
          else if balanceCoins wallet <? coins then
            throw (INSUFFICIENT_BALANCE coins (balanceCoins wallet))
          else
            let newBalance := balanceCoins wallet - coins in
            exec wallet_update tx userId
                   (set_balance_spent newBalance (totalSpent wallet + coins));
            exec walletTransaction_create tx
                   (mkWalletTransaction (w_id wallet) type (- coins) newBalance description
                                        referenceType referenceId metadata);
            ret newBalance
      end).

Definition transferCoins (now : Z) (rnd : string)
    (fromUserId toUserId : string) (coins : Z) (description : string) : Async string :=
  if decide (fromUserId = toUserId) then throw INVALID_TRANSFER
  else if coins <=? 0 then throw INVALID_AMOUNT
  else
    let transferId := WalletService.transferId_of now rnd in
    exec transaction (
      exec deductCoins fromUserId coins GIFT_SENT description
             (Some "peer_transfer") (Some transferId) None;
      exec addCoins toUserId coins GIFT_RECEIVED description
             (Some "peer_transfer") (Some transferId) None;
      ret tt);
    ret "Transfer completed successfully".

End WithColumn.

(** The column type that holds every integer, and the signed 32-bit one. *)
Definition any_integer (z : Z) : bool := true.

Definition int32 (z : Z) : bool := (- 2 ^ 31 <=? z) && (z <=? 2 ^ 31 - 1).

End Columns.

(** ** [GiftService] *)

Module GiftService.
Import Db Ledger Prisma.
Local Open Scope async_scope.

(** The request of [sendGift]. [quantity] is an integer when it is given: a
    fractional quantity, which the number type of the source admits, is
    outside the model. *)
Record SendGiftRequest : Type := mkSendGiftRequest {
  fromUserId : string;
  toUserId : string;
  giftTypeId : string;
  platformId : string;
  quantity : option Z;
  message : option string
}.

Record SendGiftResult : Type := mkSendGiftResult {
  transactionId : string;
  totalCost : Z;
  platformFee : Z;
  socialWalletFee : Z
}.

(** [marketplace?.revenueShare || 0.1] *)
Definition platformFeeRate_of (marketplace : option GiftMarketplace) : float :=
  match marketplace with
  | Some m => if Js.truthy_number (revenueShare m) then revenueShare m else Js.lit_0_1
  | None => Js.lit_0_1
  end.

Definition socialWalletFeeRate : float := Js.lit_0_015.

(** [Math.round(totalGiftCost * rate)] *)
Definition fee (totalGiftCost : Z) (rate : float) : option Z :=
  Js.Math_round (PrimFloat.mul (Js.float_of_Z totalGiftCost) rate).

(** The transaction id; [now] is [Date.now()] and [rnd] the hexadecimal
    string of [crypto.randomBytes(8)]. *)
Definition transactionId_of (now : Z) (rnd : string) : string :=
  "gift_" +:+ pretty now +:+ "_" +:+ rnd.

(** The descriptions of the two ledger rows. *)
Definition sent_description (quantity : Z) (giftType : GiftType) : string :=
  "Sent " +:+ pretty quantity +:+ "x " +:+ gt_name giftType +:+ " to user".

Definition received_description (quantity : Z) (giftType : GiftType) : string :=
  "Received " +:+ pretty quantity +:+ "x " +:+ gt_name giftType.

(** [giftType.platformId && giftType.platformId !== platformId] *)
Definition exclusive_elsewhere (giftType : GiftType) (platformId : string) : bool :=
  Js.truthy_opt Js.truthy_string (gt_platformId giftType)
  && negb (bool_decide (gt_platformId giftType = Some platformId)).

(** [giftType.isLimited && giftType.maxQuantity] *)
Definition stock_is_capped (giftType : GiftType) : bool :=
  isLimited giftType && Js.truthy_opt Js.truthy_int (maxQuantity giftType).

(** [giftType.maxQuantity - giftType.soldQuantity], where the cap is set. *)
Definition available_stock (giftType : GiftType) : Z :=
  default 0 (maxQuantity giftType) - soldQuantity giftType.

Definition sendGift (now : Z) (rnd : string) (request : SendGiftRequest)
    : Async SendGiftResult :=
  let fromUserId := fromUserId request in
  let toUserId := toUserId request in
  let giftTypeId := giftTypeId request in
  let platformId := platformId request in
  let quantity := default 1 (quantity request) in
  if decide (fromUserId = toUserId) then throw INVALID_RECIPIENT
  else if (quantity <=? 0) || (100 <? quantity) then throw INVALID_QUANTITY
  else
    await found ← giftType_findUnique prisma giftTypeId;
    match found with
    | None => throw GIFT_NOT_FOUND
    | Some giftType =>
      if negb (isActive giftType) then throw GIFT_NOT_FOUND
      else if exclusive_elsewhere giftType platformId then throw GIFT_NOT_AVAILABLE
      else if stock_is_capped giftType && (available_stock giftType <? quantity)
      then throw (INSUFFICIENT_QUANTITY (available_stock giftType) quantity)
      else
        let totalGiftCost := priceCoins giftType * quantity in
        await marketplace ← giftMarketplace_findUnique prisma platformId;
        let platformFeeRate := platformFeeRate_of marketplace in
        let transactionId := transactionId_of now rnd in
        match fee totalGiftCost platformFeeRate, fee totalGiftCost socialWalletFeeRate with
        | Some platformFee, Some socialWalletFee =>
            let totalCost := totalGiftCost + socialWalletFee in
            exec transaction (
              exec WalletService.deductCoins fromUserId totalCost GIFT_SENT
                     (sent_description quantity giftType)
                     (Some "gift_transaction") (Some transactionId) None;
              let receiverAmount := totalGiftCost - platformFee - socialWalletFee in
              exec WalletService.addCoins toUserId receiverAmount GIFT_RECEIVED
                     (received_description quantity giftType)
                     (Some "gift_transaction") (Some transactionId) None;
              exec giftTransaction_create tx
                     (mkGiftTransaction fromUserId toUserId giftTypeId platformId quantity
                        totalGiftCost (message request) transactionId
                        platformFee socialWalletFee);
              if isLimited giftType
              then giftType_update tx giftTypeId (increment_soldQuantity quantity)
              else ret tt);
            ret (mkSendGiftResult transactionId totalCost platformFee socialWalletFee)
        | None, Some socialWalletFee =>
            (* The platform fee is +-Infinity (an infinite stored rate): the
               debit is as above, then the credit of -+Infinity is refused:
               by the guard of [addCoins] when negative, by the store when
               written to the balance otherwise. *)
            let totalCost := totalGiftCost + socialWalletFee in
            transaction (
              exec WalletService.deductCoins fromUserId totalCost GIFT_SENT
                     (sent_description quantity giftType)
                     (Some "gift_transaction") (Some transactionId) None;
              if PrimFloat.ltb 0 (PrimFloat.mul (Js.float_of_Z totalGiftCost) platformFeeRate)
              then throw INVALID_AMOUNT
              else throw STORE_VALIDATION)
        | _, None =>
            (* Not reached: an integer times 0.015 is finite. *)
            throw STORE_VALIDATION
        end
    end.

End GiftService.

(** ** [StripeService] *)

Module StripeService.
Import Db Ledger Prisma.
Local Open Scope async_scope.

(** The fields of a Stripe payment intent that the webhook handler reads. *)
Record PaymentIntent : Type := mkPaymentIntent {
  pi_id : string;
  pi_amount : Z;
  metadata_userId : option string;
  metadata_coins : option string;
  latest_charge : option string
}.

(** The description and metadata that the handler passes to [addCoins]. *)
Definition deposit_description (paymentIntent : PaymentIntent) : string :=
  "Stripe payment: $" +:+ Js.toFixed2_of_cents (pi_amount paymentIntent).

Definition deposit_metadata (paymentIntent : PaymentIntent)
    : option (list (string * option string)) :=
  Some [("stripePaymentId", Some (pi_id paymentIntent));
        ("stripeChargeId", latest_charge paymentIntent)].

(** [handlePaymentSuccess]; [now] is [new Date()]. *)
Definition handlePaymentSuccess (now : Z) (paymentIntent : PaymentIntent) : Async unit :=
  match metadata_userId paymentIntent, metadata_coins paymentIntent with
  | Some userId, Some coins =>
      if negb (Js.truthy_string userId) || negb (Js.truthy_string coins) then ret tt
      else
        transaction (
          exec stripePayment_update tx (pi_id paymentIntent)
                 (set_status_completedAt SUCCEEDED (Some now));
          exec match Js.parseInt coins with
               | Some n =>
                   WalletService.addCoins userId n DEPOSIT
                     (deposit_description paymentIntent)
                     (Some "stripe_payment") (Some (pi_id paymentIntent))
                     (deposit_metadata paymentIntent)
               | None =>
                   (* [NaN] passes the guard of [addCoins] and is refused
                      by the store when written to the balance. *)
                   throw STORE_VALIDATION
               end;
          ret tt)
  | _, _ => ret tt
  end.

End StripeService.

(** ** [OAuthService] *)

Module OAuth.
Import Db.
Local Open Scope async_scope.

Record ApiClient : Type := mkApiClient {
  c_id : string;
  clientKey : string;
  clientSecret : string;
  clientName : string;
  callbackUrls : list string;
  c_isActive : bool
}.

Record Subscription : Type := mkSubscription {
  s_clientId : string;
  subscriptionStatus : string
}.

Record AuthorizationCode : Type := mkAuthorizationCode {
  ac_userId : string;
  ac_clientId : string;
  ac_code : string;
  ac_redirectUri : string;
  ac_scopes : list string;
  ac_expiresAt : Z;
  used : bool
}.

Record AccessToken : Type := mkAccessToken {
  at_id : N;
  at_userId : string;
  at_clientId : string;
  token : string;
  refreshToken : string;
  at_scopes : list string;
  at_expiresAt : Z
}.

(** The tables: [authorizationCodes] by its unique [code]; access tokens
    in insertion order, their ids drawn from [nextAccessTokenId]. *)
Record Store : Type := mkStore {
  apiClients : list ApiClient;
  subscriptions : list Subscription;
  authorizationCodes : gmap string AuthorizationCode;
  accessTokens : list AccessToken;
  nextAccessTokenId : N
}.

Definition Async : Type → Type := Db.Async Store.

Definition with_authorizationCodes
    (f : gmap string AuthorizationCode → gmap string AuthorizationCode) (s : Store) : Store :=
  mkStore (apiClients s) (subscriptions s) (f (authorizationCodes s)) (accessTokens s)
          (nextAccessTokenId s).

Definition with_accessTokens (f : list AccessToken → list AccessToken) (n : N) (s : Store)
    : Store :=
  mkStore (apiClients s) (subscriptions s) (authorizationCodes s) (f (accessTokens s)) n.

Definition set_used (b : bool) (a : AuthorizationCode) : AuthorizationCode :=
  mkAuthorizationCode (ac_userId a) (ac_clientId a) (ac_code a) (ac_redirectUri a)
                      (ac_scopes a) (ac_expiresAt a) b.

Definition set_token_pair (tok refresh : string) (expiresAt : Z) (t : AccessToken)
    : AccessToken :=
  mkAccessToken (at_id t) (at_userId t) (at_clientId t) tok refresh (at_scopes t) expiresAt.

(** [cl.authorizationCode.findUnique({ where: { code } })] *)
Definition authorizationCode_findUnique (cl : Client) (code : string)
    : Async (option AuthorizationCode) :=
  read cl (fun s => authorizationCodes s !! code).

(** [cl.authorizationCode.create({ data })]; [code] is unique and [used]
    starts false. *)
Definition authorizationCode_create (cl : Client) (userId clientId code redirectUri : string)
    (scopes : list string) (expiresAt : Z) : Async unit :=
  await found ← authorizationCode_findUnique cl code;
  match found with
  | Some _ => throw UNIQUE_CONSTRAINT
  | None =>
      write cl (with_authorizationCodes
                  (insert code (mkAuthorizationCode userId clientId code redirectUri
                                                    scopes expiresAt false)))
  end.

(** [cl.authorizationCode.update({ where: { code }, data })] *)
Definition authorizationCode_update (cl : Client) (code : string)
    (data : AuthorizationCode → AuthorizationCode) : Async unit :=
  await found ← authorizationCode_findUnique cl code;
  match found with
  | None => throw RECORD_NOT_FOUND
  | Some _ => write cl (with_authorizationCodes (alter data code))
  end.

(** Whether a token value or a refresh token value is already taken by a
    row other than [except]. *)
Definition pair_taken (except : option N) (tok refresh : string) (rows : list AccessToken)
    : bool :=
  existsb (fun t => negb (bool_decide (Some (at_id t) = except))
                    && (bool_decide (token t = tok) || bool_decide (refreshToken t = refresh)))
          rows.

(** [cl.accessToken.create({ data })]; [token] and [refreshToken] are unique. *)
Definition accessToken_create (cl : Client) (userId clientId tok refresh : string)
    (scopes : list string) (expiresAt : Z) : Async unit :=
  await s ← read cl (fun s => s);
  if pair_taken None tok refresh (accessTokens s) then throw UNIQUE_CONSTRAINT
  else
    let row := mkAccessToken (nextAccessTokenId s) userId clientId tok refresh
                             scopes expiresAt in
    write cl (fun s' => with_accessTokens (fun rows => rows ++ [row])
                                          (N.succ (at_id row)) s').

(** [cl.accessToken.findUnique({ where: { refreshToken } })] *)
Definition accessToken_findUnique_refreshToken (cl : Client) (refresh : string)
    : Async (option AccessToken) :=
  read cl (fun s => List.find (fun t => bool_decide (refreshToken t = refresh))
                              (accessTokens s)).

(** [cl.accessToken.update({ where: { id }, data })] with a new token pair. *)
Definition accessToken_update (cl : Client) (id : N) (tok refresh : string) (expiresAt : Z)
    : Async unit :=
  await s ← read cl (fun s => s);
  if negb (existsb (fun t => bool_decide (at_id t = id)) (accessTokens s))
  then throw RECORD_NOT_FOUND
  else if pair_taken (Some id) tok refresh (accessTokens s) then throw UNIQUE_CONSTRAINT
  else
    write cl (fun s' =>
      with_accessTokens
        (List.map (fun t => if bool_decide (at_id t = id)
                            then set_token_pair tok refresh expiresAt t else t))
        (nextAccessTokenId s') s').

Record AuthorizeParams : Type := mkAuthorizeParams {
  p_clientId : string;
  p_redirectUri : string;
  p_scope : list string;
  p_state : option string
}.

(** The result of [initiateAuthorization]: either the login request, or the
    redirect target, given by the redirect URI and the query parameters
    appended to it. *)
Inductive AuthorizeResult : Type :=
  | RequiresLogin (clientId clientName : string)
  | Redirect (redirectUri code : string) (state : option string)
             (clientId clientName : string).

(** [initiateAuthorization]; [now] is [Date.now()] and [authorizationCode]
    the hexadecimal string of [crypto.randomBytes(32)]. *)
Definition initiateAuthorization (now : Z) (authorizationCode : string)
    (params : AuthorizeParams) (userId : option string) : Async AuthorizeResult :=
  await found ← read prisma (fun s =>
      List.find (fun c => bool_decide (clientKey c = p_clientId params) && c_isActive c)
                (apiClients s));
  match found with
  | None => throw INVALID_CLIENT
  | Some client =>
      if negb (bool_decide (p_redirectUri params ∈ callbackUrls client))
      then throw INVALID_REDIRECT_URI
      else match userId with
      | Some userId =>
          if Js.truthy_string userId then
            let expiresAt := now + 10 * 60 * 1000 in
            exec authorizationCode_create prisma userId (c_id client) authorizationCode
                   (p_redirectUri params) (p_scope params) expiresAt;
            ret (Redirect (p_redirectUri params) authorizationCode
                          (if Js.truthy_opt Js.truthy_string (p_state params)
                           then p_state params else None)
                          (c_id client) (clientName client))
          else ret (RequiresLogin (c_id client) (clientName client))
      | None => ret (RequiresLogin (c_id client) (clientName client))
      end
  end.

Record TokenResponse : Type := mkTokenResponse {
  r_accessToken : string;
  expiresIn : Z;
  r_refreshToken : string;
  r_scope : list string
}.

(** [validateClient] *)
Definition validateClient (clientId clientSecret_ : string) : Async ApiClient :=
  await found ← read prisma (fun s =>
      List.find (fun c => bool_decide (clientKey c = clientId)
                          && bool_decide (clientSecret c = clientSecret_) && c_isActive c)
                (apiClients s));
  match found with
  | None => throw INVALID_CLIENT_CREDENTIALS
  | Some client =>
      await subscription ← read prisma (fun s =>
          List.find (fun sub => bool_decide (s_clientId sub = c_id client)
                                && bool_decide (subscriptionStatus sub = "active"))
                    (subscriptions s));
      match subscription with
      | None => throw SUBSCRIPTION_INACTIVE
      | Some _ => ret client
      end
  end.

(** [handleAuthorizationCodeGrant]; [now] is the clock read by
    [new Date()] and [Date.now()], [accessToken] and [refreshTokenValue]
    the hexadecimal strings of the two [crypto.randomBytes(32)]. *)
Definition handleAuthorizationCodeGrant (now : Z) (accessToken refreshTokenValue : string)
    (clientId code redirectUri : string) : Async TokenResponse :=
  await found ← authorizationCode_findUnique prisma code;
  match found with
  | None => throw INVALID_CODE
  | Some authCode =>
      if used authCode then throw CODE_ALREADY_USED
      else if ac_expiresAt authCode <? now then throw CODE_EXPIRED
      else if negb (bool_decide (ac_clientId authCode = clientId))
              || negb (bool_decide (ac_redirectUri authCode = redirectUri))
      then throw CODE_VALIDATION_FAILED
      else
        let expiresAt := now + 60 * 60 * 1000 in
        exec transaction_batch [
          (fun cl => authorizationCode_update cl code (set_used true));
          (fun cl => accessToken_create cl (ac_userId authCode) (ac_clientId authCode)
                       accessToken refreshTokenValue (ac_scopes authCode) expiresAt)
        ];
        ret (mkTokenResponse accessToken 3600 refreshTokenValue (ac_scopes authCode))
  end.

(** [handleRefreshTokenGrant] *)
Definition handleRefreshTokenGrant (now : Z) (newAccessToken newRefreshToken : string)
    (clientId refreshToken_ : string) : Async TokenResponse :=
  await found ← accessToken_findUnique_refreshToken prisma refreshToken_;
  match found with
  | None => throw INVALID_REFRESH_TOKEN
  | Some tok =>
      if negb (bool_decide (at_clientId tok = clientId)) then throw INVALID_REFRESH_TOKEN
      else
        let expiresAt := now + 60 * 60 * 1000 in
        exec accessToken_update prisma (at_id tok) newAccessToken newRefreshToken expiresAt;
        ret (mkTokenResponse newAccessToken 3600 newRefreshToken (at_scopes tok))
  end.

Inductive GrantType : Type :=
  | authorization_code | refresh_token | other_grant (name : string).

Record TokenParams : Type := mkTokenParams {
  grantType : GrantType;
  tp_code : string;
  tp_redirectUri : string;
  tp_clientId : string;
  tp_clientSecret : string;
  tp_refreshToken : string
}.

(** [exchangeCodeForToken] *)
Definition exchangeCodeForToken (now : Z) (rnd1 rnd2 : string) (params : TokenParams)
    : Async TokenResponse :=
  await client ← validateClient (tp_clientId params) (tp_clientSecret params);
  match grantType params with
  | authorization_code =>
      handleAuthorizationCodeGrant now rnd1 rnd2 (c_id client) (tp_code params)
                                   (tp_redirectUri params)
  | refresh_token =>
      handleRefreshTokenGrant now rnd1 rnd2 (c_id client) (tp_refreshToken params)
  | other_grant _ => throw UNSUPPORTED_GRANT_TYPE
  end.

End OAuth.

(** ** [WalletService]: queries *)

Module WalletQueries.
Import Db Ledger Prisma.
Local Open Scope async_scope.

Definition COINS_PER_USD : Z := 100.

Definition TRANSACTION_FEE_PERCENT : float := Js.lit_0_015.

Record WalletBalance : Type := mkWalletBalance {
  wb_userId : string;
  wb_balanceCoins : Z;
  wb_totalSpent : Z;
  wb_totalEarned : Z;
  balanceUSD : float
}.

(** [convertCoinsToUSD] *)
Definition convertCoinsToUSD (coins : Z) : float :=
  PrimFloat.div (Js.float_of_Z coins) (Js.float_of_Z COINS_PER_USD).

(** [convertUSDToCoins] *)
Definition convertUSDToCoins (usd : float) : option Z :=
  Js.Math_round (PrimFloat.mul usd (Js.float_of_Z COINS_PER_USD)).

(** [calculateTransactionFee] *)
Definition calculateTransactionFee (amount : Z) : option Z :=
  Js.Math_round (PrimFloat.mul (Js.float_of_Z amount) TRANSACTION_FEE_PERCENT).

(** [getWalletBalance] *)
Definition getWalletBalance (userId : string) : Async WalletBalance :=
  await wallet ← wallet_findUnique prisma userId;
  match wallet with
  | None =>
      exec WalletService.createWallet userId;
      ret (mkWalletBalance userId 0 0 0 0x0p+0%float)
  | Some wallet =>
      ret (mkWalletBalance (w_userId wallet) (balanceCoins wallet) (totalSpent wallet)
                           (totalEarned wallet)
                           (PrimFloat.div (Js.float_of_Z (balanceCoins wallet))
                                          (Js.float_of_Z COINS_PER_USD)))
  end.

(** The fields of a ledger row that [getTransactionHistory] returns and the
    store model holds (the row id and its creation time are not modelled). *)
Record HistoryEntry : Type := mkHistoryEntry {
  he_type : TransactionType;
  he_amount : Z;
  he_balanceAfter : Z;
  he_description : string;
  he_metadata : option (list (string * option string))
}.

Record Pagination : Type := mkPagination {
  pg_limit : N;
  pg_offset : N;
  pg_total : N;
  hasMore : bool
}.

Record TransactionHistory : Type := mkTransactionHistory {
  transactions : list HistoryEntry;
  pagination : Pagination
}.

Definition entry_of (row : WalletTransaction) : HistoryEntry :=
  mkHistoryEntry (wt_type row) (wt_amount row) (balanceAfter row) (wt_description row)
                 (wt_metadata row).

(** [cl.walletTransaction.findMany({ where: { walletId },
      orderBy: { createdAt: 'desc' }, take, skip })]. The rows of the model
    carry no creation time: they are returned in the insertion order
    reversed, which is the order of the source when no two rows of the wallet
    were created at the same instant; among rows created at the same instant
    the source fixes no order. What is proved of the history below holds for
    every order of the rows. [take] and [skip] are the numbers of rows to
    return and to pass over; negative values are outside the model. *)
Definition walletTransaction_findMany (cl : Client) (walletId : N) (take_ skip : N)
    : Async (list WalletTransaction) :=
  read cl (fun s =>
    take (N.to_nat take_)
         (drop (N.to_nat skip)
               (reverse (filter (fun row => wt_walletId row = walletId)
                                (walletTransactions s))))).

(** [cl.walletTransaction.count({ where: { walletId } })] *)
Definition walletTransaction_count (cl : Client) (walletId : N) : Async N :=
  read cl (fun s =>
    N.of_nat (length (filter (fun row => wt_walletId row = walletId)
                             (walletTransactions s)))).

(** [getTransactionHistory]; [limit] defaults to 50 and [offset] to 0. *)
Definition getTransactionHistory (userId : string) (limit offset : option N)
    : Async TransactionHistory :=
  let limit := default 50%N limit in
  let offset := default 0%N offset in
  await wallet ← wallet_findUnique prisma userId;
  match wallet with
  | None => ret (mkTransactionHistory [] (mkPagination limit offset 0 false))
  | Some wallet =>
      await rows ← walletTransaction_findMany prisma (w_id wallet) limit offset;
      await totalCount ← walletTransaction_count prisma (w_id wallet);
      ret (mkTransactionHistory (entry_of <$> rows)
             (mkPagination limit offset totalCount (offset + limit <? totalCount)%N))
  end.

Record WalletStats : Type := mkWalletStats {
  totalWallets : Z;
  totalCoinsInCirculation : Z;
  totalTransactions : Z;
  averageBalance : option Z
}.

(** [cl.wallet.aggregate({ _sum: { balanceCoins: true } })]: the sum of the
    balances, [null] on an empty table. *)
Definition wallet_sum_balanceCoins (cl : Client) : Async (option Z) :=
  read cl (fun s =>
    if decide (wallets s = ∅) then None
    else Some (map_fold (fun _ w acc => balanceCoins w + acc) 0 (wallets s))).

(** [getWalletStats]; [averageBalance] is [None] where [Math.round] does not
    give an integer. *)
Definition getWalletStats : Async WalletStats :=
  await walletCount ← read prisma (fun s => Z.of_nat (size (wallets s)));
  await balanceSum ← wallet_sum_balanceCoins prisma;
  await transactionCount ← read prisma (fun s => Z.of_nat (length (walletTransactions s)));
  let sum := match balanceSum with
             | Some n => if Js.truthy_int n then n else 0
             | None => 0
             end in
  ret (mkWalletStats walletCount sum transactionCount
         (if 0 <? walletCount
          then Js.Math_round (PrimFloat.div (Js.float_of_Z sum) (Js.float_of_Z walletCount))
          else Some 0)).

End WalletQueries.

(** ** [StripeService]: failed, canceled and refunded payments *)

Module StripePayments.
Import Db Ledger Prisma StripeService.
Local Open Scope async_scope.

Definition set_status (st : PaymentStatus) (p : StripePayment) : StripePayment :=
  mkStripePayment (sp_userId p) (sp_amount p) (sp_coins p) st (completedAt p).

(** [handlePaymentFailed] *)
Definition handlePaymentFailed (paymentIntent : PaymentIntent) : Async unit :=
  stripePayment_update prisma (pi_id paymentIntent) (set_status FAILED).

(** [handlePaymentCanceled] *)
Definition handlePaymentCanceled (paymentIntent : PaymentIntent) : Async unit :=
  stripePayment_update prisma (pi_id paymentIntent) (set_status CANCELED).

(** The refund object returned by [stripe.refunds.create]. *)
Record StripeRefund : Type := mkStripeRefund {
  rf_id : string;
  rf_amount : option Z;
  rf_status : option string
}.

Record RefundResult : Type := mkRefundResult {
  refundId : string;
  refunded_amount : Z;
  refund_status : string
}.

(** The errors that [refundPayment] creates itself. The error type of the
    ledger does not list them: the method returns them on the left of a sum,
    which is what throwing them comes to, since it throws them outside any
    transaction. *)
Inductive RefundError : Type :=
  | PAYMENT_NOT_FOUND
  | INVALID_PAYMENT_STATUS
  | STRIPE_REFUND_ERROR.

(** [refundPayment]; [stripe] is the outcome of the two calls to the payment
    processor ([paymentIntents.retrieve], then [refunds.create]): the refund
    created, or [None] when one of them throws a [StripeError]. *)
Definition refundPayment (stripe : option StripeRefund) (paymentIntentId : string)
    : Async (RefundError + RefundResult) :=
  await payment ← read prisma (fun s => stripePayments s !! paymentIntentId);
  match payment with
  | None => ret (inl PAYMENT_NOT_FOUND)
  | Some payment =>
      match sp_status payment with
      | SUCCEEDED =>
          match stripe with
          | None => ret (inl STRIPE_REFUND_ERROR)
          | Some refund =>
              exec stripePayment_update prisma paymentIntentId (set_status REFUNDED);
              exec WalletService.deductCoins (sp_userId payment) (sp_coins payment) REFUND
                     ("Refund for payment " +:+ paymentIntentId)
                     (Some "stripe_refund") (Some (rf_id refund)) None;
              ret (inr (mkRefundResult (rf_id refund)
                          (match rf_amount refund with
                           | Some n => if Js.truthy_int n then n else 0
                           | None => 0
                           end)
                          (match rf_status refund with
                           | Some st => if Js.truthy_string st then st else "unknown"
                           | None => "unknown"
                           end)))
          end
      | _ => ret (inl INVALID_PAYMENT_STATUS)
      end
  end.

End StripePayments.

(** ** [OAuthService]: revocation *)

Module OAuthTokens.
Import Db OAuth.
Local Open Scope async_scope.

(** [cl.accessToken.findUnique({ where: { token } })] *)
Definition accessToken_findUnique_token (cl : Client) (tok : string)
    : Async (option AccessToken) :=
  read cl (fun s => List.find (fun t => bool_decide (token t = tok)) (accessTokens s)).

(** [cl.accessToken.delete({ where: { id } })] *)
Definition accessToken_delete (cl : Client) (id : N) : Async unit :=
  await s ← read cl (fun s => s);
  if negb (existsb (fun t => bool_decide (at_id t = id)) (accessTokens s))
  then throw RECORD_NOT_FOUND
  else write cl (fun s' =>
         with_accessTokens (List.filter (fun t => negb (bool_decide (at_id t = id))))
                           (nextAccessTokenId s') s').

(** [revokeToken] *)
Definition revokeToken (accessToken : string) : Async unit :=
  await found ← accessToken_findUnique_token prisma accessToken;
  match found with
  | Some tok => accessToken_delete prisma (at_id tok)
  | None => ret tt
  end.

End OAuthTokens.

(** ** Observations on the store

    The vocabulary of the statements. The stores [debited], [credited],
    [with_fresh_wallet] and the function [gift_settlement] are normal forms:
    each is proved below to be what the method of the model computes. *)

Import Db Ledger Prisma.

(** The balance shown for a user: that of the wallet, 0 before the wallet
    is created (as [getWalletBalance] reports it). *)
Definition balance_of (s : Ledger.Store) (userId : string) : Z :=
  match wallets s !! userId with
  | Some w => balanceCoins w
  | None => 0
  end.

(** The ledger rows of one wallet, oldest first. *)
Definition history (s : Ledger.Store) (walletId : N) : list WalletTransaction :=
  filter (fun row => wt_walletId row = walletId) (walletTransactions s).

(** The sum of the signed amounts of a wallet's ledger rows. *)
Definition ledger_sum (s : Ledger.Store) (walletId : N) : Z :=
  foldr (fun row acc => wt_amount row + acc) 0 (history s walletId).

(** The ledger agrees with the wallet: the balance is the sum of the signed
    amounts of the wallet's rows, and is not negative. *)
Definition wallet_consistent (s : Ledger.Store) (w : Wallet) : Prop :=
  balanceCoins w = ledger_sum s (w_id w) ∧ 0 ≤ balanceCoins w.

(** The invariant of the ledger: every wallet is consistent, and row ids are
    the ones the store has handed out, one per wallet. *)
Definition ledger_invariant (s : Ledger.Store) : Prop :=
  (∀ u w, wallets s !! u = Some w → wallet_consistent s w ∧ (w_id w < nextWalletId s)%N) ∧
  (∀ u v w w', wallets s !! u = Some w → wallets s !! v = Some w' →
               w_id w = w_id w' → u = v) ∧
  (∀ row, row ∈ walletTransactions s → (wt_walletId row < nextWalletId s)%N).

(** A credit or a debit, with the arguments of the call. *)
Inductive LedgerOp : Type :=
  | Credit (userId : string) (coins : Z) (type : TransactionType) (description : string)
           (referenceType referenceId : option string)
           (metadata : option (list (string * option string)))
  | Debit (userId : string) (coins : Z) (type : TransactionType) (description : string)
          (referenceType referenceId : option string)
          (metadata : option (list (string * option string))).

(** The store left by one operation, whether it succeeds or throws. *)
Definition apply_op (s : Ledger.Store) (op : LedgerOp) : Ledger.Store :=
  match op with
  | Credit u n ty d rt ri md => snd (run (WalletService.addCoins u n ty d rt ri md) s)
  | Debit u n ty d rt ri md => snd (run (WalletService.deductCoins u n ty d rt ri md) s)
  end.

Definition apply_ops (s : Ledger.Store) (ops : list LedgerOp) : Ledger.Store :=
  foldl apply_op s ops.

(** The checks that [sendGift] makes before it computes the fees, for the
    gift type [g] found under the requested id. *)
Definition gift_checks_pass (s : Ledger.Store) (req : GiftService.SendGiftRequest)
    (g : GiftType) : Prop :=
  let q := default 1 (GiftService.quantity req) in
  GiftService.fromUserId req ≠ GiftService.toUserId req ∧
  0 < q ∧ q ≤ 100 ∧
  giftTypes s !! GiftService.giftTypeId req = Some g ∧
  isActive g = true ∧
  GiftService.exclusive_elsewhere g (GiftService.platformId req) = false ∧
  (GiftService.stock_is_capped g && (GiftService.available_stock g <? q)) = false.

(** The audit row and, for a limited gift, the sold-count increment. *)
Definition gift_recorded (req : GiftService.SendGiftRequest) (g : GiftType)
    (transactionId : string) (platformFee socialWalletFee : Z) (s : Ledger.Store)
    : Ledger.Store :=
  let q := default 1 (GiftService.quantity req) in
  let s' := with_giftTransactions
              (fun rows => rows ++ [mkGiftTransaction
                 (GiftService.fromUserId req) (GiftService.toUserId req)
                 (GiftService.giftTypeId req) (GiftService.platformId req) q
                 (priceCoins g * q) (GiftService.message req) transactionId
                 platformFee socialWalletFee]) s in
  if isLimited g
  then with_giftTypes (alter (increment_soldQuantity q) (GiftService.giftTypeId req)) s'
  else s'.

(** What [sendGift] does once its checks have passed, as a sequence of
    separately committed steps. *)
Definition gift_settlement (now : Z) (rnd : string) (req : GiftService.SendGiftRequest)
    (g : GiftType) (s : Ledger.Store) : Result GiftService.SendGiftResult * Ledger.Store :=
  let q := default 1 (GiftService.quantity req) in
  let total := priceCoins g * q in
  let rate := GiftService.platformFeeRate_of (giftMarketplaces s !! GiftService.platformId req) in
  let tid := GiftService.transactionId_of now rnd in
  match GiftService.fee total GiftService.socialWalletFeeRate with
  | None => (Err STORE_VALIDATION, s)
  | Some swf =>
      match run (WalletService.deductCoins (GiftService.fromUserId req) (total + swf) GIFT_SENT
                   (GiftService.sent_description q g)
                   (Some "gift_transaction") (Some tid) None) s with
      | (Err e, s1) => (Err e, s1)
      | (Ok _, s1) =>
          match GiftService.fee total rate with
          | None =>
              (Err (if PrimFloat.ltb 0 (PrimFloat.mul (Js.float_of_Z total) rate)
                    then INVALID_AMOUNT else STORE_VALIDATION), s1)
          | Some pf =>
              match run (WalletService.addCoins (GiftService.toUserId req) (total - pf - swf)
                           GIFT_RECEIVED (GiftService.received_description q g)
                           (Some "gift_transaction") (Some tid) None) s1 with
              | (Err e, s2) => (Err e, s2)
              | (Ok _, s2) =>
                  (Ok (GiftService.mkSendGiftResult tid (total + swf) pf swf),
                   gift_recorded req g tid pf swf s2)
              end
          end
      end
  end.

(** The tables other than the wallets and their ledger. *)
Definition same_catalog (s s' : Ledger.Store) : Prop :=
  giftTypes s' = giftTypes s ∧ giftMarketplaces s' = giftMarketplaces s ∧
  giftTransactions s' = giftTransactions s ∧ stripePayments s' = stripePayments s.

Ltac unfold_async :=
  cbv [run transaction transaction_batch in_order bind ret throw read write seen view
       wallet_findUnique wallet_create wallet_update walletTransaction_create
       giftType_findUnique giftType_update giftMarketplace_findUnique
       giftTransaction_create stripePayment_update
       committed pending id].

(** The store after a debit of [n] coins from the wallet [w] of [u]. *)
Definition debited (s : Ledger.Store) (u : string) (w : Wallet) (n : Z)
    (ty : TransactionType) (d : string) (rt ri : option string)
    (md : option (list (string * option string))) : Ledger.Store :=
  with_walletTransactions
    (fun rows => rows ++ [mkWalletTransaction (w_id w) ty (- n) (balanceCoins w - n) d rt ri md])
    (with_wallets (alter (set_balance_spent (balanceCoins w - n) (totalSpent w + n)) u) s).

(** The store after a credit of [n] coins to the wallet [w] of [u]. *)
Definition credited (s : Ledger.Store) (u : string) (w : Wallet) (n : Z)
    (ty : TransactionType) (d : string) (rt ri : option string)
    (md : option (list (string * option string))) : Ledger.Store :=
  with_walletTransactions
    (fun rows => rows ++ [mkWalletTransaction (w_id w) ty n (balanceCoins w + n) d rt ri md])
    (with_wallets (alter (set_balance_earned (balanceCoins w + n) (totalEarned w + n)) u) s).

(** The store after the lazy creation of the wallet of [u]. *)
Definition fresh_wallet (s : Ledger.Store) (u : string) : Wallet :=
  mkWallet (nextWalletId s) u 0 0 0 false.

Definition with_fresh_wallet (s : Ledger.Store) (u : string) : Ledger.Store :=
  with_nextWalletId (N.succ (nextWalletId s)) (with_wallets (insert u (fresh_wallet s u)) s).

(** ** Scenarios *)

Module Scenario.
Import WalletService.

(** A wallet for user A holding 1000 coins. *)
Definition A_1000 : Ledger.Store :=
  snd (run (addCoins "A" 1000 DEPOSIT "top-up" None None None) empty_store).

(** The same wallet after [lockWallet]. *)
Definition A_1000_locked : Ledger.Store :=
  snd (run (lockWallet "A") A_1000).

(** A credit of 1000, a debit of 300 and a debit of 5000 on the wallet of A. *)
Definition three_ops : list LedgerOp :=
  [Credit "A" 1000 DEPOSIT "top-up" None None None;
   Debit "A" 300 WITHDRAWAL "cash out" None None None;
   Debit "A" 5000 WITHDRAWAL "cash out" None None None].

(** A pending top-up of 500 coins ($5.00) for user A, as recorded by
    [createPaymentIntent], and the webhook event of its success. *)
Definition payment_pending : Ledger.Store :=
  with_stripePayments (insert "pi_1" (mkStripePayment "A" 500 500 PENDING None)) empty_store.

Definition payment_event : StripeService.PaymentIntent :=
  StripeService.mkPaymentIntent "pi_1" 500 (Some "A") (Some "500") (Some "ch_1").

(** A catalog on top of A's wallet: a rose at 100 coins, unlimited, and a
    crown at 50 coins, limited but without a cap, 7 of them sold. Platform X
    takes a revenue share of 10%; platform Y has its marketplace disabled,
    which [disableMarketplace] stores as a share of 0; platform Z takes 100%. *)
Definition gift_shop : Ledger.Store :=
  with_giftMarketplaces
    (fun _ => <["platform_x" := mkGiftMarketplace Js.lit_0_1 true]>
              (<["platform_y" := mkGiftMarketplace 0x0p+0%float false]>
              (<["platform_z" := mkGiftMarketplace 0x1p+0%float true]> ∅)))
    (with_giftTypes
       (fun _ => <["rose" := mkGiftType "Rose" None 100 true false None 0]>
                 (<["crown" := mkGiftType "Crown" None 50 true true None 7]> ∅))
       A_1000).

(** A sends two roses to B on platform X. *)
Definition two_roses : GiftService.SendGiftRequest :=
  GiftService.mkSendGiftRequest "A" "B" "rose" "platform_x" (Some 2) None.

(** A sends one rose to B on platform Y. *)
Definition rose_on_y : GiftService.SendGiftRequest :=
  GiftService.mkSendGiftRequest "A" "B" "rose" "platform_y" None None.

(** A sends one rose to B on platform Z. *)
Definition rose_on_z : GiftService.SendGiftRequest :=
  GiftService.mkSendGiftRequest "A" "B" "rose" "platform_z" None None.

(** A sends ten crowns to B on platform X. *)
Definition ten_crowns : GiftService.SendGiftRequest :=
  GiftService.mkSendGiftRequest "A" "B" "crown" "platform_x" (Some 10) (Some "hail").

End Scenario.

Module ColumnScenario.

(** A holds 1000 coins and B 2147483647, the largest signed 32-bit integer. *)
Definition B_full : Ledger.Store :=
  snd (run (WalletService.addCoins "B" 2147483647 DEPOSIT "top-up" None None None)
           Scenario.A_1000).

End ColumnScenario.

(** ** Observations and scenarios of the authorization broker *)

(** A call that touches the authorization codes or the access tokens. *)
Inductive OAuthOp : Type :=
  | Authorize (now : Z) (authorizationCode : string) (params : OAuth.AuthorizeParams)
              (userId : option string)
  | Grant (now : Z) (accessToken refreshTokenValue clientId code redirectUri : string)
  | Refresh (now : Z) (newAccessToken newRefreshToken clientId refreshToken : string).

(** The store left by one call, whether it succeeds or throws. *)
Definition apply_oauth_op (s : OAuth.Store) (op : OAuthOp) : OAuth.Store :=
  match op with
  | Authorize now c params userId =>
      snd (run (OAuth.initiateAuthorization now c params userId) s)
  | Grant now tok refresh clientId code redirectUri =>
      snd (run (OAuth.handleAuthorizationCodeGrant now tok refresh clientId code redirectUri) s)
  | Refresh now tok refresh clientId old =>
      snd (run (OAuth.handleRefreshTokenGrant now tok refresh clientId old) s)
  end.

Definition apply_oauth_ops (s : OAuth.Store) (ops : list OAuthOp) : OAuth.Store :=
  foldl apply_oauth_op s ops.

Module OAuthScenario.

(** Client X with one callback URI and an active subscription. *)
Definition start : OAuth.Store :=
  OAuth.mkStore [OAuth.mkApiClient "cx" "key_x" "secret_x" "X" ["https://x.example/cb"] true]
                [OAuth.mkSubscription "cx" "active"] ∅ [] 0%N.

(** At time 0, user 1 authorizes client X for the scope [profile]: the code
    expires at 600000 ms. *)
Definition issued : OAuth.Store :=
  snd (run (OAuth.initiateAuthorization 0 "c0de"
              (OAuth.mkAuthorizeParams "key_x" "https://x.example/cb" ["profile"] None)
              (Some "user1")) start).

(** At time 1000 the code is exchanged. *)
Definition exchanged : OAuth.Store :=
  snd (run (OAuth.handleAuthorizationCodeGrant 1000 "tok1" "ref1" "cx" "c0de"
              "https://x.example/cb") issued).

End OAuthScenario.

(** ** Further observations *)

(** The entries of the page of the history of [userId] that starts after
    [offset] rows and holds at most [limit] rows. *)
Definition history_page (s : Ledger.Store) (userId : string) (limit offset : N)
    : list WalletQueries.HistoryEntry :=
  match fst (run (WalletQueries.getTransactionHistory userId (Some limit) (Some offset)) s) with
  | Ok h => WalletQueries.transactions h
  | Err _ => []
  end.

(** The coins held by all wallets together. *)
Definition coins_in_circulation (s : Ledger.Store) : Z :=
  map_fold (fun _ w acc => balanceCoins w + acc) 0 (wallets s).

(** The store left by a series of [sendGift] calls, each with its clock
    reading, its random string and its request. *)
Definition apply_sends (s : Ledger.Store)
    (calls : list (Z * string * GiftService.SendGiftRequest)) : Ledger.Store :=
  foldl (fun s call => snd (run (GiftService.sendGift call.1.1 call.1.2 call.2) s)) s calls.

(** A call of a method of the wallet, gift and payment services that writes
    to the store, with its arguments. *)
Inductive ServiceCall : Type :=
  | CallCreateWallet (userId : string)
  | CallGetWalletBalance (userId : string)
  | CallLedger (op : LedgerOp)
  | CallLockWallet (userId : string)
  | CallUnlockWallet (userId : string)
  | CallTransferCoins (now : Z) (rnd fromUserId toUserId : string) (coins : Z)
                      (description : string)
  | CallSendGift (now : Z) (rnd : string) (request : GiftService.SendGiftRequest)
  | CallPaymentSuccess (now : Z) (paymentIntent : StripeService.PaymentIntent)
  | CallPaymentFailed (paymentIntent : StripeService.PaymentIntent)
  | CallPaymentCanceled (paymentIntent : StripeService.PaymentIntent)
  | CallRefundPayment (stripe : option StripePayments.StripeRefund) (paymentIntentId : string).

(** The store left by one call, whether it succeeds or throws. *)
Definition apply_call (s : Ledger.Store) (call : ServiceCall) : Ledger.Store :=
  match call with
  | CallCreateWallet u => snd (run (WalletService.createWallet u) s)
  | CallGetWalletBalance u => snd (run (WalletQueries.getWalletBalance u) s)
  | CallLedger op => apply_op s op
  | CallLockWallet u => snd (run (WalletService.lockWallet u) s)
  | CallUnlockWallet u => snd (run (WalletService.unlockWallet u) s)
  | CallTransferCoins now rnd from to n d =>
      snd (run (WalletService.transferCoins now rnd from to n d) s)
  | CallSendGift now rnd req => snd (run (GiftService.sendGift now rnd req) s)
  | CallPaymentSuccess now paymentIntent =>
      snd (run (StripeService.handlePaymentSuccess now paymentIntent) s)
  | CallPaymentFailed paymentIntent =>
      snd (run (StripePayments.handlePaymentFailed paymentIntent) s)
  | CallPaymentCanceled paymentIntent =>
      snd (run (StripePayments.handlePaymentCanceled paymentIntent) s)
  | CallRefundPayment stripe id => snd (run (StripePayments.refundPayment stripe id) s)
  end.

Definition apply_calls (s : Ledger.Store) (calls : list ServiceCall) : Ledger.Store :=
  foldl apply_call s calls.

(** The part of the store that the ledger invariant is about. *)
Definition same_ledger (s s' : Ledger.Store) : Prop :=
  wallets s' = wallets s ∧ nextWalletId s' = nextWalletId s ∧
  walletTransactions s' = walletTransactions s.

(** ** Further scenarios *)

Module MoreScenarios.

(** The catalog with a ring at 10 coins, limited to 5, of which 3 are sold. *)
Definition ring_shop : Ledger.Store :=
  with_giftTypes (insert "ring" (mkGiftType "Ring" None 10 true true (Some 5) 3))
                 Scenario.gift_shop.

(** A sends three rings, then two rings, to B on platform X. *)
Definition three_rings : GiftService.SendGiftRequest :=
  GiftService.mkSendGiftRequest "A" "B" "ring" "platform_x" (Some 3) None.

Definition two_rings : GiftService.SendGiftRequest :=
  GiftService.mkSendGiftRequest "A" "B" "ring" "platform_x" (Some 2) None.

(** The top-up of the first scenarios once its success event has been
    handled, and the refund that the processor creates for it. *)
Definition paid : Ledger.Store :=
  snd (run (StripeService.handlePaymentSuccess 1000 Scenario.payment_event)
           Scenario.payment_pending).

Definition a_refund : StripePayments.StripeRefund :=
  StripePayments.mkStripeRefund "re_1" (Some 500) (Some "succeeded").

(** The same top-up after A has spent 200 of the 500 coins. *)
Definition paid_and_spent : Ledger.Store :=
  snd (run (WalletService.deductCoins "A" 200 WITHDRAWAL "cash out" None None None) paid).

(** Success events for the pending top-up with a coin amount of 0, and with
    one that is not a number; and one without metadata. *)
Definition event_zero_coins : StripeService.PaymentIntent :=
  StripeService.mkPaymentIntent "pi_1" 500 (Some "A") (Some "0") (Some "ch_1").

Definition event_bad_coins : StripeService.PaymentIntent :=
  StripeService.mkPaymentIntent "pi_1" 500 (Some "A") (Some "many") (Some "ch_1").

Definition event_no_metadata : StripeService.PaymentIntent :=
  StripeService.mkPaymentIntent "pi_1" 500 None None (Some "ch_1").

(** A day of calls on the catalog of the first scenarios. *)
Definition a_day : list ServiceCall :=
  [CallGetWalletBalance "B";
   CallSendGift 0 "00" Scenario.two_roses;
   CallSendGift 1 "01" Scenario.rose_on_z;
   CallLockWallet "A";
   CallTransferCoins 2 "r" "A" "B" 50 "thanks";
   CallUnlockWallet "A";
   CallTransferCoins 3 "r" "A" "B" 50 "thanks";
   CallPaymentSuccess 4 Scenario.payment_event;
   CallRefundPayment (Some a_refund) "pi_1"].

End MoreScenarios.

Module UnpaidScenario.

(** The catalog with a leaf that costs nothing, and a leaf sent by A to B. *)
Definition leaf_shop : Ledger.Store :=
  with_giftTypes (insert "leaf" (mkGiftType "Leaf" None 0 true false None 0))
                 Scenario.gift_shop.

Definition a_leaf : GiftService.SendGiftRequest :=
  GiftService.mkSendGiftRequest "A" "B" "leaf" "platform_x" None None.

(** C, who has no wallet, sends a crown to B. *)
Definition crown_from_C : GiftService.SendGiftRequest :=
  GiftService.mkSendGiftRequest "C" "B" "crown" "platform_x" None None.

(** The catalog of the first scenarios after the wallet of A is locked. *)
Definition locked_shop : Ledger.Store :=
  snd (run (WalletService.lockWallet "A") Scenario.gift_shop).

(** A sends thirty crowns to B. *)
Definition thirty_crowns : GiftService.SendGiftRequest :=
  GiftService.mkSendGiftRequest "A" "B" "crown" "platform_x" (Some 30) None.

End UnpaidScenario.

Module RefundScenario.

(** The top-up of the first scenarios after it has been refunded. *)
Definition refunded : Ledger.Store :=
  snd (run (StripePayments.refundPayment (Some MoreScenarios.a_refund) "pi_1")
           MoreScenarios.paid).

End RefundScenario.

(** ** Further observations of the authorization broker *)

(** The unique columns of the access-token table: the ids, the token values
    and the refresh token values are pairwise different, and every id was
    drawn from the counter. *)
Definition tokens_unique (s : OAuth.Store) : Prop :=
  NoDup (OAuth.at_id <$> OAuth.accessTokens s) ∧
  NoDup (OAuth.token <$> OAuth.accessTokens s) ∧
  NoDup (OAuth.refreshToken <$> OAuth.accessTokens s) ∧
  Forall (fun t => (OAuth.at_id t < OAuth.nextAccessTokenId s)%N) (OAuth.accessTokens s).

#[global] Instance tokens_unique_dec (s : OAuth.Store) : Decision (tokens_unique s).
Proof. unfold tokens_unique. apply _. Defined.

(** The rows that answer to a bearer token, and to a refresh token. *)
Definition row_of_token (s : OAuth.Store) (tok : string) : option OAuth.AccessToken :=
  List.find (fun t => bool_decide (OAuth.token t = tok)) (OAuth.accessTokens s).

Definition row_of_refreshToken (s : OAuth.Store) (refresh : string)
    : option OAuth.AccessToken :=
  List.find (fun t => bool_decide (OAuth.refreshToken t = refresh)) (OAuth.accessTokens s).

(** A call of the public interface of the broker. *)
Inductive OAuthCall : Type :=
  | CallAuthorize (now : Z) (authorizationCode : string) (params : OAuth.AuthorizeParams)
                  (userId : option string)
  | CallExchange (now : Z) (rnd1 rnd2 : string) (params : OAuth.TokenParams)
  | CallRevoke (accessToken : string).

(** The store left by one call, whether it succeeds or throws. *)
Definition apply_oauth_call (s : OAuth.Store) (call : OAuthCall) : OAuth.Store :=
  match call with
  | CallAuthorize now c params userId =>
      snd (run (OAuth.initiateAuthorization now c params userId) s)
  | CallExchange now rnd1 rnd2 params =>
      snd (run (OAuth.exchangeCodeForToken now rnd1 rnd2 params) s)
  | CallRevoke tok => snd (run (OAuthTokens.revokeToken tok) s)
  end.

Definition apply_oauth_calls (s : OAuth.Store) (calls : list OAuthCall) : OAuth.Store :=
  foldl apply_oauth_call s calls.

Module TokenScenario.

(** The token of the scenario is refreshed at time 5000000, after it expired
    at 3601000. *)
Definition refreshed : OAuth.Store :=
  snd (run (OAuth.handleRefreshTokenGrant 5000000 "tok2" "ref2" "cx" "ref1")
           OAuthScenario.exchanged).

(** A second code for the same user, exchanged at time 2000. *)
Definition two_tokens : OAuth.Store :=
  apply_oauth_calls OAuthScenario.exchanged
    [CallAuthorize 1500 "c0de2"
       (OAuth.mkAuthorizeParams "key_x" "https://x.example/cb" ["profile"; "email"] None)
       (Some "user1");
     CallExchange 2000 "tok3" "ref3"
       (OAuth.mkTokenParams OAuth.authorization_code "c0de2" "https://x.example/cb"
                            "key_x" "secret_x" "")].

End TokenScenario.

Ltac unfold_oauth :=
  cbv [run transaction transaction_batch in_order bind ret throw read write seen view
       OAuth.authorizationCode_findUnique OAuth.authorizationCode_create
       OAuth.authorizationCode_update OAuth.accessToken_create
       OAuth.accessToken_findUnique_refreshToken OAuth.accessToken_update
       committed pending id].

(** * Properties *)

(** ** Numbers of the source language *)

(** [Math.round] on ties and near them. *)
Example Math_round_ties :
  Js.Math_round 0x1p-1%float = Some 1 ∧ Js.Math_round (-0x1p-1)%float = Some 0 ∧
  Js.Math_round 0x1.4p+1%float = Some 3 ∧ Js.Math_round (-0x1.8p+0)%float = Some (-1) ∧
  Js.Math_round (-0x1.4p+1)%float = Some (-2) ∧ Js.Math_round 0x1.ccccccccccccdp+0%float = Some 2.
Proof. repeat split; reflexivity. Qed.

(** [parseInt] on decimal, signed, prefixed and malformed strings. *)
Example parseInt_samples :
  Js.parseInt "500" = Some 500 ∧ Js.parseInt "  -42px" = Some (-42) ∧
  Js.parseInt "0x1A" = Some 26 ∧ Js.parseInt "abc" = None ∧ Js.parseInt "" = None.
Proof. repeat split; reflexivity. Qed.

(** [toFixed(2)] on whole cents. *)
Example toFixed2_samples :
  Js.toFixed2_of_cents 500 = "5.00" ∧ Js.toFixed2_of_cents 1234 = "12.34" ∧
  Js.toFixed2_of_cents 1005 = "10.05".
Proof. repeat split; vm_compute; reflexivity. Qed.

(** The fees of the scenario of the specification: 10% and 1.5% of 200. *)
Example fee_samples :
  GiftService.fee 200 Js.lit_0_1 = Some 20 ∧ GiftService.fee 200 Js.lit_0_015 = Some 3 ∧
  GiftService.fee 100 Js.lit_0_015 = Some 2 ∧ GiftService.fee 5 Js.lit_0_1 = Some 1 ∧
  GiftService.fee 33 Js.lit_0_015 = Some 0.
Proof. repeat split; vm_compute; reflexivity. Qed.

(** ** Equations of [addCoins] and [deductCoins] *)

Section WalletServiceEquations.
Import WalletService.
Implicit Types (s : Ledger.Store) (u : string) (w : Wallet) (n : Z).

(** [deductCoins] and [addCoins] open their own transaction on the global
    client: in any context they act on the committed store alone. *)
Lemma deductCoins_ctx u n ty d rt ri md (c : Ctx Ledger.Store) :
  deductCoins u n ty d rt ri md c =
  (fst (run (deductCoins u n ty d rt ri md) (committed c)),
   mkCtx (snd (run (deductCoins u n ty d rt ri md) (committed c))) (pending c)).
Proof.
  destruct c as [s0 p]. unfold deductCoins. destruct (n <=? 0).
  - done.
  - unfold_async. simpl.
    destruct (wallets s0 !! u) as [w|] eqn:Hw; simpl; [|done].
    destruct (isLocked w); [done|].
    destruct (balanceCoins w <? n); [done|]. by rewrite Hw.
Qed.

Lemma addCoins_ctx u n ty d rt ri md (c : Ctx Ledger.Store) :
  addCoins u n ty d rt ri md c =
  (fst (run (addCoins u n ty d rt ri md) (committed c)),
   mkCtx (snd (run (addCoins u n ty d rt ri md) (committed c))) (pending c)).
Proof.
  destruct c as [s0 p]. unfold addCoins. destruct (n <=? 0).
  - done.
  - unfold_async. simpl.
    destruct (wallets s0 !! u) as [w|] eqn:Hw; simpl.
    + by rewrite Hw.
    + rewrite Hw. simpl. by rewrite lookup_insert_eq.
Qed.

Lemma deductCoins_invalid s u n ty d rt ri md :
  n ≤ 0 → run (deductCoins u n ty d rt ri md) s = (Err INVALID_AMOUNT, s).
Proof. intros Hn. unfold deductCoins. by destruct (Z.leb_spec n 0); [|lia]. Qed.

Lemma deductCoins_not_found s u n ty d rt ri md :
  0 < n → wallets s !! u = None →
  run (deductCoins u n ty d rt ri md) s = (Err WALLET_NOT_FOUND, s).
Proof.
  intros Hn Hw. unfold deductCoins. destruct (Z.leb_spec n 0); [lia|].
  unfold_async. by rewrite Hw.
Qed.

Lemma deductCoins_locked s u w n ty d rt ri md :
  0 < n → wallets s !! u = Some w → isLocked w = true →
  run (deductCoins u n ty d rt ri md) s = (Err WALLET_LOCKED, s).
Proof.
  intros Hn Hw Hl. unfold deductCoins. destruct (Z.leb_spec n 0); [lia|].
  unfold_async. by rewrite Hw, Hl.
Qed.

Lemma deductCoins_insufficient s u w n ty d rt ri md :
  0 < n → wallets s !! u = Some w → isLocked w = false → balanceCoins w < n →
  run (deductCoins u n ty d rt ri md) s
  = (Err (INSUFFICIENT_BALANCE n (balanceCoins w)), s).
Proof.
  intros Hn Hw Hl Hb. unfold deductCoins. destruct (Z.leb_spec n 0); [lia|].
  unfold_async. rewrite Hw, Hl. by destruct (Z.ltb_spec (balanceCoins w) n); [|lia].
Qed.

Lemma deductCoins_ok s u w n ty d rt ri md :
  0 < n → wallets s !! u = Some w → isLocked w = false → n ≤ balanceCoins w →
  run (deductCoins u n ty d rt ri md) s
  = (Ok (balanceCoins w - n), debited s u w n ty d rt ri md).
Proof.
  intros Hn Hw Hl Hb. unfold deductCoins. destruct (Z.leb_spec n 0); [lia|].
  unfold_async. rewrite Hw, Hl. destruct (Z.ltb_spec (balanceCoins w) n); [lia|].
  by rewrite Hw.
Qed.

Lemma addCoins_invalid s u n ty d rt ri md :
  n ≤ 0 → run (addCoins u n ty d rt ri md) s = (Err INVALID_AMOUNT, s).
Proof. intros Hn. unfold addCoins. by destruct (Z.leb_spec n 0); [|lia]. Qed.

Lemma addCoins_ok_existing s u w n ty d rt ri md :
  0 < n → wallets s !! u = Some w →
  run (addCoins u n ty d rt ri md) s
  = (Ok (balanceCoins w + n), credited s u w n ty d rt ri md).
Proof.
  intros Hn Hw. unfold addCoins. destruct (Z.leb_spec n 0); [lia|].
  unfold_async. rewrite Hw. simpl. by rewrite Hw.
Qed.

Lemma addCoins_ok_new s u n ty d rt ri md :
  0 < n → wallets s !! u = None →
  run (addCoins u n ty d rt ri md) s
  = (Ok n, credited (with_fresh_wallet s u) u (fresh_wallet s u) n ty d rt ri md).
Proof.
  intros Hn Hw. unfold addCoins. destruct (Z.leb_spec n 0); [lia|].
  unfold_async. rewrite Hw. simpl. rewrite Hw. simpl. by rewrite lookup_insert_eq.
Qed.

End WalletServiceEquations.

(** ** Debits beyond the balance *)

(** C8, as stated, fails on a locked wallet: with balance 1000 and the lock
    set, a debit of 1500 is refused with WALLET_LOCKED, not with
    INSUFFICIENT_BALANCE. *)
Lemma debit_beyond_balance_locked_counterexample :
  wallets Scenario.A_1000_locked !! "A" = Some (mkWallet 0 "A" 1000 0 1000 true) ∧
  run (WalletService.deductCoins "A" 1500 WITHDRAWAL "cash out" None None None)
      Scenario.A_1000_locked
  = (Err WALLET_LOCKED, Scenario.A_1000_locked) ∧
  run (WalletService.deductCoins "A" 1500 WITHDRAWAL "cash out" None None None)
      Scenario.A_1000_locked
  ≠ (Err (INSUFFICIENT_BALANCE 1500 1000), Scenario.A_1000_locked).
Proof.
  assert (Hw : wallets Scenario.A_1000_locked !! "A" = Some (mkWallet 0 "A" 1000 0 1000 true))
    by (vm_compute; reflexivity).
  split; [exact Hw|].
  rewrite (deductCoins_locked Scenario.A_1000_locked "A" _ 1500 WITHDRAWAL "cash out"
             None None None ltac:(lia) Hw eq_refl).
  split; [reflexivity | discriminate].
Qed.

(** C8 (amended): for every wallet with balance b and every debit of a
    positive amount n > b, [deductCoins] fails and leaves the whole store
    (balance, lifetime-spent counter, ledger) as it was; the error is
    INSUFFICIENT_BALANCE carrying required n and available b when the wallet
    is unlocked, and WALLET_LOCKED when it is locked. *)
Theorem debit_beyond_balance_rejected
    (s : Ledger.Store) (u : string) (w : Wallet) (n : Z) ty d rt ri md :
  wallets s !! u = Some w → 0 < n → balanceCoins w < n →
  run (WalletService.deductCoins u n ty d rt ri md) s
  = (Err (if isLocked w then WALLET_LOCKED else INSUFFICIENT_BALANCE n (balanceCoins w)), s).
Proof.
  intros Hw Hn Hb. destruct (isLocked w) eqn:Hl.
  - by apply deductCoins_locked with w.
  - by apply deductCoins_insufficient.
Qed.

(** The scenario of the specification: [debit(A, 1500)] on a balance of 1000. *)
Lemma debit_beyond_balance_rejected_witness :
  run (WalletService.deductCoins "A" 1500 WITHDRAWAL "cash out" None None None)
      Scenario.A_1000
  = (Err (INSUFFICIENT_BALANCE 1500 1000), Scenario.A_1000)
  ∧ balance_of Scenario.A_1000 "A" = 1000.
Proof.
  split; [|vm_compute; reflexivity].
  apply (debit_beyond_balance_rejected Scenario.A_1000 "A" (mkWallet 0 "A" 1000 0 1000 false)
           1500 WITHDRAWAL "cash out" None None None).
  - vm_compute; reflexivity.
  - lia.
  - simpl; lia.
Defined.

(** ** Balances after a credit and after a debit *)

Section Balances.
Implicit Types (s : Ledger.Store) (u v : string) (w : Wallet) (n : Z).

Lemma balance_of_debited_same s u w n ty d rt ri md :
  wallets s !! u = Some w →
  balance_of (debited s u w n ty d rt ri md) u = balanceCoins w - n.
Proof.
  intros Hw. unfold balance_of, debited. simpl.
  by rewrite lookup_alter_eq, Hw.
Qed.

Lemma wallets_debited_other s u v w n ty d rt ri md :
  u ≠ v → wallets (debited s u w n ty d rt ri md) !! v = wallets s !! v.
Proof. intros Hne. unfold debited. simpl. by rewrite lookup_alter_ne. Qed.

Lemma balance_of_credited_same s u w n ty d rt ri md :
  wallets s !! u = Some w →
  balance_of (credited s u w n ty d rt ri md) u = balanceCoins w + n.
Proof.
  intros Hw. unfold balance_of, credited. simpl.
  by rewrite lookup_alter_eq, Hw.
Qed.

Lemma wallets_credited_other s u v w n ty d rt ri md :
  u ≠ v → wallets (credited s u w n ty d rt ri md) !! v = wallets s !! v.
Proof. intros Hne. unfold credited. simpl. by rewrite lookup_alter_ne. Qed.

Lemma wallets_fresh_same s u :
  wallets (with_fresh_wallet s u) !! u = Some (fresh_wallet s u).
Proof. unfold with_fresh_wallet. simpl. by rewrite lookup_insert_eq. Qed.

Lemma wallets_fresh_other s u v :
  u ≠ v → wallets (with_fresh_wallet s u) !! v = wallets s !! v.
Proof. intros Hne. unfold with_fresh_wallet. simpl. by rewrite lookup_insert_ne. Qed.

(** A successful credit raises the balance shown for the user by the amount
    and leaves the other users' wallets alone. *)
Lemma addCoins_balance s s' u n ty d rt ri md b :
  run (WalletService.addCoins u n ty d rt ri md) s = (Ok b, s') →
  balance_of s' u = balance_of s u + n ∧ b = balance_of s' u ∧
  ∀ v, v ≠ u → wallets s' !! v = wallets s !! v.
Proof.
  intros Hrun. destruct (Z.leb_spec n 0) as [Hn|Hn].
  { by rewrite addCoins_invalid in Hrun. }
  destruct (wallets s !! u) as [w|] eqn:Hw.
  - rewrite (addCoins_ok_existing _ _ w) in Hrun by done. simplify_eq.
    rewrite balance_of_credited_same by done. unfold balance_of. rewrite Hw.
    split; [done|]. split; [done|]. intros v Hv. by apply wallets_credited_other.
  - rewrite addCoins_ok_new in Hrun by done. simplify_eq.
    rewrite balance_of_credited_same by apply wallets_fresh_same.
    unfold balance_of. rewrite Hw.
    split; [done|]. split; [done|]. intros v Hv.
    rewrite wallets_credited_other by done. by apply wallets_fresh_other.
Qed.

(** A positive credit never fails. *)
Lemma addCoins_succeeds s u n ty d rt ri md :
  0 < n → ∃ b s', run (WalletService.addCoins u n ty d rt ri md) s = (Ok b, s').
Proof.
  intros Hn. destruct (wallets s !! u) as [w|] eqn:Hw.
  - eexists _, _. by apply addCoins_ok_existing.
  - eexists _, _. by apply addCoins_ok_new.
Qed.

(** A debit either succeeds, lowering the balance by the amount and leaving
    the other wallets alone, or fails and leaves the store as it was. *)
Lemma deductCoins_cases s u n ty d rt ri md :
  (∃ e, run (WalletService.deductCoins u n ty d rt ri md) s = (Err e, s)) ∨
  (∃ w, wallets s !! u = Some w ∧ isLocked w = false ∧ 0 < n ∧ n ≤ balanceCoins w ∧
        run (WalletService.deductCoins u n ty d rt ri md) s
        = (Ok (balanceCoins w - n), debited s u w n ty d rt ri md)).
Proof.
  destruct (Z.leb_spec n 0) as [Hn|Hn].
  { left. eexists. by apply deductCoins_invalid. }
  destruct (wallets s !! u) as [w|] eqn:Hw.
  2: { left. eexists. by apply deductCoins_not_found. }
  destruct (isLocked w) eqn:Hl.
  { left. eexists. by apply deductCoins_locked with w. }
  destruct (Z.ltb_spec (balanceCoins w) n) as [Hb|Hb].
  { left. eexists. by apply deductCoins_insufficient. }
  right. exists w. repeat split; try done. by apply deductCoins_ok.
Qed.

End Balances.

(** ** Transfers *)

Section Transfer.
Import WalletService.
Implicit Types (s : Ledger.Store) (n : Z).

(** A transfer that passes its two guards is the debit followed, when the
    debit succeeds, by the credit, each committed by its own transaction. *)
Lemma transferCoins_run now rnd from to n d s :
  from ≠ to → 0 < n →
  run (transferCoins now rnd from to n d) s =
  match run (deductCoins from n GIFT_SENT d (Some "peer_transfer")
                         (Some (transferId_of now rnd)) None) s with
  | (Err e, s1) => (Err e, s1)
  | (Ok _, s1) =>
      match run (addCoins to n GIFT_RECEIVED d (Some "peer_transfer")
                          (Some (transferId_of now rnd)) None) s1 with
      | (Err e, s2) => (Err e, s2)
      | (Ok _, s2) => (Ok "Transfer completed successfully", s2)
      end
  end.
Proof.
  intros Hne Hn. unfold transferCoins.
  destruct (decide (from = to)); [done|].
  destruct (Z.leb_spec n 0); [lia|].
  unfold run at 1. unfold bind, transaction at 1.
  rewrite deductCoins_ctx. simpl.
  destruct (run (deductCoins _ _ _ _ _ _ _) s) as [[b|e] s1]; simpl; [|done].
  rewrite addCoins_ctx. simpl.
  by destruct (run (addCoins _ _ _ _ _ _ _) s1) as [[b'|e] s2].
Qed.

End Transfer.

(** C9: [transferCoins(from, to, n)] fails with INVALID_TRANSFER when
    [from] equals [to], whatever n is, and otherwise with INVALID_AMOUNT when
    n <= 0. In both cases the outcome is the same on every store and the store
    is left as it was: no wallet or ledger row is read or written. *)
Theorem transferCoins_guards (now : Z) (rnd from to : string) (n : Z) (d : string) :
  (from = to →
   ∀ s, run (WalletService.transferCoins now rnd from to n d) s = (Err INVALID_TRANSFER, s)) ∧
  (from ≠ to → n ≤ 0 →
   ∀ s, run (WalletService.transferCoins now rnd from to n d) s = (Err INVALID_AMOUNT, s)).
Proof.
  unfold WalletService.transferCoins. split.
  - intros Heq s. by destruct (decide (from = to)).
  - intros Hne Hn s. destruct (decide (from = to)); [done|].
    by destruct (Z.leb_spec n 0); [|lia].
Qed.

Lemma transferCoins_guards_witness :
  run (WalletService.transferCoins 0 "r" "A" "A" (-5) "self") Scenario.A_1000
  = (Err INVALID_TRANSFER, Scenario.A_1000) ∧
  run (WalletService.transferCoins 0 "r" "A" "B" 0 "nothing") Scenario.A_1000
  = (Err INVALID_AMOUNT, Scenario.A_1000).
Proof.
  split.
  - apply (proj1 (transferCoins_guards 0 "r" "A" "A" (-5) "self")). reflexivity.
  - apply (proj2 (transferCoins_guards 0 "r" "A" "B" 0 "nothing")); [discriminate | lia].
Defined.

(** ** Atomicity of a transfer *)

Section TransferColumns.
Import WalletService.
Variable column : Z → bool.
Implicit Types (s : Ledger.Store) (u : string) (w : Wallet) (n : Z).

(** The methods over a column type open their own transaction on the global
    client, as the ones of [WalletService] do. *)
Lemma Columns_deductCoins_ctx u n ty d rt ri md (c : Ctx Ledger.Store) :
  Columns.deductCoins column u n ty d rt ri md c =
  (fst (run (Columns.deductCoins column u n ty d rt ri md) (committed c)),
   mkCtx (snd (run (Columns.deductCoins column u n ty d rt ri md) (committed c)))
         (pending c)).
Proof.
  destruct c as [s0 p]. unfold Columns.deductCoins. destruct (n <=? 0); [done|].
  unfold Columns.wallet_update, Columns.walletTransaction_create. unfold_async. simpl.
  destruct (wallets s0 !! u) as [w|] eqn:Hw; simpl; [|done].
  destruct (isLocked w); [done|].
  destruct (balanceCoins w <? n); [done|]. rewrite Hw. simpl.
  destruct (Columns.wallet_fits column _); simpl; [|done].
  by destruct (Columns.walletTransaction_fits column _).
Qed.

Lemma Columns_addCoins_ctx u n ty d rt ri md (c : Ctx Ledger.Store) :
  Columns.addCoins column u n ty d rt ri md c =
  (fst (run (Columns.addCoins column u n ty d rt ri md) (committed c)),
   mkCtx (snd (run (Columns.addCoins column u n ty d rt ri md) (committed c)))
         (pending c)).
Proof.
  destruct c as [s0 p]. unfold Columns.addCoins. destruct (n <=? 0); [done|].
  unfold Columns.wallet_update, Columns.walletTransaction_create, Columns.wallet_create.
  unfold_async. simpl.
  destruct (wallets s0 !! u) as [w|] eqn:Hw; simpl.
  - rewrite Hw. simpl. destruct (Columns.wallet_fits column _); simpl; [|done].
    by destruct (Columns.walletTransaction_fits column _).
  - destruct (column 0); simpl; [|done]. rewrite Hw. simpl. rewrite lookup_insert_eq. simpl.
    destruct (Columns.wallet_fits column _); simpl; [|done].
    by destruct (Columns.walletTransaction_fits column _).
Qed.

(** A debit whose values the columns hold goes through as in
    [WalletService]. *)
Lemma Columns_deductCoins_ok s u w n ty d rt ri md :
  0 < n → wallets s !! u = Some w → isLocked w = false → n ≤ balanceCoins w →
  Columns.wallet_fits column
    (set_balance_spent (balanceCoins w - n) (totalSpent w + n) w) = true →
  column (- n) = true →
  run (Columns.deductCoins column u n ty d rt ri md) s
  = (Ok (balanceCoins w - n), debited s u w n ty d rt ri md).
Proof.
  intros Hn Hw Hl Hb Hfits Hneg. unfold Columns.deductCoins.
  destruct (Z.leb_spec n 0); [lia|].
  unfold Columns.wallet_update, Columns.walletTransaction_create, Columns.walletTransaction_fits.
  unfold_async. simpl. rewrite Hw. simpl. rewrite Hl.
  destruct (Z.ltb_spec (balanceCoins w) n); [lia|]. rewrite Hw. simpl. rewrite Hfits. simpl.
  rewrite Hneg. simpl.
  assert (column (balanceCoins w - n) = true) as ->.
  { unfold Columns.wallet_fits in Hfits. simpl in Hfits.
    by apply andb_true_iff in Hfits as [Hfits%andb_true_iff _]; destruct Hfits. }
  done.
Qed.

(** A credit whose new balance the column does not hold is refused by the
    store and rolled back. *)
Lemma Columns_addCoins_refused s u w n ty d rt ri md :
  0 < n → wallets s !! u = Some w → column (balanceCoins w + n) = false →
  run (Columns.addCoins column u n ty d rt ri md) s = (Err STORE_VALIDATION, s).
Proof.
  intros Hn Hw Hfull. unfold Columns.addCoins. destruct (Z.leb_spec n 0); [lia|].
  unfold Columns.wallet_update, Columns.wallet_fits. unfold_async. simpl.
  rewrite Hw. simpl. rewrite Hw. simpl. by rewrite Hfull.
Qed.

(** A transfer over a column type is the debit followed, when the debit
    succeeds, by the credit, each committed by its own transaction. *)
Lemma Columns_transferCoins_run now rnd from to n d s :
  from ≠ to → 0 < n →
  run (Columns.transferCoins column now rnd from to n d) s =
  match run (Columns.deductCoins column from n GIFT_SENT d (Some "peer_transfer")
                                 (Some (transferId_of now rnd)) None) s with
  | (Err e, s1) => (Err e, s1)
  | (Ok _, s1) =>
      match run (Columns.addCoins column to n GIFT_RECEIVED d (Some "peer_transfer")
                                  (Some (transferId_of now rnd)) None) s1 with
      | (Err e, s2) => (Err e, s2)
      | (Ok _, s2) => (Ok "Transfer completed successfully", s2)
      end
  end.
Proof.
  intros Hne Hn. unfold Columns.transferCoins.
  destruct (decide (from = to)); [done|].
  destruct (Z.leb_spec n 0); [lia|].
  unfold run at 1. unfold bind, transaction at 1.
  rewrite Columns_deductCoins_ctx. simpl.
  destruct (run (Columns.deductCoins _ _ _ _ _ _ _ _) s) as [[b|e] s1]; simpl; [|done].
  rewrite Columns_addCoins_ctx. simpl.
  by destruct (run (Columns.addCoins _ _ _ _ _ _ _ _) s1) as [[b'|e] s2].
Qed.

End TransferColumns.

(** With a column type that holds every integer, the methods over a column
    type are those of [WalletService]. *)
Lemma Columns_any_integer now rnd from to n d ty rt ri md (c : Ctx Ledger.Store) :
  Columns.addCoins Columns.any_integer from n ty d rt ri md c
  = WalletService.addCoins from n ty d rt ri md c ∧
  Columns.deductCoins Columns.any_integer from n ty d rt ri md c
  = WalletService.deductCoins from n ty d rt ri md c ∧
  Columns.transferCoins Columns.any_integer now rnd from to n d c
  = WalletService.transferCoins now rnd from to n d c.
Proof. repeat split; reflexivity. Qed.

(** C3 fails on the code. [transferCoins] wraps the debit and the credit in
    [prisma.$transaction], but [deductCoins] and [addCoins] each open a
    transaction of their own on the global client, so the debit is committed
    before the credit starts. Whatever the type of the integer columns: when
    the debit of the sender goes through and the store refuses the new
    balance of the receiver, the transfer fails with the sender debited: n
    coins lower, with a GIFT_SENT row of -n in the ledger, while the
    receiver's wallet is as it was and has no row for the transfer. *)
Theorem transferCoins_debit_without_credit
    (column : Z → bool) (now : Z) (rnd from to : string) (n : Z) (d : string)
    (s : Ledger.Store) (wf wt : Wallet) :
  from ≠ to → 0 < n →
  wallets s !! from = Some wf → isLocked wf = false → n ≤ balanceCoins wf →
  Columns.wallet_fits column
    (set_balance_spent (balanceCoins wf - n) (totalSpent wf + n) wf) = true →
  column (- n) = true →
  wallets s !! to = Some wt → column (balanceCoins wt + n) = false →
  ∃ s',
    run (Columns.transferCoins column now rnd from to n d) s = (Err STORE_VALIDATION, s') ∧
    balance_of s' from = balance_of s from - n ∧
    wallets s' !! to = Some wt ∧
    walletTransactions s'
    = walletTransactions s
      ++ [mkWalletTransaction (w_id wf) GIFT_SENT (- n) (balanceCoins wf - n) d
            (Some "peer_transfer") (Some (WalletService.transferId_of now rnd)) None].
Proof.
  intros Hne Hn Hwf Hl Hb Hfits Hneg Hwt Hfull.
  rewrite Columns_transferCoins_run by done.
  rewrite (Columns_deductCoins_ok column s from wf n) by done.
  rewrite (Columns_addCoins_refused column _ to wt n).
  - eexists. split; [reflexivity|]. split; [|split].
    + rewrite balance_of_debited_same by done. unfold balance_of. by rewrite Hwf.
    + by rewrite wallets_debited_other.
    + done.
  - done.
  - by rewrite wallets_debited_other.
  - done.
Qed.

(** A transfer of 300 coins from A, who holds 1000, to B, whose balance is
    the largest that a signed 32-bit column holds. *)
Lemma transferCoins_debit_without_credit_witness :
  ∃ s',
    run (Columns.transferCoins Columns.int32 0 "r" "A" "B" 300 "thanks") ColumnScenario.B_full
    = (Err STORE_VALIDATION, s') ∧
    balance_of s' "A" = balance_of ColumnScenario.B_full "A" - 300 ∧
    wallets s' !! "B" = Some (mkWallet 1 "B" 2147483647 0 2147483647 false) ∧
    walletTransactions s'
    = walletTransactions ColumnScenario.B_full
      ++ [mkWalletTransaction 0 GIFT_SENT (- 300) (1000 - 300) "thanks"
            (Some "peer_transfer") (Some (WalletService.transferId_of 0 "r")) None].
Proof.
  apply (transferCoins_debit_without_credit Columns.int32 0 "r" "A" "B" 300 "thanks"
           ColumnScenario.B_full
           (mkWallet 0 "A" 1000 0 1000 false)
           (mkWallet 1 "B" 2147483647 0 2147483647 false)).
  - discriminate.
  - lia.
  - vm_compute; reflexivity.
  - reflexivity.
  - simpl; lia.
  - vm_compute; reflexivity.
  - vm_compute; reflexivity.
  - vm_compute; reflexivity.
  - vm_compute; reflexivity.
Defined.

(** A transfer of 300 coins from A, who holds 1000, to B, who has no wallet
    yet: no write is refused. *)
Example transfer_300 :
  ∃ s', run (WalletService.transferCoins 0 "r" "A" "B" 300 "thanks") Scenario.A_1000
        = (Ok "Transfer completed successfully", s') ∧
        balance_of s' "A" = 700 ∧ balance_of s' "B" = 300.
Proof. eexists. split; [vm_compute; reflexivity|]. by vm_compute. Qed.

(** ** The ledger invariant *)

Section LedgerInvariant.
Implicit Types (s : Ledger.Store) (u v : string) (w : Wallet) (n : Z).

Lemma ledger_sum_snoc s row wid :
  ledger_sum (with_walletTransactions (fun rows => rows ++ [row]) s) wid
  = ledger_sum s wid + (if decide (wt_walletId row = wid) then wt_amount row else 0).
Proof.
  unfold ledger_sum, history. simpl. rewrite filter_app, foldr_app.
  generalize (filter (λ r, wt_walletId r = wid) (walletTransactions s)) as l.
  rewrite filter_cons, filter_nil.
  destruct (decide (wt_walletId row = wid)); simpl; intros l; induction l; simpl; lia.
Qed.

Lemma ledger_sum_fresh s wid :
  (∀ row, row ∈ walletTransactions s → (wt_walletId row < wid)%N) →
  ledger_sum s wid = 0.
Proof.
  unfold ledger_sum, history. intros Hrows.
  induction (walletTransactions s) as [|row rows IH]; [done|].
  rewrite filter_cons. destruct (decide (wt_walletId row = wid)) as [Heq|Hne].
  - specialize (Hrows row ltac:(by left)). lia.
  - apply IH. intros r Hr. apply Hrows. by right.
Qed.

(** Posting a row to the wallet of [u] together with the matching change of
    its balance keeps the invariant. *)
Lemma ledger_invariant_post s u w (f : Wallet → Wallet) row :
  ledger_invariant s →
  wallets s !! u = Some w →
  (∀ w0, w_id (f w0) = w_id w0) →
  wt_walletId row = w_id w →
  balanceCoins (f w) = balanceCoins w + wt_amount row →
  0 ≤ balanceCoins (f w) →
  ledger_invariant
    (with_walletTransactions (fun rows => rows ++ [row]) (with_wallets (alter f u) s)).
Proof.
  intros (Hcons & Huniq & Hrows) Hw Hid Hrow Hbal Hpos.
  assert (Hlook : ∀ v w', alter f u (wallets s) !! v = Some w' →
            ∃ w0, wallets s !! v = Some w0 ∧ w_id w' = w_id w0 ∧
                  ((v = u ∧ w0 = w ∧ w' = f w) ∨ (v ≠ u ∧ w' = w0))).
  { intros v w' Hv. destruct (decide (u = v)) as [<-|Hne].
    - rewrite lookup_alter_eq, Hw in Hv. simpl in Hv. simplify_eq.
      exists w. rewrite Hid. split; [done|]. split; [done|]. by left.
    - rewrite lookup_alter_ne in Hv by done. exists w'.
      split; [done|]. split; [done|]. right. by split. }
  split; [|split].
  - intros v w' Hv. simpl in Hv. apply Hlook in Hv as (w0 & Hv0 & Hid0 & Hcase).
    destruct (Hcons v w0 Hv0) as [[Hsum Hnn] Hlt].
    split; [|simpl; lia].
    unfold wallet_consistent. rewrite ledger_sum_snoc.
    change (ledger_sum (with_wallets (alter f u) s) (w_id w'))
      with (ledger_sum s (w_id w')).
    destruct Hcase as [(-> & -> & ->)|(Hne & ->)].
    + rewrite Hid. destruct (decide (wt_walletId row = w_id w)); [|done]. lia.
    + destruct (decide (wt_walletId row = w_id w0)) as [Heq|]; [|lia].
      exfalso. apply Hne. apply (Huniq v u w0 w); congruence.
  - intros v1 v2 w1 w2 H1 H2 Heq. simpl in H1, H2.
    apply Hlook in H1 as (w1' & H1 & Hid1 & _). apply Hlook in H2 as (w2' & H2 & Hid2 & _).
    apply (Huniq v1 v2 w1' w2'); congruence.
  - intros r Hr. simpl in Hr. apply elem_of_app in Hr as [Hr|Hr].
    + by apply Hrows.
    + apply list_elem_of_singleton in Hr as ->. simpl. rewrite Hrow.
      by destruct (Hcons u w Hw).
Qed.

Lemma ledger_invariant_debited s u w n ty d rt ri md :
  ledger_invariant s → wallets s !! u = Some w → n ≤ balanceCoins w →
  ledger_invariant (debited s u w n ty d rt ri md).
Proof.
  intros Hinv Hw Hb. unfold debited.
  apply ledger_invariant_post with w; try done; simpl; lia.
Qed.

Lemma ledger_invariant_credited s u w n ty d rt ri md :
  ledger_invariant s → wallets s !! u = Some w → 0 < n →
  ledger_invariant (credited s u w n ty d rt ri md).
Proof.
  intros Hinv Hw Hn. unfold credited.
  apply ledger_invariant_post with w; try done; simpl.
  destruct Hinv as (Hcons & _). destruct (Hcons u w Hw) as [[_ Hnn] _]. lia.
Qed.

Lemma ledger_invariant_fresh s u :
  ledger_invariant s → wallets s !! u = None →
  ledger_invariant (with_fresh_wallet s u).
Proof.
  intros (Hcons & Huniq & Hrows) Hw. split; [|split].
  - intros v w' Hv. simpl in Hv. destruct (decide (u = v)) as [<-|Hne].
    + rewrite lookup_insert_eq in Hv. simplify_eq. simpl.
      split; [|lia]. split; [|done]. simpl.
      change (ledger_sum (with_fresh_wallet s u) (nextWalletId s))
        with (ledger_sum s (nextWalletId s)).
      symmetry. by apply ledger_sum_fresh.
    + rewrite lookup_insert_ne in Hv by done.
      destruct (Hcons v w' Hv) as [Hc Hlt]. split; [done|simpl; lia].
  - intros v1 v2 w1 w2 H1 H2 Heq. simpl in H1, H2.
    destruct (decide (u = v1)) as [<-|Hne1]; destruct (decide (u = v2)) as [<-|Hne2];
      [done| | |].
    + rewrite lookup_insert_eq in H1. rewrite lookup_insert_ne in H2 by done.
      simplify_eq. destruct (Hcons v2 w2 H2) as [_ Hlt]. simpl in Heq. lia.
    + rewrite lookup_insert_eq in H2. rewrite lookup_insert_ne in H1 by done.
      simplify_eq. destruct (Hcons v1 w1 H1) as [_ Hlt]. simpl in Heq. lia.
    + rewrite lookup_insert_ne in H1, H2 by done. by apply (Huniq v1 v2 w1 w2).
  - intros r Hr. simpl in Hr. apply Hrows in Hr. simpl. lia.
Qed.

Lemma ledger_invariant_empty : ledger_invariant empty_store.
Proof.
  split; [|split].
  - intros u w Hw. simpl in Hw. by rewrite lookup_empty in Hw.
  - intros u v w w' Hw. simpl in Hw. by rewrite lookup_empty in Hw.
  - intros row Hrow. by apply elem_of_nil in Hrow.
Qed.

Lemma ledger_invariant_apply_op s op :
  ledger_invariant s → ledger_invariant (apply_op s op).
Proof.
  intros Hinv. destruct op as [u n ty d rt ri md|u n ty d rt ri md]; simpl.
  - destruct (Z.leb_spec n 0) as [Hn|Hn].
    { by rewrite addCoins_invalid. }
    destruct (wallets s !! u) as [w|] eqn:Hw.
    + rewrite (addCoins_ok_existing _ _ w) by done. by apply ledger_invariant_credited.
    + rewrite addCoins_ok_new by done. simpl.
      apply ledger_invariant_credited; [by apply ledger_invariant_fresh| |done].
      apply wallets_fresh_same.
  - destruct (deductCoins_cases s u n ty d rt ri md)
      as [[e He]|(w & Hw & Hl & Hn & Hb & Hok)].
    + by rewrite He.
    + rewrite Hok. by apply ledger_invariant_debited.
Qed.

Lemma ledger_invariant_apply_ops s ops :
  ledger_invariant s → ledger_invariant (apply_ops s ops).
Proof.
  revert s. induction ops as [|op ops IH]; intros s Hinv; [done|].
  simpl. apply IH. by apply ledger_invariant_apply_op.
Qed.

End LedgerInvariant.

(** C4: every credit and every debit preserves the ledger invariant, and so
    after any sequence of [addCoins] and [deductCoins] calls on the empty
    store (failed calls included), the balance of every wallet is the sum of
    the signed amounts of its ledger rows and is not negative. *)
Theorem ledger_balance_invariant :
  (∀ s op, ledger_invariant s → ledger_invariant (apply_op s op)) ∧
  (∀ ops u w,
     wallets (apply_ops empty_store ops) !! u = Some w →
     balanceCoins w = ledger_sum (apply_ops empty_store ops) (w_id w) ∧ 0 ≤ balanceCoins w).
Proof.
  split.
  - apply ledger_invariant_apply_op.
  - intros ops u w Hw.
    destruct (ledger_invariant_apply_ops empty_store ops ledger_invariant_empty)
      as (Hcons & _).
    by destruct (Hcons u w Hw).
Qed.

(** A credit of 1000, a debit of 300 and a refused debit of 5000. *)
Lemma ledger_balance_invariant_witness :
  ledger_invariant (apply_op empty_store (Credit "A" 1000 DEPOSIT "top-up" None None None)) ∧
  (balanceCoins (mkWallet 0 "A" 700 300 1000 false)
   = ledger_sum (apply_ops empty_store Scenario.three_ops) 0 ∧
   0 ≤ balanceCoins (mkWallet 0 "A" 700 300 1000 false)).
Proof.
  split.
  - apply (proj1 ledger_balance_invariant empty_store). apply ledger_invariant_empty.
  - apply (proj2 ledger_balance_invariant Scenario.three_ops "A"
             (mkWallet 0 "A" 700 300 1000 false)).
    vm_compute; reflexivity.
Defined.

(** ** What a credit and a debit touch *)

Section Frames.
Import WalletService.
Implicit Types (s : Ledger.Store) (u v : string) (w : Wallet) (n : Z).

Lemma addCoins_error s s' u n ty d rt ri md e :
  run (addCoins u n ty d rt ri md) s = (Err e, s') → e = INVALID_AMOUNT ∧ n ≤ 0 ∧ s' = s.
Proof.
  intros Hrun. destruct (Z.leb_spec n 0) as [Hn|Hn].
  - rewrite addCoins_invalid in Hrun by done. by simplify_eq.
  - destruct (addCoins_succeeds s u n ty d rt ri md Hn) as (b & s2 & Hok). congruence.
Qed.

Lemma deductCoins_error s s' u n ty d rt ri md e :
  run (deductCoins u n ty d rt ri md) s = (Err e, s') →
  s' = s ∧ (e = INVALID_AMOUNT ∨ e = WALLET_NOT_FOUND ∨ e = WALLET_LOCKED ∨
            ∃ required available, e = INSUFFICIENT_BALANCE required available).
Proof.
  intros Hrun. destruct (Z.leb_spec n 0) as [Hn|Hn].
  { rewrite deductCoins_invalid in Hrun by done. simplify_eq. eauto. }
  destruct (wallets s !! u) as [w|] eqn:Hw.
  2: { rewrite deductCoins_not_found in Hrun by done. simplify_eq. eauto. }
  destruct (isLocked w) eqn:Hl.
  { rewrite (deductCoins_locked _ _ w) in Hrun by done. simplify_eq. eauto. }
  destruct (Z.ltb_spec (balanceCoins w) n) as [Hb|Hb].
  { rewrite (deductCoins_insufficient _ _ w) in Hrun by done. simplify_eq. eauto 10. }
  rewrite (deductCoins_ok _ _ w) in Hrun by done. simplify_eq.
Qed.

(** The ledger row appended by a successful credit. *)
Lemma addCoins_ledger s s' u n ty d rt ri md b :
  run (addCoins u n ty d rt ri md) s = (Ok b, s') →
  ∃ wid, walletTransactions s'
         = walletTransactions s ++ [mkWalletTransaction wid ty n b d rt ri md].
Proof.
  intros Hrun. destruct (Z.leb_spec n 0) as [Hn|Hn].
  { by rewrite addCoins_invalid in Hrun. }
  destruct (wallets s !! u) as [w|] eqn:Hw.
  - rewrite (addCoins_ok_existing _ _ w) in Hrun by done. simplify_eq. by eexists.
  - rewrite addCoins_ok_new in Hrun by done. simplify_eq. by eexists.
Qed.

Lemma addCoins_catalog s u n ty d rt ri md :
  same_catalog s (snd (run (addCoins u n ty d rt ri md) s)).
Proof.
  destruct (Z.leb_spec n 0) as [Hn|Hn].
  { by rewrite addCoins_invalid. }
  destruct (wallets s !! u) as [w|] eqn:Hw.
  - by rewrite (addCoins_ok_existing _ _ w).
  - by rewrite addCoins_ok_new.
Qed.

Lemma deductCoins_catalog s u n ty d rt ri md :
  same_catalog s (snd (run (deductCoins u n ty d rt ri md) s)).
Proof.
  destruct (deductCoins_cases s u n ty d rt ri md) as [[e He]|(w & _ & _ & _ & _ & Hok)].
  - by rewrite He.
  - by rewrite Hok.
Qed.

End Frames.

(** ** The payment webhook *)

Section Webhook.
Import WalletService StripeService.
Implicit Types (s : Ledger.Store) (n : Z).

(** With a user id and a coin amount in the metadata and a payment record to
    update, the handler is the credit, followed when the credit succeeds by
    the commit of the status update. The status that the record had plays no
    part. *)
Lemma handlePaymentSuccess_run now paymentIntent s u coins n p :
  metadata_userId paymentIntent = Some u → Js.truthy_string u = true →
  metadata_coins paymentIntent = Some coins → Js.parseInt coins = Some n →
  stripePayments s !! pi_id paymentIntent = Some p →
  run (handlePaymentSuccess now paymentIntent) s =
  match run (addCoins u n DEPOSIT (deposit_description paymentIntent) (Some "stripe_payment")
                      (Some (pi_id paymentIntent)) (deposit_metadata paymentIntent)) s with
  | (Ok _, s1) =>
      (Ok tt, with_stripePayments
                (alter (set_status_completedAt SUCCEEDED (Some now)) (pi_id paymentIntent)) s1)
  | (Err e, s1) => (Err e, s1)
  end.
Proof.
  intros Hu Htu Hc Hn Hp. unfold handlePaymentSuccess. rewrite Hu, Hc, Htu.
  assert (Htc : Js.truthy_string coins = true) by (by destruct coins).
  rewrite Htc. simpl. rewrite Hn.
  unfold run at 1. unfold transaction at 1. unfold bind at 1. unfold bind at 1.
  unfold stripePayment_update, bind, read, write, seen, view. simpl. rewrite Hp.
  rewrite addCoins_ctx. simpl.
  by destruct (run (addCoins _ _ _ _ _ _ _) s) as [[b|e] s1].
Qed.

(** One delivery: the wallet is credited and a DEPOSIT row appended, whatever
    the status of the payment record was. *)
Lemma handlePaymentSuccess_credits now paymentIntent s u coins n p :
  metadata_userId paymentIntent = Some u → Js.truthy_string u = true →
  metadata_coins paymentIntent = Some coins → Js.parseInt coins = Some n → 0 < n →
  stripePayments s !! pi_id paymentIntent = Some p →
  ∃ s1 row,
    run (handlePaymentSuccess now paymentIntent) s = (Ok tt, s1) ∧
    balance_of s1 u = balance_of s u + n ∧
    walletTransactions s1 = walletTransactions s ++ [row] ∧
    wt_amount row = n ∧ wt_type row = DEPOSIT ∧ referenceId row = Some (pi_id paymentIntent) ∧
    stripePayments s1 !! pi_id paymentIntent
    = Some (set_status_completedAt SUCCEEDED (Some now) p).
Proof.
  intros Hu Htu Hc Hn Hpos Hp.
  rewrite (handlePaymentSuccess_run now paymentIntent s u coins n p) by done.
  pose proof (addCoins_catalog s u n DEPOSIT (deposit_description paymentIntent)
                (Some "stripe_payment") (Some (pi_id paymentIntent))
                (deposit_metadata paymentIntent)) as (_ & _ & _ & Hsp).
  destruct (addCoins_succeeds s u n DEPOSIT (deposit_description paymentIntent)
              (Some "stripe_payment") (Some (pi_id paymentIntent))
              (deposit_metadata paymentIntent) Hpos) as (b & s1 & Hadd).
  rewrite Hadd in Hsp |- *. simpl in Hsp.
  destruct (addCoins_ledger _ _ _ _ _ _ _ _ _ _ Hadd) as (wid & Hrows).
  apply addCoins_balance in Hadd as (Hbal & _ & _).
  eexists _, _. split; [done|]. split; [exact Hbal|]. split; [exact Hrows|].
  split; [done|]. split; [done|]. split; [done|].
  simpl. by rewrite lookup_alter_eq, Hsp, Hp.
Qed.

End Webhook.

(** C1, as stated, fails: the success event of the pending top-up of 500
    coins, delivered twice, credits the wallet twice. After the first delivery
    the balance is 500 with one ledger row and the payment record is
    SUCCEEDED; after the second the balance is 1000 with two ledger rows. *)
Lemma webhook_redelivery_counterexample :
  let once := snd (run (StripeService.handlePaymentSuccess 1000 Scenario.payment_event)
                       Scenario.payment_pending) in
  let twice := snd (run (StripeService.handlePaymentSuccess 2000 Scenario.payment_event)
                        once) in
  (sp_status <$> stripePayments once !! "pi_1") = Some SUCCEEDED ∧
  balance_of once "A" = 500 ∧ length (walletTransactions once) = 1%nat ∧
  balance_of twice "A" = 1000 ∧ length (walletTransactions twice) = 2%nat ∧
  balance_of twice "A" ≠ balance_of once "A" ∧
  walletTransactions twice ≠ walletTransactions once.
Proof.
  vm_compute. repeat split; discriminate.
Qed.

(** C1 (amended): the handler does not consult the status of the payment
    record. Every delivery of a success event whose metadata carries a user
    id and a positive coin amount, and whose payment record exists, adds the
    coins to the wallet and appends one DEPOSIT row; two deliveries of the
    same event leave the balance higher by twice the amount, with two rows. *)
Theorem webhook_redelivery_credits_again
    (now1 now2 : Z) (paymentIntent : StripeService.PaymentIntent)
    (s : Ledger.Store) (u coins : string) (n : Z) (p : StripePayment) :
  StripeService.metadata_userId paymentIntent = Some u → Js.truthy_string u = true →
  StripeService.metadata_coins paymentIntent = Some coins → Js.parseInt coins = Some n →
  0 < n →
  stripePayments s !! StripeService.pi_id paymentIntent = Some p →
  ∃ s1 s2 row1 row2,
    run (StripeService.handlePaymentSuccess now1 paymentIntent) s = (Ok tt, s1) ∧
    run (StripeService.handlePaymentSuccess now2 paymentIntent) s1 = (Ok tt, s2) ∧
    (sp_status <$> stripePayments s1 !! StripeService.pi_id paymentIntent) = Some SUCCEEDED ∧
    balance_of s1 u = balance_of s u + n ∧
    balance_of s2 u = balance_of s u + 2 * n ∧
    walletTransactions s2 = walletTransactions s ++ [row1; row2] ∧
    wt_amount row1 = n ∧ wt_amount row2 = n ∧
    wt_type row1 = DEPOSIT ∧ wt_type row2 = DEPOSIT.
Proof.
  intros Hu Htu Hc Hn Hpos Hp.
  destruct (handlePaymentSuccess_credits now1 paymentIntent s u coins n p)
    as (s1 & row1 & Hrun1 & Hbal1 & Hrows1 & Ham1 & Hty1 & _ & Hp1); try done.
  destruct (handlePaymentSuccess_credits now2 paymentIntent s1 u coins n _
              Hu Htu Hc Hn Hpos Hp1)
    as (s2 & row2 & Hrun2 & Hbal2 & Hrows2 & Ham2 & Hty2 & _ & _).
  exists s1, s2, row1, row2.
  split; [done|]. split; [done|]. split; [by rewrite Hp1|].
  split; [done|]. split; [lia|].
  split; [by rewrite Hrows2, Hrows1, <- app_assoc|]. done.
Qed.

Lemma webhook_redelivery_credits_again_witness :
  ∃ s1 s2 row1 row2,
    run (StripeService.handlePaymentSuccess 1000 Scenario.payment_event)
        Scenario.payment_pending = (Ok tt, s1) ∧
    run (StripeService.handlePaymentSuccess 2000 Scenario.payment_event) s1 = (Ok tt, s2) ∧
    (sp_status <$> stripePayments s1 !! "pi_1") = Some SUCCEEDED ∧
    balance_of s1 "A" = balance_of Scenario.payment_pending "A" + 500 ∧
    balance_of s2 "A" = balance_of Scenario.payment_pending "A" + 2 * 500 ∧
    walletTransactions s2 = walletTransactions Scenario.payment_pending ++ [row1; row2] ∧
    wt_amount row1 = 500 ∧ wt_amount row2 = 500 ∧
    wt_type row1 = DEPOSIT ∧ wt_type row2 = DEPOSIT.
Proof.
  apply (webhook_redelivery_credits_again 1000 2000 Scenario.payment_event
           Scenario.payment_pending "A" "500" 500 (mkStripePayment "A" 500 500 PENDING None));
    [reflexivity | reflexivity | reflexivity | reflexivity | lia | vm_compute; reflexivity].
Defined.

(** ** Gift sending *)

Section Gift.
Import WalletService GiftService.
Implicit Types (s : Ledger.Store) (req : SendGiftRequest) (g : GiftType).

(** Once the checks have passed, [sendGift] is the settlement: the
    transaction that wraps it groups only the audit row and the sold-count
    increment. *)
Lemma sendGift_run now rnd req g s :
  gift_checks_pass s req g →
  run (sendGift now rnd req) s = gift_settlement now rnd req g s.
Proof.
  intros (Hne & Hq0 & Hq100 & Hg & Hact & Hex & Hstock).
  unfold sendGift, gift_settlement.
  destruct (decide (fromUserId req = toUserId req)); [done|].
  destruct (Z.leb_spec (default 1 (quantity req)) 0); [lia|].
  destruct (Z.ltb_spec 100 (default 1 (quantity req))); [lia|].
  simpl orb. cbv iota.
  unfold run at 1. unfold bind at 1. unfold giftType_findUnique, read at 1.
  cbn [seen committed]. rewrite Hg, Hact, Hex, Hstock. cbn [negb].
  unfold bind at 1. unfold giftMarketplace_findUnique, read at 1.
  cbn [seen committed].
  destruct (fee (priceCoins g * default 1 (quantity req)) socialWalletFeeRate) as [swf|];
    [|by destruct (fee _ (platformFeeRate_of _))].
  destruct (fee (priceCoins g * default 1 (quantity req))
              (platformFeeRate_of (giftMarketplaces s !! platformId req))) as [pf|].
  - unfold bind at 1. unfold transaction at 1. unfold bind at 1.
    rewrite deductCoins_ctx. cbn [committed pending fst snd].
    pose proof (deductCoins_catalog s (fromUserId req)
                  (priceCoins g * default 1 (quantity req) + swf) GIFT_SENT
                  (sent_description (default 1 (quantity req)) g)
                  (Some "gift_transaction") (Some (transactionId_of now rnd)) None)
      as (Hgt1 & _).
    destruct (run (deductCoins _ _ _ _ _ _ _) s) as [[b|e] s1]; simpl; [|done].
    simpl in Hgt1.
    unfold bind at 1. rewrite addCoins_ctx. cbn [committed pending fst snd].
    pose proof (addCoins_catalog s1 (toUserId req)
                  (priceCoins g * default 1 (quantity req) - pf - swf) GIFT_RECEIVED
                  (received_description (default 1 (quantity req)) g)
                  (Some "gift_transaction") (Some (transactionId_of now rnd)) None)
      as (Hgt2 & _).
    destruct (run (addCoins _ _ _ _ _ _ _) s1) as [[b'|e] s2]; simpl; [|done].
    simpl in Hgt2.
    unfold gift_recorded. destruct (isLimited g); [|done].
    unfold_async. simpl. by rewrite Hgt2, Hgt1, Hg.
  - unfold transaction at 1. unfold bind at 1.
    rewrite deductCoins_ctx. cbn [committed pending fst snd].
    destruct (run (deductCoins _ _ _ _ _ _ _) s) as [[b|e] s1]; simpl; [|done].
    by destruct (PrimFloat.ltb _ _).
Qed.

(** Every call either passes the checks and is the settlement, or is refused
    by one of the checks with the store left as it was. *)
Lemma sendGift_cases now rnd req s :
  (∃ g, gift_checks_pass s req g ∧
        run (sendGift now rnd req) s = gift_settlement now rnd req g s) ∨
  (∃ e, run (sendGift now rnd req) s = (Err e, s) ∧
        (e = INVALID_RECIPIENT ∨ e = INVALID_QUANTITY ∨ e = GIFT_NOT_FOUND ∨
         e = GIFT_NOT_AVAILABLE ∨
         ∃ g, giftTypes s !! giftTypeId req = Some g ∧ stock_is_capped g = true ∧
              e = INSUFFICIENT_QUANTITY (available_stock g) (default 1 (quantity req)))).
Proof.
  destruct (decide (fromUserId req = toUserId req)) as [Heq|Hne].
  { right. exists INVALID_RECIPIENT. split; [|by left].
    unfold sendGift. by destruct (decide (fromUserId req = toUserId req)). }
  destruct (Z.leb_spec (default 1 (quantity req)) 0) as [Hq0|Hq0].
  { right. exists INVALID_QUANTITY. split; [|by right; left].
    unfold sendGift. destruct (decide (fromUserId req = toUserId req)); [done|].
    by destruct (Z.leb_spec (default 1 (quantity req)) 0); [|lia]. }
  destruct (Z.ltb_spec 100 (default 1 (quantity req))) as [Hq100|Hq100].
  { right. exists INVALID_QUANTITY. split; [|by right; left].
    unfold sendGift. destruct (decide (fromUserId req = toUserId req)); [done|].
    destruct (Z.leb_spec (default 1 (quantity req)) 0); [lia|].
    by destruct (Z.ltb_spec 100 (default 1 (quantity req))); [|lia]. }
  assert (Hhead : ∀ e,
    (match giftTypes s !! giftTypeId req with
     | None => e = GIFT_NOT_FOUND
     | Some g =>
         if negb (isActive g) then e = GIFT_NOT_FOUND
         else if exclusive_elsewhere g (platformId req) then e = GIFT_NOT_AVAILABLE
         else if stock_is_capped g && (available_stock g <? default 1 (quantity req))
         then e = INSUFFICIENT_QUANTITY (available_stock g) (default 1 (quantity req))
         else False
     end) → run (sendGift now rnd req) s = (Err e, s)).
  { intros e He. unfold sendGift.
    destruct (decide (fromUserId req = toUserId req)); [done|].
    destruct (Z.leb_spec (default 1 (quantity req)) 0); [lia|].
    destruct (Z.ltb_spec 100 (default 1 (quantity req))); [lia|].
    cbn [orb]. unfold run, bind, giftType_findUnique, read. cbn [seen committed].
    destruct (giftTypes s !! giftTypeId req) as [g|]; [|by subst].
    destruct (negb (isActive g)); [by subst|].
    destruct (exclusive_elsewhere g (platformId req)); [by subst|].
    destruct (stock_is_capped g && (available_stock g <? default 1 (quantity req)));
      [by subst|done]. }
  destruct (giftTypes s !! giftTypeId req) as [g|] eqn:Hg.
  2: { right. exists GIFT_NOT_FOUND. split; [by apply Hhead|]. by right; right; left. }
  destruct (isActive g) eqn:Hact.
  2: { right. exists GIFT_NOT_FOUND. split; [by apply Hhead|]. by right; right; left. }
  destruct (exclusive_elsewhere g (platformId req)) eqn:Hex.
  { right. exists GIFT_NOT_AVAILABLE. split; [by apply Hhead|]. by right; right; right; left. }
  destruct (stock_is_capped g && (available_stock g <? default 1 (quantity req))) eqn:Hstock.
  { right. exists (INSUFFICIENT_QUANTITY (available_stock g) (default 1 (quantity req))).
    split; [by apply Hhead|]. do 4 right. exists g.
    apply andb_true_iff in Hstock as [Hcap _]. done. }
  left. exists g. assert (Hpass : gift_checks_pass s req g).
  { repeat split; try done; lia. }
  split; [done|]. by apply sendGift_run.
Qed.

(** The settlement never reports a shortage of stock. *)
Lemma gift_settlement_error now rnd req g s e s' :
  gift_settlement now rnd req g s = (Err e, s') →
  ∀ available requested, e ≠ INSUFFICIENT_QUANTITY available requested.
Proof.
  unfold gift_settlement. intros Hs a r ->.
  destruct (fee _ socialWalletFeeRate) as [swf|]; [|done].
  destruct (run (deductCoins _ _ _ _ _ _ _) s) as [[b|e] s1] eqn:Hd.
  2: { simplify_eq. apply deductCoins_error in Hd as (_ & [?|[?|[?|(? & ? & ?)]]]); done. }
  destruct (fee _ (platformFeeRate_of _)) as [pf|].
  2: { by destruct (PrimFloat.ltb _ _). }
  destruct (run (addCoins _ _ _ _ _ _ _) s1) as [[b'|e] s2] eqn:Ha; [done|].
  simplify_eq. by apply addCoins_error in Ha as (? & _).
Qed.

(** A successful settlement went through each of its steps. *)
Lemma gift_settlement_ok now rnd req g s res s' :
  gift_settlement now rnd req g s = (Ok res, s') →
  let q := default 1 (quantity req) in
  let total := priceCoins g * q in
  ∃ pf swf b1 s1 b2 s2,
    fee total (platformFeeRate_of (giftMarketplaces s !! platformId req)) = Some pf ∧
    fee total socialWalletFeeRate = Some swf ∧
    run (deductCoins (fromUserId req) (total + swf) GIFT_SENT (sent_description q g)
           (Some "gift_transaction") (Some (transactionId_of now rnd)) None) s = (Ok b1, s1) ∧
    run (addCoins (toUserId req) (total - pf - swf) GIFT_RECEIVED (received_description q g)
           (Some "gift_transaction") (Some (transactionId_of now rnd)) None) s1 = (Ok b2, s2) ∧
    res = mkSendGiftResult (transactionId_of now rnd) (total + swf) pf swf ∧
    s' = gift_recorded req g (transactionId_of now rnd) pf swf s2.
Proof.
  unfold gift_settlement. intros Hs. cbv zeta.
  destruct (fee _ socialWalletFeeRate) as [swf|]; [|done].
  destruct (run (deductCoins _ _ _ _ _ _ _) s) as [[b1|e] s1] eqn:Hd; [|done].
  destruct (fee _ (platformFeeRate_of _)) as [pf|]; [|done].
  destruct (run (addCoins _ _ _ _ _ _ _) s1) as [[b2|e] s2] eqn:Ha; [|done].
  simplify_eq. by exists pf, swf, b1, s1, b2, s2.
Qed.

Lemma wallets_gift_recorded req g tid pf swf s :
  wallets (gift_recorded req g tid pf swf s) = wallets s.
Proof. unfold gift_recorded. by destruct (isLimited g). Qed.

End Gift.

(** C6, as stated, fails for a stored revenue share of 0 (a disabled
    marketplace): the rate falls back to 0.1. One rose of 100 coins on
    platform Y is charged a platform fee of 10, not round(100 x 0) = 0, and
    the receiver is credited 88, not 98. *)
Lemma sendGift_zero_share_counterexample :
  (revenueShare <$> giftMarketplaces Scenario.gift_shop !! "platform_y") = Some 0x0p+0%float ∧
  GiftService.fee (100 * 1) 0x0p+0%float = Some 0 ∧
  ∃ res s',
    run (GiftService.sendGift 0 "00" Scenario.rose_on_y) Scenario.gift_shop = (Ok res, s') ∧
    GiftService.platformFee res = 10 ∧ GiftService.platformFee res ≠ 0 ∧
    balance_of s' "B" = 88 ∧ balance_of s' "B" ≠ 100 - 0 - 2.
Proof.
  split; [vm_compute; reflexivity|]. split; [vm_compute; reflexivity|].
  eexists _, _. split; [vm_compute; reflexivity|].
  vm_compute. repeat split; discriminate.
Qed.

(** C6 (amended): for every successful gift send of a gift with unit price p
    at quantity q, with total = p x q: platform_fee = round(total x r'), where
    r' is the stored revenue share of the platform's marketplace when there is
    one and its share is neither 0 nor NaN, and 0.1 otherwise;
    social_wallet_fee = round(total x 0.015); the sender's balance falls by
    total + social_wallet_fee and the receiver's rises by
    total - platform_fee - social_wallet_fee. For p = 100, r = 0.1, q = 2 the
    fees are 20 and 3, the debit 203 and the credit 177. *)
Theorem sendGift_fees :
  (∀ now rnd req s res s',
     run (GiftService.sendGift now rnd req) s = (Ok res, s') →
     ∃ g pf swf,
       let q := default 1 (GiftService.quantity req) in
       let total := priceCoins g * q in
       giftTypes s !! GiftService.giftTypeId req = Some g ∧
       GiftService.fee total
         (match giftMarketplaces s !! GiftService.platformId req with
          | Some m => if Js.truthy_number (revenueShare m) then revenueShare m
                      else Js.lit_0_1
          | None => Js.lit_0_1
          end) = Some pf ∧
       GiftService.fee total Js.lit_0_015 = Some swf ∧
       GiftService.platformFee res = pf ∧ GiftService.socialWalletFee res = swf ∧
       GiftService.totalCost res = total + swf ∧
       balance_of s' (GiftService.fromUserId req)
       = balance_of s (GiftService.fromUserId req) - (total + swf) ∧
       balance_of s' (GiftService.toUserId req)
       = balance_of s (GiftService.toUserId req) + (total - pf - swf)) ∧
  (GiftService.fee (100 * 2) Js.lit_0_1 = Some 20 ∧
   GiftService.fee (100 * 2) Js.lit_0_015 = Some 3 ∧
   100 * 2 + 3 = 203 ∧ 100 * 2 - 20 - 3 = 177).
Proof.
  split; [|by vm_compute].
  intros now rnd req s res s' Hrun.
  destruct (sendGift_cases now rnd req s) as [(g & Hpass & Hset)|(e & He & _)];
    [|congruence].
  rewrite Hset in Hrun.
  apply gift_settlement_ok in Hrun
    as (pf & swf & b1 & s1 & b2 & s2 & Hpf & Hswf & Hd & Ha & -> & ->).
  destruct Hpass as (Hne & _ & _ & Hg & _).
  exists g, pf, swf. cbv zeta.
  split; [done|]. split; [exact Hpf|]. split; [exact Hswf|].
  split; [done|]. split; [done|]. split; [done|].
  destruct (deductCoins_cases s (GiftService.fromUserId req)
              (priceCoins g * default 1 (GiftService.quantity req) + swf) GIFT_SENT
              (GiftService.sent_description (default 1 (GiftService.quantity req)) g)
              (Some "gift_transaction") (Some (GiftService.transactionId_of now rnd)) None)
    as [[e He]|(w & Hw & _ & _ & _ & Hok)]; [congruence|].
  rewrite Hok in Hd. simplify_eq.
  apply addCoins_balance in Ha as (Hto & _ & Hother).
  unfold balance_of at 1 3. rewrite !wallets_gift_recorded. split.
  - rewrite Hother by done. unfold debited. simpl.
    rewrite lookup_alter_eq, Hw. simpl. unfold balance_of. by rewrite Hw.
  - fold (balance_of s2 (GiftService.toUserId req)). rewrite Hto.
    unfold balance_of at 1. by rewrite wallets_debited_other.
Qed.

(** The scenario of the specification, run on a wallet of 1000 coins. *)
Example sendGift_two_roses :
  ∃ s',
    run (GiftService.sendGift 0 "00" Scenario.two_roses) Scenario.gift_shop
    = (Ok (GiftService.mkSendGiftResult "gift_0_00" 203 20 3), s') ∧
    balance_of Scenario.gift_shop "A" = 1000 ∧ balance_of s' "A" = 797 ∧
    balance_of Scenario.gift_shop "B" = 0 ∧ balance_of s' "B" = 177.
Proof. eexists. split; [vm_compute; reflexivity|]. by vm_compute. Qed.

Lemma sendGift_fees_witness :
  let s := Scenario.gift_shop in
  let req := Scenario.two_roses in
  let res := GiftService.mkSendGiftResult "gift_0_00" 203 20 3 in
  let s' := snd (run (GiftService.sendGift 0 "00" req) s) in
  ∃ g pf swf,
    let q := default 1 (GiftService.quantity req) in
    let total := priceCoins g * q in
    giftTypes s !! GiftService.giftTypeId req = Some g ∧
    GiftService.fee total
      (match giftMarketplaces s !! GiftService.platformId req with
       | Some m => if Js.truthy_number (revenueShare m) then revenueShare m
                   else Js.lit_0_1
       | None => Js.lit_0_1
       end) = Some pf ∧
    GiftService.fee total Js.lit_0_015 = Some swf ∧
    GiftService.platformFee res = pf ∧ GiftService.socialWalletFee res = swf ∧
    GiftService.totalCost res = total + swf ∧
    balance_of s' (GiftService.fromUserId req)
    = balance_of s (GiftService.fromUserId req) - (total + swf) ∧
    balance_of s' (GiftService.toUserId req)
    = balance_of s (GiftService.toUserId req) + (total - pf - swf).
Proof.
  intros s req res s'.
  apply (proj1 sendGift_fees 0 "00" req s res s').
  vm_compute; reflexivity.
Defined.

(** C10: for a gift type flagged limited but without a cap, [sendGift] never
    fails with INSUFFICIENT_QUANTITY, whatever the quantity sold already; and
    a send of such a gift type does succeed, whatever the quantity sold
    already, when the request passes the other checks, the fees are numbers,
    the sender's unlocked wallet holds the total cost and the receiver's
    share is positive. Whenever it succeeds, the sold quantity of the gift
    type is higher by the quantity sent. *)
Theorem sendGift_limited_without_cap
    (now : Z) (rnd : string) (req : GiftService.SendGiftRequest)
    (s : Ledger.Store) (g : GiftType) :
  giftTypes s !! GiftService.giftTypeId req = Some g →
  isLimited g = true → maxQuantity g = None →
  (∀ available requested,
     fst (run (GiftService.sendGift now rnd req) s)
     ≠ Err (INSUFFICIENT_QUANTITY available requested)) ∧
  (∀ res s',
     run (GiftService.sendGift now rnd req) s = (Ok res, s') →
     ∃ g', giftTypes s' !! GiftService.giftTypeId req = Some g' ∧
           soldQuantity g' = soldQuantity g + default 1 (GiftService.quantity req)) ∧
  (∀ wf pf swf,
     let q := default 1 (GiftService.quantity req) in
     let total := priceCoins g * q in
     GiftService.fromUserId req ≠ GiftService.toUserId req →
     0 < q → q ≤ 100 → isActive g = true →
     GiftService.exclusive_elsewhere g (GiftService.platformId req) = false →
     GiftService.fee total
       (GiftService.platformFeeRate_of (giftMarketplaces s !! GiftService.platformId req))
     = Some pf →
     GiftService.fee total GiftService.socialWalletFeeRate = Some swf →
     wallets s !! GiftService.fromUserId req = Some wf → isLocked wf = false →
     0 < total + swf → total + swf ≤ balanceCoins wf → 0 < total - pf - swf →
     ∃ s',
       run (GiftService.sendGift now rnd req) s
       = (Ok (GiftService.mkSendGiftResult (GiftService.transactionId_of now rnd)
                (total + swf) pf swf), s') ∧
       giftTypes s' !! GiftService.giftTypeId req
       = Some (mkGiftType (gt_name g) (gt_platformId g) (priceCoins g) (isActive g) true None
                          (soldQuantity g + q))).
Proof.
  intros Hg Hlim Hmax.
  assert (∀ s1 s2 pf swf,
            giftTypes s1 = giftTypes s → giftTypes s2 = giftTypes s1 →
            giftTypes (gift_recorded req g (GiftService.transactionId_of now rnd) pf swf s2)
              !! GiftService.giftTypeId req
            = Some (increment_soldQuantity (default 1 (GiftService.quantity req)) g))
    as Hrecorded.
  { intros s1 s2 pf swf Hgt1 Hgt2. unfold gift_recorded. rewrite Hlim. simpl.
    by rewrite lookup_alter_eq, Hgt2, Hgt1, Hg. }
  split; [|split].
  - destruct (sendGift_cases now rnd req s) as [(g0 & Hpass & Hset)|(e & He & Hkind)].
    + assert (g0 = g) as -> by (destruct Hpass as (_ & _ & _ & Hg0 & _); congruence).
      intros a r Hfst. rewrite Hset in Hfst.
      destruct (gift_settlement now rnd req g s) as [[res|e] s'] eqn:Hs; [done|].
      simpl in Hfst. simplify_eq. by eapply gift_settlement_error.
    + intros a r Hfst. rewrite He in Hfst. simpl in Hfst. simplify_eq.
      destruct Hkind as [?|[?|[?|[?|(g0 & Hg0 & Hcap & _)]]]]; try done.
      assert (g0 = g) as -> by congruence.
      unfold GiftService.stock_is_capped in Hcap. by rewrite Hlim, Hmax in Hcap.
  - destruct (sendGift_cases now rnd req s) as [(g0 & Hpass & Hset)|(e & He & Hkind)];
      [|intros res s' Hrun; congruence].
    assert (g0 = g) as -> by (destruct Hpass as (_ & _ & _ & Hg0 & _); congruence).
    intros res s' Hrun. rewrite Hset in Hrun.
    apply gift_settlement_ok in Hrun
      as (pf & swf & b1 & s1 & b2 & s2 & _ & _ & Hd & Ha & _ & ->).
    pose proof (deductCoins_catalog s (GiftService.fromUserId req)
                  (priceCoins g * default 1 (GiftService.quantity req) + swf) GIFT_SENT
                  (GiftService.sent_description (default 1 (GiftService.quantity req)) g)
                  (Some "gift_transaction") (Some (GiftService.transactionId_of now rnd))
                  None) as (Hgt1 & _).
    rewrite Hd in Hgt1. simpl in Hgt1.
    pose proof (addCoins_catalog s1 (GiftService.toUserId req)
                  (priceCoins g * default 1 (GiftService.quantity req) - pf - swf)
                  GIFT_RECEIVED
                  (GiftService.received_description (default 1 (GiftService.quantity req)) g)
                  (Some "gift_transaction") (Some (GiftService.transactionId_of now rnd))
                  None) as (Hgt2 & _).
    rewrite Ha in Hgt2. simpl in Hgt2.
    exists (increment_soldQuantity (default 1 (GiftService.quantity req)) g).
    split; [|done]. by apply (Hrecorded s1 s2).
  - intros wf pf swf q total Hne Hq Hq' Hact Hexcl Hpf Hswf Hwf Hl Hpos Hb Hshare.
    assert (gift_checks_pass s req g) as Hpass.
    { unfold gift_checks_pass. fold q. repeat split; try done.
      unfold GiftService.stock_is_capped. by rewrite Hlim, Hmax. }
    rewrite (sendGift_run now rnd req g s Hpass). unfold gift_settlement.
    fold q. fold total. rewrite Hswf.
    rewrite (deductCoins_ok s (GiftService.fromUserId req) wf (total + swf)) by done.
    rewrite Hpf.
    pose proof (deductCoins_catalog s (GiftService.fromUserId req) (total + swf) GIFT_SENT
                  (GiftService.sent_description q g)
                  (Some "gift_transaction") (Some (GiftService.transactionId_of now rnd))
                  None) as (Hgt1 & _).
    rewrite (deductCoins_ok s (GiftService.fromUserId req) wf (total + swf)) in Hgt1 by done.
    simpl in Hgt1.
    set (s1 := debited s (GiftService.fromUserId req) wf (total + swf) GIFT_SENT
                 (GiftService.sent_description q g) (Some "gift_transaction")
                 (Some (GiftService.transactionId_of now rnd)) None) in *.
    destruct (addCoins_succeeds s1 (GiftService.toUserId req) (total - pf - swf) GIFT_RECEIVED
                (GiftService.received_description q g) (Some "gift_transaction")
                (Some (GiftService.transactionId_of now rnd)) None Hshare) as (b2 & s2 & Ha).
    pose proof (addCoins_catalog s1 (GiftService.toUserId req) (total - pf - swf)
                  GIFT_RECEIVED (GiftService.received_description q g)
                  (Some "gift_transaction") (Some (GiftService.transactionId_of now rnd))
                  None) as (Hgt2 & _).
    rewrite Ha in Hgt2. simpl in Hgt2. rewrite Ha.
    eexists. split; [reflexivity|].
    rewrite (Hrecorded s1 s2 pf swf Hgt1 Hgt2).
    unfold increment_soldQuantity. by rewrite Hlim, Hmax.
Qed.

(** Ten crowns, of a limited gift type without a cap: the send succeeds and
    the sold quantity goes from 7 to 17. *)
Example sendGift_ten_crowns :
  ∃ res s',
    run (GiftService.sendGift 0 "00" Scenario.ten_crowns) Scenario.gift_shop = (Ok res, s') ∧
    (soldQuantity <$> giftTypes Scenario.gift_shop !! "crown") = Some 7 ∧
    (soldQuantity <$> giftTypes s' !! "crown") = Some 17.
Proof. eexists _, _. split; [vm_compute; reflexivity|]. by vm_compute. Qed.

Lemma sendGift_limited_without_cap_witness :
  (∀ available requested,
     fst (run (GiftService.sendGift 0 "00" Scenario.ten_crowns) Scenario.gift_shop)
     ≠ Err (INSUFFICIENT_QUANTITY available requested)) ∧
  (∀ res s',
     run (GiftService.sendGift 0 "00" Scenario.ten_crowns) Scenario.gift_shop = (Ok res, s') →
     ∃ g', giftTypes s' !! "crown" = Some g' ∧ soldQuantity g' = 7 + 10) ∧
  (∃ s',
     run (GiftService.sendGift 0 "00" Scenario.ten_crowns) Scenario.gift_shop
     = (Ok (GiftService.mkSendGiftResult "gift_0_00" (50 * 10 + 8) 50 8), s') ∧
     giftTypes s' !! "crown" = Some (mkGiftType "Crown" None 50 true true None (7 + 10))).
Proof.
  destruct (sendGift_limited_without_cap 0 "00" Scenario.ten_crowns Scenario.gift_shop
              (mkGiftType "Crown" None 50 true true None 7)
              ltac:(vm_compute; reflexivity) eq_refl eq_refl) as (Hnever & Hadds & Hsucceeds).
  split; [exact Hnever|]. split; [exact Hadds|].
  apply (Hsucceeds (mkWallet 0 "A" 1000 0 1000 false) 50 8).
  - discriminate.
  - simpl; lia.
  - simpl; lia.
  - reflexivity.
  - reflexivity.
  - vm_compute; reflexivity.
  - vm_compute; reflexivity.
  - vm_compute; reflexivity.
  - reflexivity.
  - simpl; lia.
  - simpl; lia.
  - simpl; lia.
Defined.

(** ** Atomicity of a gift send *)

(** C2 fails on the code. One rose of 100 coins on platform Z (revenue share
    100%): the sender is debited 102 coins in a transaction of its own, then
    the credit of 100 - 100 - 2 = -2 coins is refused with INVALID_AMOUNT.
    The call fails, the debit stays: the sender's balance is 898 with its
    GIFT_SENT row in the ledger, the receiver has no wallet, and there is no
    audit row. *)
Theorem sendGift_debit_without_credit :
  ∃ s',
    run (GiftService.sendGift 0 "00" Scenario.rose_on_z) Scenario.gift_shop
    = (Err INVALID_AMOUNT, s') ∧
    balance_of Scenario.gift_shop "A" = 1000 ∧ balance_of s' "A" = 898 ∧
    (wt_amount <$> last (walletTransactions s')) = Some (-102) ∧
    (wt_type <$> last (walletTransactions s')) = Some GIFT_SENT ∧
    wallets s' !! "B" = None ∧
    giftTransactions s' = [].
Proof. eexists. split; [vm_compute; reflexivity|]. by vm_compute. Qed.

(** In general: when the checks pass and the debit succeeds, a refused credit
    leaves the store as the debit left it. *)
Lemma sendGift_failed_credit_keeps_debit now rnd req g s pf swf b s1 :
  gift_checks_pass s req g →
  let q := default 1 (GiftService.quantity req) in
  let total := priceCoins g * q in
  GiftService.fee total (GiftService.platformFeeRate_of
                           (giftMarketplaces s !! GiftService.platformId req)) = Some pf →
  GiftService.fee total GiftService.socialWalletFeeRate = Some swf →
  run (WalletService.deductCoins (GiftService.fromUserId req) (total + swf) GIFT_SENT
         (GiftService.sent_description q g) (Some "gift_transaction")
         (Some (GiftService.transactionId_of now rnd)) None) s = (Ok b, s1) →
  total - pf - swf ≤ 0 →
  run (GiftService.sendGift now rnd req) s = (Err INVALID_AMOUNT, s1).
Proof.
  intros Hpass q total Hpf Hswf Hd Hle. subst q total.
  rewrite (sendGift_run now rnd req g s Hpass). unfold gift_settlement.
  rewrite Hswf, Hd, Hpf. by rewrite addCoins_invalid.
Qed.

(** ** The authorization-code exchange *)

Section CodeGrant.
Import OAuth.
Implicit Types (s : OAuth.Store) (a : AuthorizationCode) (now : Z).

Lemma grant_unknown s now tok refresh clientId code redirectUri :
  authorizationCodes s !! code = None →
  run (handleAuthorizationCodeGrant now tok refresh clientId code redirectUri) s
  = (Err INVALID_CODE, s).
Proof. intros Hc. unfold handleAuthorizationCodeGrant. unfold_oauth. by rewrite Hc. Qed.

Lemma grant_used s a now tok refresh clientId code redirectUri :
  authorizationCodes s !! code = Some a → used a = true →
  run (handleAuthorizationCodeGrant now tok refresh clientId code redirectUri) s
  = (Err CODE_ALREADY_USED, s).
Proof.
  intros Hc Hu. unfold handleAuthorizationCodeGrant. unfold_oauth. by rewrite Hc, Hu.
Qed.

Lemma grant_expired s a now tok refresh clientId code redirectUri :
  authorizationCodes s !! code = Some a → used a = false → ac_expiresAt a < now →
  run (handleAuthorizationCodeGrant now tok refresh clientId code redirectUri) s
  = (Err CODE_EXPIRED, s).
Proof.
  intros Hc Hu He. unfold handleAuthorizationCodeGrant. unfold_oauth. rewrite Hc, Hu.
  by destruct (Z.ltb_spec (ac_expiresAt a) now); [|lia].
Qed.

(** Every outcome of an exchange: the errors leave the store as it was, and
    the success marks the code used and appends one token. *)
Lemma grant_cases s now tok refresh clientId code redirectUri :
  (∃ e, run (handleAuthorizationCodeGrant now tok refresh clientId code redirectUri) s
        = (Err e, s)) ∨
  (∃ a, authorizationCodes s !! code = Some a ∧ used a = false ∧ now ≤ ac_expiresAt a ∧
        ac_clientId a = clientId ∧ ac_redirectUri a = redirectUri ∧
        pair_taken None tok refresh (accessTokens s) = false ∧
        run (handleAuthorizationCodeGrant now tok refresh clientId code redirectUri) s
        = (Ok (mkTokenResponse tok 3600 refresh (ac_scopes a)),
           with_accessTokens
             (fun rows => rows ++ [mkAccessToken (nextAccessTokenId s) (ac_userId a)
                                     (ac_clientId a) tok refresh (ac_scopes a)
                                     (now + 60 * 60 * 1000)])
             (N.succ (nextAccessTokenId s))
             (with_authorizationCodes (alter (set_used true) code) s))).
Proof.
  destruct (authorizationCodes s !! code) as [a|] eqn:Hc.
  2: { left. eexists. by apply grant_unknown. }
  destruct (used a) eqn:Hu.
  { left. eexists. by apply grant_used with a. }
  destruct (Z.ltb_spec (ac_expiresAt a) now) as [He|He].
  { left. eexists. by apply grant_expired with a. }
  unfold handleAuthorizationCodeGrant. unfold_oauth. rewrite Hc, Hu.
  destruct (Z.ltb_spec (ac_expiresAt a) now); [lia|].
  destruct (bool_decide (ac_clientId a = clientId)) eqn:Hcl; simpl; [|left; by eexists].
  destruct (bool_decide (ac_redirectUri a = redirectUri)) eqn:Hr; simpl; [|left; by eexists].
  rewrite Hc. simpl.
  destruct (pair_taken None tok refresh (accessTokens s)) eqn:Hp; simpl; [left; by eexists|].
  right. exists a. apply bool_decide_eq_true in Hcl, Hr. done.
Qed.

(** No call removes or rewrites a code that is already used. *)
Lemma authorize_keeps_codes s now c params userId code a :
  authorizationCodes s !! code = Some a →
  authorizationCodes (snd (run (initiateAuthorization now c params userId) s)) !! code
  = Some a.
Proof.
  intros Hc. unfold initiateAuthorization. unfold_oauth.
  destruct (List.find _ (apiClients s)) as [client|]; simpl; [|done].
  destruct (bool_decide (p_redirectUri params ∈ callbackUrls client)); simpl; [|done].
  destruct userId as [userId|]; simpl; [|done].
  destruct (Js.truthy_string userId); simpl; [|done].
  destruct (authorizationCodes s !! c) as [a0|] eqn:Hc0; simpl; [done|].
  rewrite lookup_insert_ne; [done|]. intros ->. congruence.
Qed.

Lemma refresh_keeps_codes s now tok refresh clientId old :
  authorizationCodes (snd (run (handleRefreshTokenGrant now tok refresh clientId old) s))
  = authorizationCodes s.
Proof.
  unfold handleRefreshTokenGrant. unfold_oauth.
  destruct (List.find _ (accessTokens s)) as [t|]; simpl; [|done].
  destruct (bool_decide (at_clientId t = clientId)); simpl; [|done].
  destruct (existsb _ (accessTokens s)); simpl; [|done].
  by destruct (pair_taken _ _ _ _).
Qed.

Lemma used_persists_op s op code a :
  authorizationCodes s !! code = Some a → used a = true →
  authorizationCodes (apply_oauth_op s op) !! code = Some a.
Proof.
  intros Hc Hu. destruct op as [now c params userId|now tok refresh clientId c redirectUri
                               |now tok refresh clientId old]; simpl.
  - by apply authorize_keeps_codes.
  - destruct (grant_cases s now tok refresh clientId c redirectUri)
      as [[e He]|(a0 & Hc0 & Hu0 & _ & _ & _ & _ & Hok)].
    + by rewrite He.
    + rewrite Hok. simpl. rewrite lookup_alter_ne; [done|]. intros ->. congruence.
  - by rewrite refresh_keeps_codes.
Qed.

Lemma used_persists s ops code a :
  authorizationCodes s !! code = Some a → used a = true →
  authorizationCodes (apply_oauth_ops s ops) !! code = Some a.
Proof.
  revert s. induction ops as [|op ops IH]; intros s Hc Hu; [done|].
  simpl. apply IH; [|done]. by apply used_persists_op.
Qed.

End CodeGrant.

(** C5: an authorization code is exchanged at most once. A successful
    exchange sets the used flag of the code and creates one access token, in
    one step; a failed exchange changes nothing. After a successful exchange,
    and whatever authorize, exchange and refresh calls follow, every exchange
    of the same code fails with CODE_ALREADY_USED and creates no token. A code
    whose used flag is set or whose expiry is in the past yields no token. *)
Theorem code_exchanged_at_most_once :
  (∀ s now tok refresh clientId code redirectUri resp s',
     run (OAuth.handleAuthorizationCodeGrant now tok refresh clientId code redirectUri) s
     = (Ok resp, s') →
     (∃ a t,
        OAuth.authorizationCodes s !! code = Some a ∧ OAuth.used a = false ∧
        now ≤ OAuth.ac_expiresAt a ∧
        OAuth.authorizationCodes s' !! code = Some (OAuth.set_used true a) ∧
        OAuth.accessTokens s' = OAuth.accessTokens s ++ [t] ∧
        OAuth.token t = tok ∧ OAuth.refreshToken t = refresh ∧
        OAuth.at_scopes t = OAuth.ac_scopes a ∧ OAuth.r_accessToken resp = tok) ∧
     (∀ ops now' tok' refresh' clientId' redirectUri',
        run (OAuth.handleAuthorizationCodeGrant now' tok' refresh' clientId' code redirectUri')
            (apply_oauth_ops s' ops)
        = (Err CODE_ALREADY_USED, apply_oauth_ops s' ops))) ∧
  (∀ s now tok refresh clientId code redirectUri e s',
     run (OAuth.handleAuthorizationCodeGrant now tok refresh clientId code redirectUri) s
     = (Err e, s') → s' = s) ∧
  (∀ s now tok refresh clientId code redirectUri a,
     OAuth.authorizationCodes s !! code = Some a →
     OAuth.used a = true ∨ OAuth.ac_expiresAt a < now →
     ∃ e, run (OAuth.handleAuthorizationCodeGrant now tok refresh clientId code redirectUri) s
          = (Err e, s) ∧ (e = CODE_ALREADY_USED ∨ e = CODE_EXPIRED)).
Proof.
  split; [|split].
  - intros s now tok refresh clientId code redirectUri resp s' Hrun.
    destruct (grant_cases s now tok refresh clientId code redirectUri)
      as [[e He]|(a & Hc & Hu & Hexp & _ & _ & _ & Hok)]; [congruence|].
    rewrite Hok in Hrun. simplify_eq.
    assert (Hc' : OAuth.authorizationCodes
                    (OAuth.with_accessTokens
                       (fun rows => rows ++ [OAuth.mkAccessToken (OAuth.nextAccessTokenId s)
                          (OAuth.ac_userId a) (OAuth.ac_clientId a) tok refresh
                          (OAuth.ac_scopes a) (now + 60 * 60 * 1000)])
                       (N.succ (OAuth.nextAccessTokenId s))
                       (OAuth.with_authorizationCodes
                          (alter (OAuth.set_used true) code) s)) !! code
                  = Some (OAuth.set_used true a)).
    { simpl. by rewrite lookup_alter_eq, Hc. }
    split.
    + eexists a, _. split; [done|]. split; [done|]. split; [done|].
      split; [exact Hc'|]. split; [reflexivity|]. done.
    + intros ops now' tok' refresh' clientId' redirectUri'.
      apply grant_used with (OAuth.set_used true a); [|done].
      by apply used_persists.
  - intros s now tok refresh clientId code redirectUri e s' Hrun.
    destruct (grant_cases s now tok refresh clientId code redirectUri)
      as [[e' He]|(a & _ & _ & _ & _ & _ & _ & Hok)]; congruence.
  - intros s now tok refresh clientId code redirectUri a Hc [Hu|Hexp].
    + exists CODE_ALREADY_USED. split; [by apply grant_used with a|by left].
    + destruct (OAuth.used a) eqn:Hu.
      * exists CODE_ALREADY_USED. split; [by apply grant_used with a|by left].
      * exists CODE_EXPIRED. split; [by apply grant_expired with a|by right].
Qed.

(** The scenario of the specification: code issued for client X with scope
    [profile], exchanged once for a token with that scope; the second exchange
    fails with CODE_ALREADY_USED, also after the expiry and after other calls. *)
Lemma code_exchanged_at_most_once_witness :
  (∃ a t,
     OAuth.authorizationCodes OAuthScenario.issued !! "c0de" = Some a ∧ OAuth.used a = false ∧
     1000 ≤ OAuth.ac_expiresAt a ∧
     OAuth.authorizationCodes OAuthScenario.exchanged !! "c0de" = Some (OAuth.set_used true a) ∧
     OAuth.accessTokens OAuthScenario.exchanged = OAuth.accessTokens OAuthScenario.issued ++ [t] ∧
     OAuth.token t = "tok1" ∧ OAuth.refreshToken t = "ref1" ∧
     OAuth.at_scopes t = OAuth.ac_scopes a ∧
     OAuth.r_accessToken (OAuth.mkTokenResponse "tok1" 3600 "ref1" ["profile"]) = "tok1") ∧
  (∀ ops now' tok' refresh' clientId' redirectUri',
     run (OAuth.handleAuthorizationCodeGrant now' tok' refresh' clientId' "c0de" redirectUri')
         (apply_oauth_ops OAuthScenario.exchanged ops)
     = (Err CODE_ALREADY_USED, apply_oauth_ops OAuthScenario.exchanged ops)).
Proof.
  apply (proj1 code_exchanged_at_most_once OAuthScenario.issued 1000 "tok1" "ref1" "cx" "c0de"
           "https://x.example/cb" (OAuth.mkTokenResponse "tok1" 3600 "ref1" ["profile"])
           OAuthScenario.exchanged).
  vm_compute; reflexivity.
Defined.

Example second_exchange_fails :
  run (OAuth.handleAuthorizationCodeGrant 2000 "tok2" "ref2" "cx" "c0de" "https://x.example/cb")
      OAuthScenario.exchanged
  = (Err CODE_ALREADY_USED, OAuthScenario.exchanged) ∧
  length (OAuth.accessTokens OAuthScenario.exchanged) = 1%nat.
Proof. split; vm_compute; reflexivity. Qed.

(** ** Expired codes *)

(** C7, as stated, fails for a code that is both used and expired: the used
    flag is tested first. The code issued at time 0 and exchanged at time 1000
    expired at 600000; its exchange at 700000 fails with CODE_ALREADY_USED,
    not with CODE_EXPIRED. *)
Lemma expired_used_code_counterexample :
  (OAuth.ac_expiresAt <$> OAuth.authorizationCodes OAuthScenario.exchanged !! "c0de")
  = Some 600000 ∧
  (OAuth.used <$> OAuth.authorizationCodes OAuthScenario.exchanged !! "c0de") = Some true ∧
  600000 < 700000 ∧
  fst (run (OAuth.handleAuthorizationCodeGrant 700000 "tok2" "ref2" "cx" "c0de"
              "https://x.example/cb") OAuthScenario.exchanged)
  = Err CODE_ALREADY_USED ∧
  fst (run (OAuth.handleAuthorizationCodeGrant 700000 "tok2" "ref2" "cx" "c0de"
              "https://x.example/cb") OAuthScenario.exchanged)
  ≠ Err CODE_EXPIRED.
Proof.
  split; [vm_compute; reflexivity|]. split; [vm_compute; reflexivity|]. split; [lia|].
  assert (H : fst (run (OAuth.handleAuthorizationCodeGrant 700000 "tok2" "ref2" "cx" "c0de"
                          "https://x.example/cb") OAuthScenario.exchanged)
              = Err CODE_ALREADY_USED) by (vm_compute; reflexivity).
  split; [exact H|]. rewrite H. discriminate.
Qed.

(** C7 (amended): for every authorization code whose expiry is in the past at
    exchange time, the exchange fails and leaves the store as it was, whatever
    the client id and the redirect URI presented: with CODE_EXPIRED when the
    code is unused, with CODE_ALREADY_USED when it is used. *)
Theorem expired_code_rejected
    (s : OAuth.Store) (a : OAuth.AuthorizationCode) (now : Z)
    (tok refresh clientId code redirectUri : string) :
  OAuth.authorizationCodes s !! code = Some a → OAuth.ac_expiresAt a < now →
  run (OAuth.handleAuthorizationCodeGrant now tok refresh clientId code redirectUri) s
  = (Err (if OAuth.used a then CODE_ALREADY_USED else CODE_EXPIRED), s).
Proof.
  intros Hc Hexp. destruct (OAuth.used a) eqn:Hu.
  - by apply grant_used with a.
  - by apply grant_expired with a.
Qed.

(** The unused code of the scenario, presented after its expiry by another
    client with another redirect URI. *)
Lemma expired_code_rejected_witness :
  run (OAuth.handleAuthorizationCodeGrant 700000 "tok2" "ref2" "cy" "c0de"
         "https://y.example/cb") OAuthScenario.issued
  = (Err CODE_EXPIRED, OAuthScenario.issued).
Proof.
  apply (expired_code_rejected OAuthScenario.issued
           (OAuth.mkAuthorizationCode "user1" "cx" "c0de" "https://x.example/cb" ["profile"]
                                      600000 false)
           700000 "tok2" "ref2" "cy" "c0de" "https://y.example/cb").
  - vm_compute; reflexivity.
  - simpl; lia.
Defined.

(** * Further properties of the wallet service *)

(** ** Locking *)

Section Locking.
Import WalletService.
Implicit Types (s : Ledger.Store) (u v : string) (w : Wallet) (n : Z).

Lemma lockWallet_run s u w :
  wallets s !! u = Some w →
  run (lockWallet u) s
  = (Ok "Wallet locked successfully", with_wallets (alter (set_isLocked true) u) s).
Proof. intros Hw. unfold lockWallet. unfold_async. by rewrite Hw. Qed.

Lemma unlockWallet_run s u w :
  wallets s !! u = Some w →
  run (unlockWallet u) s
  = (Ok "Wallet unlocked successfully", with_wallets (alter (set_isLocked false) u) s).
Proof. intros Hw. unfold unlockWallet. unfold_async. by rewrite Hw. Qed.

Lemma lockWallet_missing s u :
  wallets s !! u = None → run (lockWallet u) s = (Err RECORD_NOT_FOUND, s).
Proof. intros Hw. unfold lockWallet. unfold_async. by rewrite Hw. Qed.

Lemma unlockWallet_missing s u :
  wallets s !! u = None → run (unlockWallet u) s = (Err RECORD_NOT_FOUND, s).
Proof. intros Hw. unfold unlockWallet. unfold_async. by rewrite Hw. Qed.

Lemma store_eta s :
  mkStore (wallets s) (nextWalletId s) (walletTransactions s) (giftTypes s)
          (giftMarketplaces s) (giftTransactions s) (stripePayments s) = s.
Proof. by destruct s. Qed.

End Locking.



(** X2: [lockWallet] followed by [unlockWallet] on an unlocked wallet gives
    back the store it started from: locking touches the lock flag and nothing
    else. On a user without a wallet both fail with the store's
    record-not-found error and change nothing. *)
Theorem lock_unlock_round_trip (s : Ledger.Store) (u : string) :
  (∀ w, wallets s !! u = Some w → isLocked w = false →
        ∃ s1, run (WalletService.lockWallet u) s = (Ok "Wallet locked successfully", s1) ∧
              balance_of s1 u = balance_of s u ∧
              walletTransactions s1 = walletTransactions s ∧
              run (WalletService.unlockWallet u) s1 = (Ok "Wallet unlocked successfully", s)) ∧
  (wallets s !! u = None →
   run (WalletService.lockWallet u) s = (Err RECORD_NOT_FOUND, s) ∧
   run (WalletService.unlockWallet u) s = (Err RECORD_NOT_FOUND, s)).
Proof.
  split.
  - intros w Hw Hl. eexists. split; [exact (lockWallet_run s u w Hw)|].
    split; [|split; [done|]].
    + unfold balance_of. simpl. by rewrite lookup_alter_eq, Hw.
    + rewrite (unlockWallet_run _ u (set_isLocked true w))
        by (simpl; by rewrite lookup_alter_eq, Hw).
      f_equal. unfold with_wallets. simpl. rewrite alter_alter_eq.
      rewrite alter_id; [apply store_eta|].
      intros w' Hw'. assert (w' = w) as -> by congruence.
      destruct w. simpl in *. by subst.
  - intros Hw. split.
    + exact (lockWallet_missing s u Hw).
    + exact (unlockWallet_missing s u Hw).
Qed.

Lemma lock_unlock_round_trip_witness :
  (∃ s1, run (WalletService.lockWallet "A") Scenario.A_1000
         = (Ok "Wallet locked successfully", s1) ∧
         balance_of s1 "A" = balance_of Scenario.A_1000 "A" ∧
         walletTransactions s1 = walletTransactions Scenario.A_1000 ∧
         run (WalletService.unlockWallet "A") s1
         = (Ok "Wallet unlocked successfully", Scenario.A_1000)) ∧
  (run (WalletService.lockWallet "B") Scenario.A_1000 = (Err RECORD_NOT_FOUND, Scenario.A_1000) ∧
   run (WalletService.unlockWallet "B") Scenario.A_1000
   = (Err RECORD_NOT_FOUND, Scenario.A_1000)).
Proof.
  split.
  - apply (proj1 (lock_unlock_round_trip Scenario.A_1000 "A")
             (mkWallet 0 "A" 1000 0 1000 false)); vm_compute; reflexivity.
  - apply (proj2 (lock_unlock_round_trip Scenario.A_1000 "B")). vm_compute; reflexivity.
Defined.

(** ** Balance and history queries *)

Section Queries.
Import WalletService WalletQueries.
Implicit Types (s : Ledger.Store) (u v : string) (w : Wallet) (n : Z).

Lemma createWallet_new s u :
  wallets s !! u = None →
  run (createWallet u) s = (Ok "Wallet created successfully", with_fresh_wallet s u).
Proof. intros Hw. unfold createWallet. unfold_async. rewrite Hw. simpl. by rewrite Hw. Qed.

Lemma createWallet_exists s u w :
  wallets s !! u = Some w → run (createWallet u) s = (Err WALLET_EXISTS, s).
Proof. intros Hw. unfold createWallet. unfold_async. by rewrite Hw. Qed.

Lemma getWalletBalance_existing s u w :
  wallets s !! u = Some w →
  run (getWalletBalance u) s
  = (Ok (mkWalletBalance (w_userId w) (balanceCoins w) (totalSpent w) (totalEarned w)
           (convertCoinsToUSD (balanceCoins w))), s).
Proof. intros Hw. unfold getWalletBalance. unfold_async. by rewrite Hw. Qed.

Lemma getWalletBalance_new s u :
  wallets s !! u = None →
  run (getWalletBalance u) s
  = (Ok (mkWalletBalance u 0 0 0 0x0p+0%float), with_fresh_wallet s u).
Proof.
  intros Hw. unfold getWalletBalance, createWallet. unfold_async.
  rewrite Hw. simpl. rewrite Hw. simpl. by rewrite Hw.
Qed.

Lemma getTransactionHistory_existing s u w limit offset :
  wallets s !! u = Some w →
  run (getTransactionHistory u (Some limit) (Some offset)) s
  = (Ok (mkTransactionHistory
           (entry_of <$> take (N.to_nat limit)
                              (drop (N.to_nat offset) (reverse (history s (w_id w)))))
           (mkPagination limit offset (N.of_nat (length (history s (w_id w))))
                         (offset + limit <? N.of_nat (length (history s (w_id w))))%N)), s).
Proof.
  intros Hw. unfold getTransactionHistory, walletTransaction_findMany,
    walletTransaction_count. unfold_async. by rewrite Hw.
Qed.

Lemma getTransactionHistory_no_wallet s u limit offset :
  wallets s !! u = None →
  run (getTransactionHistory u (Some limit) (Some offset)) s
  = (Ok (mkTransactionHistory [] (mkPagination limit offset 0 false)), s).
Proof. intros Hw. unfold getTransactionHistory. unfold_async. by rewrite Hw. Qed.

Lemma history_page_existing s u w limit offset :
  wallets s !! u = Some w →
  history_page s u limit offset
  = entry_of <$> take (N.to_nat limit)
                      (drop (N.to_nat offset) (reverse (history s (w_id w)))).
Proof.
  intros Hw. unfold history_page.
  by rewrite (getTransactionHistory_existing s u w limit offset Hw).
Qed.

End Queries.

(** X3: [getWalletBalance] always answers, and with the balance the user
    has: 0 and a freshly created wallet when there was none, otherwise the
    stored balance with the store left as it was. It never changes another
    user's wallet or the ledger, and asked again it gives the same balance and
    creates nothing more. *)
Theorem getWalletBalance_lazy (s : Ledger.Store) (u : string) :
  ∃ wb s',
    run (WalletQueries.getWalletBalance u) s = (Ok wb, s') ∧
    WalletQueries.wb_balanceCoins wb = balance_of s u ∧
    is_Some (wallets s' !! u) ∧
    (is_Some (wallets s !! u) → s' = s) ∧
    (∀ v, v ≠ u → wallets s' !! v = wallets s !! v) ∧
    walletTransactions s' = walletTransactions s ∧
    ∃ wb', run (WalletQueries.getWalletBalance u) s' = (Ok wb', s') ∧
           WalletQueries.wb_balanceCoins wb' = WalletQueries.wb_balanceCoins wb.
Proof.
  destruct (wallets s !! u) as [w|] eqn:Hw.
  - eexists _, s. split; [by apply getWalletBalance_existing|].
    unfold balance_of. rewrite Hw. simpl.
    split; [done|]. split; [by eexists|]. split; [done|]. split; [done|]. split; [done|].
    eexists. split; [by apply getWalletBalance_existing|]. done.
  - eexists _, _. split; [by apply getWalletBalance_new|].
    unfold balance_of. rewrite Hw. simpl.
    split; [done|]. split; [rewrite lookup_insert_eq; by eexists|].
    split; [by intros [? ?]|].
    split; [intros v Hv; by rewrite lookup_insert_ne|]. split; [done|].
    eexists. split.
    + apply getWalletBalance_existing. apply wallets_fresh_same.
    + done.
Qed.

Lemma getWalletBalance_lazy_witness :
  ∃ wb s',
    run (WalletQueries.getWalletBalance "B") Scenario.A_1000 = (Ok wb, s') ∧
    WalletQueries.wb_balanceCoins wb = balance_of Scenario.A_1000 "B" ∧
    is_Some (wallets s' !! "B") ∧
    (is_Some (wallets Scenario.A_1000 !! "B") → s' = Scenario.A_1000) ∧
    (∀ v, v ≠ "B" → wallets s' !! v = wallets Scenario.A_1000 !! v) ∧
    walletTransactions s' = walletTransactions Scenario.A_1000 ∧
    ∃ wb', run (WalletQueries.getWalletBalance "B") s' = (Ok wb', s') ∧
           WalletQueries.wb_balanceCoins wb' = WalletQueries.wb_balanceCoins wb.
Proof. apply (getWalletBalance_lazy Scenario.A_1000 "B"). Defined.

(** X4: a page of the transaction history never holds more rows than the
    limit; it reports as total the number of ledger rows of the wallet; it
    holds min(limit, total - offset) rows; and [hasMore] is set exactly when
    rows remain after the page. The call changes nothing in the store. For a
    user without a wallet the page is empty, with total 0 and no more rows. *)
Theorem history_page_bounds (s : Ledger.Store) (u : string) (limit offset : N) :
  ∃ h,
    run (WalletQueries.getTransactionHistory u (Some limit) (Some offset)) s = (Ok h, s) ∧
    let total := WalletQueries.pg_total (WalletQueries.pagination h) in
    (N.of_nat (length (WalletQueries.transactions h)) = N.min limit (total - offset))%N ∧
    (WalletQueries.hasMore (WalletQueries.pagination h) = true ↔ (offset + limit < total)%N) ∧
    (∀ w, wallets s !! u = Some w → total = N.of_nat (length (history s (w_id w)))) ∧
    (wallets s !! u = None → WalletQueries.transactions h = [] ∧ total = 0%N).
Proof.
  destruct (wallets s !! u) as [w|] eqn:Hw.
  - eexists. split; [by apply getTransactionHistory_existing|]. simpl.
    split; [|split; [|split; [|done]]].
    + rewrite length_fmap, length_take, length_drop, length_reverse. lia.
    + apply N.ltb_lt.
    + intros w' Hw'. by simplify_eq.
  - eexists. split; [by apply getTransactionHistory_no_wallet|]. simpl.
    split; [lia|]. split; [|done]. split; [done|lia].
Qed.

Lemma history_page_bounds_witness :
  ∃ h,
    run (WalletQueries.getTransactionHistory "A" (Some 1%N) (Some 0%N))
        (apply_ops empty_store Scenario.three_ops)
    = (Ok h, apply_ops empty_store Scenario.three_ops) ∧
    let total := WalletQueries.pg_total (WalletQueries.pagination h) in
    (N.of_nat (length (WalletQueries.transactions h)) = N.min 1 (total - 0))%N ∧
    (WalletQueries.hasMore (WalletQueries.pagination h) = true ↔ (0 + 1 < total)%N) ∧
    (∀ w, wallets (apply_ops empty_store Scenario.three_ops) !! "A" = Some w →
          total = N.of_nat (length (history (apply_ops empty_store Scenario.three_ops)
                                            (w_id w)))) ∧
    (wallets (apply_ops empty_store Scenario.three_ops) !! "A" = None →
     WalletQueries.transactions h = [] ∧ total = 0%N).
Proof. apply (history_page_bounds (apply_ops empty_store Scenario.three_ops) "A" 1 0). Defined.

(** X5: a successful credit, and a successful debit, shows in the history of
    the user: read from the start with a limit that covers all the rows of
    the wallet, the history holds the entry of that operation, with its
    type, its signed amount, the balance it left, its description and its
    metadata. (Where among the entries it stands is not stated: rows created
    at the same instant come in an order that the source does not fix.) *)
Theorem history_shows_operation
    (s s1 : Ledger.Store) (u : string) (n amount b : Z) ty d rt ri md (limit : N) :
  (run (WalletService.addCoins u n ty d rt ri md) s = (Ok b, s1) ∧ amount = n) ∨
  (run (WalletService.deductCoins u n ty d rt ri md) s = (Ok b, s1) ∧ amount = - n) →
  (∀ w, wallets s1 !! u = Some w → (N.of_nat (length (history s1 (w_id w))) ≤ limit)%N) →
  WalletQueries.mkHistoryEntry ty amount b d md ∈ history_page s1 u limit 0.
Proof.
  assert (Hpost : ∀ s0 w row (f : Wallet → Wallet),
    wallets s0 !! u = Some w → w_id (f w) = w_id w → wt_walletId row = w_id w →
    let s' := with_walletTransactions (fun rows => rows ++ [row])
                (with_wallets (alter f u) s0) in
    (∀ w', wallets s' !! u = Some w' → (N.of_nat (length (history s' (w_id w'))) ≤ limit)%N) →
    WalletQueries.entry_of row ∈ history_page s' u limit 0).
  { intros s0 w row f Hw Hid Hrow s' Hlimit.
    assert (wallets s' !! u = Some (f w)) as Hw'.
    { unfold s'. simpl. by rewrite lookup_alter_eq, Hw. }
    specialize (Hlimit (f w) Hw').
    rewrite (history_page_existing s' u (f w) limit 0 Hw').
    change (N.to_nat 0) with 0%nat. rewrite drop_0.
    rewrite take_ge by (rewrite length_reverse; lia).
    apply list_elem_of_fmap_2, elem_of_reverse.
    unfold history, s'. simpl. rewrite filter_app, filter_cons, filter_nil.
    rewrite Hid, decide_True by done. apply elem_of_app. right. left. }
  intros [[Hrun ->]|[Hrun ->]] Hlimit.
  - destruct (Z.leb_spec n 0) as [Hn|Hn].
    { by rewrite addCoins_invalid in Hrun. }
    destruct (wallets s !! u) as [w|] eqn:Hw.
    + rewrite (addCoins_ok_existing _ _ w) in Hrun by done. simplify_eq.
      exact (Hpost s w (mkWalletTransaction (w_id w) ty n (balanceCoins w + n) d rt ri md)
               (set_balance_earned (balanceCoins w + n) (totalEarned w + n))
               Hw eq_refl eq_refl Hlimit).
    + rewrite addCoins_ok_new in Hrun by done. simplify_eq.
      exact (Hpost (with_fresh_wallet s u) (fresh_wallet s u)
               (mkWalletTransaction (w_id (fresh_wallet s u)) ty b
                  (balanceCoins (fresh_wallet s u) + b) d rt ri md)
               (set_balance_earned (balanceCoins (fresh_wallet s u) + b)
                  (totalEarned (fresh_wallet s u) + b))
               (wallets_fresh_same s u) eq_refl eq_refl Hlimit).
  - destruct (deductCoins_cases s u n ty d rt ri md)
      as [[e He]|(w & Hw & _ & _ & _ & Hok)]; [congruence|].
    rewrite Hok in Hrun. simplify_eq.
    exact (Hpost s w (mkWalletTransaction (w_id w) ty (- n) (balanceCoins w - n) d rt ri md)
             (set_balance_spent (balanceCoins w - n) (totalSpent w + n))
             Hw eq_refl eq_refl Hlimit).
Qed.

(** The debit of 300 coins in the history of A, who was credited 1000 coins
    before. *)
Lemma history_shows_operation_witness :
  WalletQueries.mkHistoryEntry WITHDRAWAL (- 300) 700 "cash out" None
  ∈ history_page
      (snd (run (WalletService.deductCoins "A" 300 WITHDRAWAL "cash out" None None None)
                Scenario.A_1000)) "A" 10 0.
Proof.
  apply (history_shows_operation Scenario.A_1000
           (snd (run (WalletService.deductCoins "A" 300 WITHDRAWAL "cash out" None None None)
                     Scenario.A_1000))
           "A" 300 (- 300) 700 WITHDRAWAL "cash out" None None None 10).
  - right. split; [vm_compute; reflexivity | reflexivity].
  - intros w Hw. vm_compute in Hw. injection Hw as <-. vm_compute. discriminate.
Defined.

(** ** Coins in circulation *)

Section Circulation.
Import WalletService WalletQueries.
Implicit Types (s : Ledger.Store) (u v : string) (w : Wallet) (n : Z).

Lemma sum_balances_comm (j1 j2 : string) (z1 z2 : Wallet) (y : Z) :
  balanceCoins z1 + (balanceCoins z2 + y) = balanceCoins z2 + (balanceCoins z1 + y).
Proof. lia. Qed.

Lemma circulation_insert_fresh (m : gmap string Wallet) u w :
  m !! u = None →
  map_fold (fun _ w acc => balanceCoins w + acc) 0 (<[u:=w]> m)
  = balanceCoins w + map_fold (fun _ w acc => balanceCoins w + acc) 0 m.
Proof.
  intros Hu. apply (map_fold_insert_L (fun _ w acc => balanceCoins w + acc)); [|done].
  intros. apply sum_balances_comm; done.
Qed.

Lemma circulation_alter (m : gmap string Wallet) u w (f : Wallet → Wallet) :
  m !! u = Some w →
  map_fold (fun _ w acc => balanceCoins w + acc) 0 (alter f u m)
  = map_fold (fun _ w acc => balanceCoins w + acc) 0 m - balanceCoins w + balanceCoins (f w).
Proof.
  intros Hu. rewrite (alter_alt_Some f m u w Hu), <- insert_delete_eq.
  rewrite circulation_insert_fresh by apply lookup_delete_eq.
  rewrite (map_fold_delete_L (fun _ w acc => balanceCoins w + acc) 0 u w m); [lia| |done].
  intros. apply sum_balances_comm; done.
Qed.

Lemma circulation_deductCoins s s' u n ty d rt ri md b :
  run (deductCoins u n ty d rt ri md) s = (Ok b, s') →
  coins_in_circulation s' = coins_in_circulation s - n ∧
  length (walletTransactions s') = S (length (walletTransactions s)).
Proof.
  intros Hrun. destruct (deductCoins_cases s u n ty d rt ri md)
    as [[e He]|(w & Hw & _ & _ & _ & Hok)]; [congruence|].
  rewrite Hok in Hrun. simplify_eq. unfold coins_in_circulation, debited. simpl.
  rewrite (circulation_alter _ u w) by done. simpl.
  rewrite length_app. simpl. split; lia.
Qed.

Lemma circulation_addCoins s s' u n ty d rt ri md b :
  run (addCoins u n ty d rt ri md) s = (Ok b, s') →
  coins_in_circulation s' = coins_in_circulation s + n ∧
  length (walletTransactions s') = S (length (walletTransactions s)).
Proof.
  intros Hrun. destruct (Z.leb_spec n 0) as [Hn|Hn].
  { by rewrite addCoins_invalid in Hrun. }
  destruct (wallets s !! u) as [w|] eqn:Hw.
  - rewrite (addCoins_ok_existing _ _ w) in Hrun by done. simplify_eq.
    unfold coins_in_circulation, credited. simpl.
    rewrite (circulation_alter _ u w) by done. simpl.
    rewrite length_app. simpl. split; lia.
  - rewrite addCoins_ok_new in Hrun by done. simplify_eq.
    unfold coins_in_circulation, credited, with_fresh_wallet. simpl.
    rewrite (circulation_alter _ u (fresh_wallet s u)) by apply lookup_insert_eq.
    rewrite circulation_insert_fresh by done. simpl.
    rewrite length_app. simpl. split; lia.
Qed.

(** [getWalletStats] reads the store and reports the number of wallets, the
    coins in circulation and the number of ledger rows. *)
Lemma getWalletStats_run s :
  ∃ avg, run getWalletStats s
         = (Ok (mkWalletStats (Z.of_nat (size (wallets s))) (coins_in_circulation s)
                              (Z.of_nat (length (walletTransactions s))) avg), s).
Proof.
  unfold getWalletStats, wallet_sum_balanceCoins. unfold_async. simpl.
  unfold coins_in_circulation.
  destruct (decide (wallets s = ∅)) as [Hempty|Hne].
  - rewrite Hempty, map_fold_empty. by eexists.
  - unfold Js.truthy_int.
    destruct (Z.eqb_spec (map_fold (fun _ w acc => balanceCoins w + acc) 0 (wallets s)) 0)
      as [Hz|Hz]; simpl.
    + rewrite Hz. by eexists.
    + by eexists.
Qed.

End Circulation.

(** X7: a successful transfer conserves the coins in circulation: the total
    that [getWalletStats] reports is the same before and after, and the count
    of ledger rows it reports is higher by two. *)
Theorem transfer_conserves_circulation
    (now : Z) (rnd from to : string) (n : Z) (d msg : string) (s s' : Ledger.Store) :
  run (WalletService.transferCoins now rnd from to n d) s = (Ok msg, s') →
  ∃ st st',
    run WalletQueries.getWalletStats s = (Ok st, s) ∧
    run WalletQueries.getWalletStats s' = (Ok st', s') ∧
    WalletQueries.totalCoinsInCirculation st' = WalletQueries.totalCoinsInCirculation st ∧
    WalletQueries.totalTransactions st' = WalletQueries.totalTransactions st + 2.
Proof.
  intros Hrun.
  destruct (decide (from = to)) as [Heq|Hne].
  { by rewrite (proj1 (transferCoins_guards now rnd from to n d) Heq) in Hrun. }
  destruct (Z.leb_spec n 0) as [Hn|Hn].
  { by rewrite (proj2 (transferCoins_guards now rnd from to n d) Hne Hn) in Hrun. }
  rewrite transferCoins_run in Hrun by done.
  destruct (run (WalletService.deductCoins _ _ _ _ _ _ _) s) as [[b1|e] s1] eqn:Hd; [|done].
  destruct (run (WalletService.addCoins _ _ _ _ _ _ _) s1) as [[b2|e] s2] eqn:Ha; [|done].
  simplify_eq.
  apply circulation_deductCoins in Hd as [Hc1 Hl1].
  apply circulation_addCoins in Ha as [Hc2 Hl2].
  destruct (getWalletStats_run s) as [avg Hst]. destruct (getWalletStats_run s') as [avg' Hst'].
  eexists _, _. split; [exact Hst|]. split; [exact Hst'|]. simpl. split; lia.
Qed.

Lemma transfer_conserves_circulation_witness :
  ∃ st st',
    run WalletQueries.getWalletStats Scenario.A_1000 = (Ok st, Scenario.A_1000) ∧
    run WalletQueries.getWalletStats
        (snd (run (WalletService.transferCoins 0 "r" "A" "B" 300 "thanks") Scenario.A_1000))
    = (Ok st', snd (run (WalletService.transferCoins 0 "r" "A" "B" 300 "thanks")
                        Scenario.A_1000)) ∧
    WalletQueries.totalCoinsInCirculation st' = WalletQueries.totalCoinsInCirculation st ∧
    WalletQueries.totalTransactions st' = WalletQueries.totalTransactions st + 2.
Proof.
  apply (transfer_conserves_circulation 0 "r" "A" "B" 300 "thanks"
           "Transfer completed successfully" Scenario.A_1000).
  vm_compute; reflexivity.
Defined.

(** The statistics after the transfer of 300 coins from A to B: two wallets,
    1000 coins, three ledger rows, an average balance of 500. *)
Example stats_after_transfer :
  fst (run WalletQueries.getWalletStats
         (snd (run (WalletService.transferCoins 0 "r" "A" "B" 300 "thanks") Scenario.A_1000)))
  = Ok (WalletQueries.mkWalletStats 2 1000 3 (Some 500)).
Proof. vm_compute; reflexivity. Qed.

(** X8: a successful gift send takes coins out of circulation: the total held
    by all wallets falls by the platform fee plus twice the social-wallet fee,
    the latter being charged to the sender on top of the price and withheld
    from the receiver as well. *)
Theorem sendGift_shrinks_circulation
    (now : Z) (rnd : string) (req : GiftService.SendGiftRequest)
    (s s' : Ledger.Store) (res : GiftService.SendGiftResult) :
  run (GiftService.sendGift now rnd req) s = (Ok res, s') →
  coins_in_circulation s'
  = coins_in_circulation s - GiftService.platformFee res - 2 * GiftService.socialWalletFee res.
Proof.
  intros Hrun.
  destruct (sendGift_cases now rnd req s) as [(g & Hpass & Hset)|(e & He & _)];
    [|congruence].
  rewrite Hset in Hrun.
  apply gift_settlement_ok in Hrun
    as (pf & swf & b1 & s1 & b2 & s2 & _ & _ & Hd & Ha & -> & ->).
  apply circulation_deductCoins in Hd as [Hc1 _].
  apply circulation_addCoins in Ha as [Hc2 _].
  unfold coins_in_circulation in *. rewrite wallets_gift_recorded. simpl. lia.
Qed.

Lemma sendGift_shrinks_circulation_witness :
  coins_in_circulation
    (snd (run (GiftService.sendGift 0 "00" Scenario.two_roses) Scenario.gift_shop))
  = coins_in_circulation Scenario.gift_shop - 20 - 2 * 3.
Proof.
  apply (sendGift_shrinks_circulation 0 "00" Scenario.two_roses Scenario.gift_shop _
           (GiftService.mkSendGiftResult "gift_0_00" 203 20 3)).
  vm_compute; reflexivity.
Defined.

(** * Further properties of gift sending *)

Section GiftStock.
Import WalletService GiftService.
Implicit Types (s : Ledger.Store) (req : SendGiftRequest) (g : GiftType).

(** [sendGift] as a decision tree over the store it is given. *)
Lemma sendGift_tree now rnd req s :
  run (sendGift now rnd req) s =
  let q := default 1 (quantity req) in
  if decide (fromUserId req = toUserId req) then (Err INVALID_RECIPIENT, s)
  else if (q <=? 0) || (100 <? q) then (Err INVALID_QUANTITY, s)
  else match giftTypes s !! giftTypeId req with
       | None => (Err GIFT_NOT_FOUND, s)
       | Some g =>
           if negb (isActive g) then (Err GIFT_NOT_FOUND, s)
           else if exclusive_elsewhere g (platformId req) then (Err GIFT_NOT_AVAILABLE, s)
           else if stock_is_capped g && (available_stock g <? q)
           then (Err (INSUFFICIENT_QUANTITY (available_stock g) q), s)
           else gift_settlement now rnd req g s
       end.
Proof.
  cbv zeta.
  destruct (decide (fromUserId req = toUserId req)) as [Heq|Hne] eqn:Hdec.
  { unfold sendGift. by rewrite Hdec. }
  destruct ((default 1 (quantity req) <=? 0) || (100 <? default 1 (quantity req))) eqn:Hq.
  { unfold sendGift. by rewrite Hdec, Hq. }
  destruct (giftTypes s !! giftTypeId req) as [g|] eqn:Hg.
  2: { unfold sendGift. rewrite Hdec, Hq.
       unfold run, bind, giftType_findUnique, read. cbn [seen committed]. by rewrite Hg. }
  destruct (negb (isActive g)) eqn:Hact.
  { unfold sendGift. rewrite Hdec, Hq.
    unfold run, bind, giftType_findUnique, read. cbn [seen committed]. by rewrite Hg, Hact. }
  destruct (exclusive_elsewhere g (platformId req)) eqn:Hex.
  { unfold sendGift. rewrite Hdec, Hq.
    unfold run, bind, giftType_findUnique, read. cbn [seen committed].
    by rewrite Hg, Hact, Hex. }
  destruct (stock_is_capped g && (available_stock g <? default 1 (quantity req))) eqn:Hst.
  { unfold sendGift. rewrite Hdec, Hq.
    unfold run, bind, giftType_findUnique, read. cbn [seen committed].
    by rewrite Hg, Hact, Hex, Hst. }
  apply sendGift_run. apply orb_false_iff in Hq as [Hq0 Hq100].
  apply Z.leb_gt in Hq0. apply Z.ltb_ge in Hq100. apply negb_false_iff in Hact.
  by repeat split.
Qed.

(** A refusal for lack of stock, read back: the gift type is limited, its cap
    is set and not 0, and the stock left is below the quantity asked. *)
Lemma sendGift_shortfall_inv now rnd req s a r s' :
  run (sendGift now rnd req) s = (Err (INSUFFICIENT_QUANTITY a r), s') →
  s' = s ∧ r = default 1 (quantity req) ∧ a < r ∧
  ∃ g m, giftTypes s !! giftTypeId req = Some g ∧ isLimited g = true ∧
         maxQuantity g = Some m ∧ m ≠ 0 ∧ a = m - soldQuantity g.
Proof.
  rewrite sendGift_tree. cbv zeta. intros Hrun.
  destruct (decide (fromUserId req = toUserId req)); [done|].
  destruct ((default 1 (quantity req) <=? 0) || (100 <? default 1 (quantity req))); [done|].
  destruct (giftTypes s !! giftTypeId req) as [g|] eqn:Hg; [|done].
  destruct (negb (isActive g)); [done|].
  destruct (exclusive_elsewhere g (platformId req)); [done|].
  destruct (stock_is_capped g && (available_stock g <? default 1 (quantity req))) eqn:Hst.
  2: { by eapply gift_settlement_error in Hrun. }
  simplify_eq. apply andb_true_iff in Hst as [Hcap Hlt]. apply Z.ltb_lt in Hlt.
  split; [done|]. split; [done|]. split; [done|].
  unfold stock_is_capped in Hcap. apply andb_true_iff in Hcap as [Hlim Hmax].
  destruct (maxQuantity g) as [m|] eqn:Hm; [|done].
  exists g, m. unfold available_stock. rewrite Hm. simpl in *.
  unfold Js.truthy_int in Hmax. by destruct (Z.eqb_spec m 0).
Qed.

End GiftStock.

(** X9: a gift send is refused for lack of stock exactly when the gift type
    is limited, has a cap other than null and 0, and has fewer gifts left than
    the quantity asked: the error then carries the stock left and the quantity
    asked, and nothing is written. A limited gift type whose cap is 0 is
    never refused for lack of stock. *)
Theorem sendGift_stock_check
    (now : Z) (rnd : string) (req : GiftService.SendGiftRequest)
    (s : Ledger.Store) (g : GiftType) :
  GiftService.fromUserId req ≠ GiftService.toUserId req →
  0 < default 1 (GiftService.quantity req) ≤ 100 →
  giftTypes s !! GiftService.giftTypeId req = Some g →
  isActive g = true →
  GiftService.exclusive_elsewhere g (GiftService.platformId req) = false →
  (∀ m, isLimited g = true → maxQuantity g = Some m → m ≠ 0 →
        m - soldQuantity g < default 1 (GiftService.quantity req) →
        run (GiftService.sendGift now rnd req) s
        = (Err (INSUFFICIENT_QUANTITY (m - soldQuantity g)
                  (default 1 (GiftService.quantity req))), s)) ∧
  (∀ a r s',
     run (GiftService.sendGift now rnd req) s = (Err (INSUFFICIENT_QUANTITY a r), s') →
     s' = s ∧ isLimited g = true ∧ a < r ∧
     ∃ m, maxQuantity g = Some m ∧ m ≠ 0 ∧ a = m - soldQuantity g) ∧
  (maxQuantity g = Some 0 →
   ∀ a r, fst (run (GiftService.sendGift now rnd req) s) ≠ Err (INSUFFICIENT_QUANTITY a r)).
Proof.
  intros Hne [Hq0 Hq100] Hg Hact Hex.
  assert (Hinv : ∀ a r s',
     run (GiftService.sendGift now rnd req) s = (Err (INSUFFICIENT_QUANTITY a r), s') →
     s' = s ∧ isLimited g = true ∧ a < r ∧
     ∃ m, maxQuantity g = Some m ∧ m ≠ 0 ∧ a = m - soldQuantity g).
  { intros a r s' Hrun.
    apply sendGift_shortfall_inv in Hrun
      as (-> & -> & Hlt & g' & m & Hg' & Hlim & Hm & Hm0 & ->).
    assert (g' = g) as -> by congruence. split; [done|]. split; [done|].
    split; [done|]. by exists m. }
  split; [|split; [exact Hinv|]].
  - intros m Hlim Hm Hm0 Hlt. rewrite sendGift_tree. cbv zeta.
    destruct (decide (GiftService.fromUserId req = GiftService.toUserId req)); [done|].
    destruct (Z.leb_spec (default 1 (GiftService.quantity req)) 0); [lia|].
    destruct (Z.ltb_spec 100 (default 1 (GiftService.quantity req))); [lia|].
    cbn [orb]. rewrite Hg, Hact, Hex. cbn [negb].
    unfold GiftService.stock_is_capped, GiftService.available_stock. rewrite Hlim, Hm.
    simpl. unfold Js.truthy_int. destruct (Z.eqb_spec m 0); [done|]. simpl.
    by destruct (Z.ltb_spec (m - soldQuantity g) (default 1 (GiftService.quantity req)));
      [|lia].
  - intros Hzero a r Hfst.
    assert (Hrun : run (GiftService.sendGift now rnd req) s
                   = (Err (INSUFFICIENT_QUANTITY a r),
                      snd (run (GiftService.sendGift now rnd req) s))).
    { rewrite <- Hfst. apply surjective_pairing. }
    apply Hinv in Hrun as (_ & _ & _ & m & Hm & Hm0 & _). congruence.
Qed.

Lemma sendGift_stock_check_witness :
  (∀ m, isLimited (mkGiftType "Ring" None 10 true true (Some 5) 3) = true →
        maxQuantity (mkGiftType "Ring" None 10 true true (Some 5) 3) = Some m → m ≠ 0 →
        m - 3 < 3 →
        run (GiftService.sendGift 0 "00" MoreScenarios.three_rings) MoreScenarios.ring_shop
        = (Err (INSUFFICIENT_QUANTITY (m - 3) 3), MoreScenarios.ring_shop)) ∧
  (∀ a r s',
     run (GiftService.sendGift 0 "00" MoreScenarios.three_rings) MoreScenarios.ring_shop
     = (Err (INSUFFICIENT_QUANTITY a r), s') →
     s' = MoreScenarios.ring_shop ∧
     isLimited (mkGiftType "Ring" None 10 true true (Some 5) 3) = true ∧ a < r ∧
     ∃ m, maxQuantity (mkGiftType "Ring" None 10 true true (Some 5) 3) = Some m ∧ m ≠ 0 ∧
          a = m - 3) ∧
  (maxQuantity (mkGiftType "Ring" None 10 true true (Some 5) 3) = Some 0 →
   ∀ a r, fst (run (GiftService.sendGift 0 "00" MoreScenarios.three_rings)
                   MoreScenarios.ring_shop) ≠ Err (INSUFFICIENT_QUANTITY a r)).
Proof.
  apply (sendGift_stock_check 0 "00" MoreScenarios.three_rings MoreScenarios.ring_shop
           (mkGiftType "Ring" None 10 true true (Some 5) 3)).
  - discriminate.
  - simpl; lia.
  - vm_compute; reflexivity.
  - reflexivity.
  - reflexivity.
Defined.

(** Three rings when two are left are refused; two rings then sell out. *)
Example rings :
  run (GiftService.sendGift 0 "00" MoreScenarios.three_rings) MoreScenarios.ring_shop
  = (Err (INSUFFICIENT_QUANTITY 2 3), MoreScenarios.ring_shop) ∧
  (soldQuantity <$>
     giftTypes (snd (run (GiftService.sendGift 0 "00" MoreScenarios.two_rings)
                         MoreScenarios.ring_shop)) !! "ring") = Some 5.
Proof. split; vm_compute; reflexivity. Qed.

Section GiftStockInvariant.
Import WalletService GiftService.
Implicit Types (s : Ledger.Store) (req : SendGiftRequest) (g : GiftType).

(** The gift types after a call: as before, unless the send succeeded for a
    limited gift type, whose sold quantity is then higher by the quantity. *)
Lemma sendGift_giftTypes now rnd req s :
  giftTypes (snd (run (sendGift now rnd req) s)) = giftTypes s ∨
  ∃ g, giftTypes s !! giftTypeId req = Some g ∧
       0 < default 1 (quantity req) ∧
       (stock_is_capped g && (available_stock g <? default 1 (quantity req))) = false ∧
       giftTypes (snd (run (sendGift now rnd req) s))
       = alter (increment_soldQuantity (default 1 (quantity req))) (giftTypeId req)
               (giftTypes s).
Proof.
  destruct (sendGift_cases now rnd req s) as [(g & Hpass & Hset)|(e & He & _)].
  2: { left. by rewrite He. }
  rewrite Hset. destruct Hpass as (_ & Hq0 & _ & Hg & _ & _ & Hstock).
  unfold gift_settlement.
  destruct (fee _ socialWalletFeeRate) as [swf|]; [|by left].
  pose proof (deductCoins_catalog s (fromUserId req)
                (priceCoins g * default 1 (quantity req) + swf) GIFT_SENT
                (sent_description (default 1 (quantity req)) g)
                (Some "gift_transaction") (Some (transactionId_of now rnd)) None)
    as (Hgt1 & _).
  destruct (run (deductCoins _ _ _ _ _ _ _) s) as [[b1|e] s1]; simpl in Hgt1; [|by left].
  destruct (fee _ (platformFeeRate_of _)) as [pf|]; [|by left].
  pose proof (addCoins_catalog s1 (toUserId req)
                (priceCoins g * default 1 (quantity req) - pf - swf) GIFT_RECEIVED
                (received_description (default 1 (quantity req)) g)
                (Some "gift_transaction") (Some (transactionId_of now rnd)) None)
    as (Hgt2 & _).
  destruct (run (addCoins _ _ _ _ _ _ _) s1) as [[b2|e] s2]; simpl in Hgt2;
    [|left; simpl; congruence].
  simpl. unfold gift_recorded. destruct (isLimited g); simpl.
  - right. exists g. by rewrite Hgt2, Hgt1.
  - left. congruence.
Qed.

Lemma sendGift_keeps_cap now rnd req s id g m :
  giftTypes s !! id = Some g → isLimited g = true → maxQuantity g = Some m → m ≠ 0 →
  soldQuantity g ≤ m →
  ∃ g', giftTypes (snd (run (sendGift now rnd req) s)) !! id = Some g' ∧
        isLimited g' = true ∧ maxQuantity g' = Some m ∧
        soldQuantity g ≤ soldQuantity g' ∧ soldQuantity g' ≤ m.
Proof.
  intros Hg Hlim Hm Hm0 Hsold.
  destruct (sendGift_giftTypes now rnd req s) as [Hsame|(g0 & Hg0 & Hq & Hstock & Halt)].
  { exists g. rewrite Hsame. repeat split; try done; lia. }
  rewrite Halt. destruct (decide (giftTypeId req = id)) as [Heq|Hne].
  - rewrite Heq in *. assert (g0 = g) as -> by congruence.
    rewrite lookup_alter_eq, Hg. simpl. eexists. split; [done|]. simpl.
    unfold stock_is_capped, available_stock in Hstock. rewrite Hlim, Hm in Hstock.
    simpl in Hstock. unfold Js.truthy_int in Hstock.
    destruct (Z.eqb_spec m 0); [done|]. simpl in Hstock.
    apply Z.ltb_ge in Hstock. repeat split; try done; lia.
  - rewrite lookup_alter_ne by done. exists g. repeat split; try done; lia.
Qed.

End GiftStockInvariant.

(** X10: a capped gift type is never oversold: if its sold quantity is within
    its cap (a cap other than 0), then after any series of [sendGift] calls,
    successful or not, for this or any other gift type, the gift type is still
    there with the same cap, and its sold quantity has not fallen and is still
    within the cap. *)
Theorem capped_stock_never_oversold
    (calls : list (Z * string * GiftService.SendGiftRequest))
    (s : Ledger.Store) (id : string) (g : GiftType) (m : Z) :
  giftTypes s !! id = Some g → isLimited g = true → maxQuantity g = Some m → m ≠ 0 →
  soldQuantity g ≤ m →
  ∃ g', giftTypes (apply_sends s calls) !! id = Some g' ∧
        isLimited g' = true ∧ maxQuantity g' = Some m ∧
        soldQuantity g ≤ soldQuantity g' ∧ soldQuantity g' ≤ m.
Proof.
  revert s g. induction calls as [|[[now rnd] req] calls IH]; intros s g Hg Hlim Hm Hm0 Hsold.
  { exists g. repeat split; try done; lia. }
  destruct (sendGift_keeps_cap now rnd req s id g m Hg Hlim Hm Hm0 Hsold)
    as (g1 & Hg1 & Hlim1 & Hm1 & Hle1 & Hcap1).
  destruct (IH _ g1 Hg1 Hlim1 Hm1 Hm0 Hcap1) as (g' & Hg' & Hlim' & Hm' & Hle' & Hcap').
  exists g'. simpl. repeat split; try done; lia.
Qed.

Lemma capped_stock_never_oversold_witness :
  ∃ g', giftTypes (apply_sends MoreScenarios.ring_shop
                     [(0, "00", MoreScenarios.three_rings); (1, "01", MoreScenarios.two_rings);
                      (2, "02", MoreScenarios.two_rings); (3, "03", Scenario.ten_crowns)])
        !! "ring" = Some g' ∧
        isLimited g' = true ∧ maxQuantity g' = Some 5 ∧
        soldQuantity (mkGiftType "Ring" None 10 true true (Some 5) 3) ≤ soldQuantity g' ∧
        soldQuantity g' ≤ 5.
Proof.
  apply (capped_stock_never_oversold
           [(0, "00", MoreScenarios.three_rings); (1, "01", MoreScenarios.two_rings);
            (2, "02", MoreScenarios.two_rings); (3, "03", Scenario.ten_crowns)]
           MoreScenarios.ring_shop "ring" (mkGiftType "Ring" None 10 true true (Some 5) 3) 5).
  - vm_compute; reflexivity.
  - reflexivity.
  - reflexivity.
  - discriminate.
  - simpl; lia.
Defined.

(** * Ledger rows of transfers and gifts *)

Section LedgerRows.
Import WalletService GiftService.
Implicit Types (s : Ledger.Store) (u : string) (n : Z).

(** The ledger row appended by a successful debit. *)
Lemma deductCoins_ledger s s' u n ty d rt ri md b :
  run (deductCoins u n ty d rt ri md) s = (Ok b, s') →
  b = balance_of s' u ∧ balance_of s' u = balance_of s u - n ∧ 0 < n ∧
  (∀ v, v ≠ u → wallets s' !! v = wallets s !! v) ∧
  ∃ wid, walletTransactions s'
         = walletTransactions s ++ [mkWalletTransaction wid ty (- n) b d rt ri md].
Proof.
  intros Hrun. destruct (deductCoins_cases s u n ty d rt ri md)
    as [[e He]|(w & Hw & _ & Hn & _ & Hok)]; [congruence|].
  rewrite Hok in Hrun. simplify_eq.
  rewrite balance_of_debited_same by done. unfold balance_of. rewrite Hw.
  split; [done|]. split; [done|]. split; [done|].
  split; [intros v Hv; by apply wallets_debited_other|]. by eexists.
Qed.

End LedgerRows.

(** X11: a successful transfer appends exactly two rows to the ledger: a
    GIFT_SENT row of -n for the sender and a GIFT_RECEIVED row of +n for the
    receiver, both with the description of the call, the reference type
    [peer_transfer] and the same transfer id as reference, and each with the
    balance its wallet has after the transfer. *)
Theorem transfer_rows_are_linked
    (now : Z) (rnd from to : string) (n : Z) (d msg : string) (s s' : Ledger.Store) :
  run (WalletService.transferCoins now rnd from to n d) s = (Ok msg, s') →
  ∃ wid1 wid2,
    walletTransactions s'
    = walletTransactions s ++
      [mkWalletTransaction wid1 GIFT_SENT (- n) (balance_of s' from) d (Some "peer_transfer")
                           (Some (WalletService.transferId_of now rnd)) None;
       mkWalletTransaction wid2 GIFT_RECEIVED n (balance_of s' to) d (Some "peer_transfer")
                           (Some (WalletService.transferId_of now rnd)) None].
Proof.
  intros Hrun.
  destruct (decide (from = to)) as [Heq|Hne].
  { by rewrite (proj1 (transferCoins_guards now rnd from to n d) Heq) in Hrun. }
  destruct (Z.leb_spec n 0) as [Hn|Hn].
  { by rewrite (proj2 (transferCoins_guards now rnd from to n d) Hne Hn) in Hrun. }
  rewrite transferCoins_run in Hrun by done.
  destruct (run (WalletService.deductCoins _ _ _ _ _ _ _) s) as [[b1|e] s1] eqn:Hd; [|done].
  destruct (run (WalletService.addCoins _ _ _ _ _ _ _) s1) as [[b2|e] s2] eqn:Ha; [|done].
  simplify_eq.
  apply deductCoins_ledger in Hd as (Hb1 & _ & _ & _ & wid1 & Hrows1).
  destruct (addCoins_ledger _ _ _ _ _ _ _ _ _ _ Ha) as (wid2 & Hrows2).
  apply addCoins_balance in Ha as (_ & Hb2 & Hother).
  exists wid1, wid2. rewrite Hrows2, Hrows1, <- app_assoc. simpl.
  unfold balance_of at 1. rewrite Hother by done.
  fold (balance_of s1 from). by rewrite <- Hb1, <- Hb2.
Qed.

Lemma transfer_rows_are_linked_witness :
  ∃ wid1 wid2,
    walletTransactions
      (snd (run (WalletService.transferCoins 0 "r" "A" "B" 300 "thanks") Scenario.A_1000))
    = walletTransactions Scenario.A_1000 ++
      [mkWalletTransaction wid1 GIFT_SENT (- 300)
         (balance_of (snd (run (WalletService.transferCoins 0 "r" "A" "B" 300 "thanks")
                               Scenario.A_1000)) "A")
         "thanks" (Some "peer_transfer") (Some (WalletService.transferId_of 0 "r")) None;
       mkWalletTransaction wid2 GIFT_RECEIVED 300
         (balance_of (snd (run (WalletService.transferCoins 0 "r" "A" "B" 300 "thanks")
                               Scenario.A_1000)) "B")
         "thanks" (Some "peer_transfer") (Some (WalletService.transferId_of 0 "r")) None].
Proof.
  apply (transfer_rows_are_linked 0 "r" "A" "B" 300 "thanks" "Transfer completed successfully"
           Scenario.A_1000).
  vm_compute; reflexivity.
Defined.

(** X12: a successful gift send appends exactly one audit row, with the
    parties, the gift type, the platform, the quantity, the total price, the
    message, the transaction id and the two fees that the call returns; and
    exactly two ledger rows, a GIFT_SENT row of minus the total cost and a
    GIFT_RECEIVED row of the price less both fees, both with the reference
    type [gift_transaction] and the transaction id as reference. *)
Theorem sendGift_records
    (now : Z) (rnd : string) (req : GiftService.SendGiftRequest)
    (s s' : Ledger.Store) (res : GiftService.SendGiftResult) :
  run (GiftService.sendGift now rnd req) s = (Ok res, s') →
  ∃ g wid1 wid2,
    let q := default 1 (GiftService.quantity req) in
    giftTypes s !! GiftService.giftTypeId req = Some g ∧
    GiftService.transactionId res = GiftService.transactionId_of now rnd ∧
    giftTransactions s'
    = giftTransactions s ++
      [mkGiftTransaction (GiftService.fromUserId req) (GiftService.toUserId req)
         (GiftService.giftTypeId req) (GiftService.platformId req) q (priceCoins g * q)
         (GiftService.message req) (GiftService.transactionId res)
         (GiftService.platformFee res) (GiftService.socialWalletFee res)] ∧
    walletTransactions s'
    = walletTransactions s ++
      [mkWalletTransaction wid1 GIFT_SENT (- GiftService.totalCost res)
         (balance_of s' (GiftService.fromUserId req)) (GiftService.sent_description q g)
         (Some "gift_transaction") (Some (GiftService.transactionId res)) None;
       mkWalletTransaction wid2 GIFT_RECEIVED
         (priceCoins g * q - GiftService.platformFee res - GiftService.socialWalletFee res)
         (balance_of s' (GiftService.toUserId req)) (GiftService.received_description q g)
         (Some "gift_transaction") (Some (GiftService.transactionId res)) None].
Proof.
  intros Hrun.
  destruct (sendGift_cases now rnd req s) as [(g & Hpass & Hset)|(e & He & _)];
    [|congruence].
  rewrite Hset in Hrun.
  apply gift_settlement_ok in Hrun
    as (pf & swf & b1 & s1 & b2 & s2 & _ & _ & Hd & Ha & -> & ->).
  destruct Hpass as (Hne & _ & _ & Hg & _).
  pose proof (deductCoins_catalog s (GiftService.fromUserId req)
                (priceCoins g * default 1 (GiftService.quantity req) + swf) GIFT_SENT
                (GiftService.sent_description (default 1 (GiftService.quantity req)) g)
                (Some "gift_transaction") (Some (GiftService.transactionId_of now rnd)) None)
    as (_ & _ & Hgx1 & _).
  rewrite Hd in Hgx1. simpl in Hgx1.
  pose proof (addCoins_catalog s1 (GiftService.toUserId req)
                (priceCoins g * default 1 (GiftService.quantity req) - pf - swf) GIFT_RECEIVED
                (GiftService.received_description (default 1 (GiftService.quantity req)) g)
                (Some "gift_transaction") (Some (GiftService.transactionId_of now rnd)) None)
    as (_ & _ & Hgx2 & _).
  rewrite Ha in Hgx2. simpl in Hgx2.
  apply deductCoins_ledger in Hd as (Hb1 & _ & _ & _ & wid1 & Hrows1).
  destruct (addCoins_ledger _ _ _ _ _ _ _ _ _ _ Ha) as (wid2 & Hrows2).
  apply addCoins_balance in Ha as (_ & Hb2 & Hother).
  exists g, wid1, wid2. cbv zeta. simpl.
  split; [done|]. split; [done|].
  assert (Hgt : giftTransactions
                  (gift_recorded req g (GiftService.transactionId_of now rnd) pf swf s2)
                = giftTransactions s2 ++
                  [mkGiftTransaction (GiftService.fromUserId req) (GiftService.toUserId req)
                     (GiftService.giftTypeId req) (GiftService.platformId req)
                     (default 1 (GiftService.quantity req))
                     (priceCoins g * default 1 (GiftService.quantity req))
                     (GiftService.message req) (GiftService.transactionId_of now rnd) pf swf]).
  { unfold gift_recorded. by destruct (isLimited g). }
  assert (Hwt : walletTransactions
                  (gift_recorded req g (GiftService.transactionId_of now rnd) pf swf s2)
                = walletTransactions s2).
  { unfold gift_recorded. by destruct (isLimited g). }
  split; [by rewrite Hgt, Hgx2, Hgx1|].
  rewrite Hwt, Hrows2, Hrows1, <- app_assoc. simpl.
  unfold balance_of. rewrite !wallets_gift_recorded. rewrite (Hother _ Hne).
  fold (balance_of s1 (GiftService.fromUserId req)).
  fold (balance_of s2 (GiftService.toUserId req)).
  by rewrite <- Hb1, <- Hb2.
Qed.

Lemma sendGift_records_witness :
  ∃ g wid1 wid2,
    let s := Scenario.gift_shop in
    let req := Scenario.two_roses in
    let res := GiftService.mkSendGiftResult "gift_0_00" 203 20 3 in
    let s' := snd (run (GiftService.sendGift 0 "00" Scenario.two_roses) Scenario.gift_shop) in
    let q := default 1 (GiftService.quantity req) in
    giftTypes s !! GiftService.giftTypeId req = Some g ∧
    GiftService.transactionId res = GiftService.transactionId_of 0 "00" ∧
    giftTransactions s'
    = giftTransactions s ++
      [mkGiftTransaction (GiftService.fromUserId req) (GiftService.toUserId req)
         (GiftService.giftTypeId req) (GiftService.platformId req) q (priceCoins g * q)
         (GiftService.message req) (GiftService.transactionId res)
         (GiftService.platformFee res) (GiftService.socialWalletFee res)] ∧
    walletTransactions s'
    = walletTransactions s ++
      [mkWalletTransaction wid1 GIFT_SENT (- GiftService.totalCost res)
         (balance_of s' (GiftService.fromUserId req)) (GiftService.sent_description q g)
         (Some "gift_transaction") (Some (GiftService.transactionId res)) None;
       mkWalletTransaction wid2 GIFT_RECEIVED
         (priceCoins g * q - GiftService.platformFee res - GiftService.socialWalletFee res)
         (balance_of s' (GiftService.toUserId req)) (GiftService.received_description q g)
         (Some "gift_transaction") (Some (GiftService.transactionId res)) None].
Proof.
  apply (sendGift_records 0 "00" Scenario.two_roses Scenario.gift_shop
           (snd (run (GiftService.sendGift 0 "00" Scenario.two_roses) Scenario.gift_shop))
           (GiftService.mkSendGiftResult "gift_0_00" 203 20 3)).
  vm_compute; reflexivity.
Defined.

(** X13: a gift that the sender cannot pay for is refused with the error of
    the debit and nothing is written: no ledger row, no audit row, no
    sold-count increment, and the receiver gets nothing. The amount asked of
    the sender is the price times the quantity plus the social-wallet fee:
    the send fails with WALLET_NOT_FOUND when the sender has no wallet, with
    WALLET_LOCKED when the wallet is locked, with INSUFFICIENT_BALANCE
    (carrying that amount and the balance) when the wallet holds less, and
    with INVALID_AMOUNT when the amount is not positive. *)
Theorem sendGift_unpaid_writes_nothing
    (now : Z) (rnd : string) (req : GiftService.SendGiftRequest)
    (s : Ledger.Store) (g : GiftType) (swf : Z) :
  gift_checks_pass s req g →
  GiftService.fee (priceCoins g * default 1 (GiftService.quantity req))
                  GiftService.socialWalletFeeRate = Some swf →
  let cost := priceCoins g * default 1 (GiftService.quantity req) + swf in
  (cost ≤ 0 → run (GiftService.sendGift now rnd req) s = (Err INVALID_AMOUNT, s)) ∧
  (0 < cost → wallets s !! GiftService.fromUserId req = None →
   run (GiftService.sendGift now rnd req) s = (Err WALLET_NOT_FOUND, s)) ∧
  (∀ w, 0 < cost → wallets s !! GiftService.fromUserId req = Some w → isLocked w = true →
        run (GiftService.sendGift now rnd req) s = (Err WALLET_LOCKED, s)) ∧
  (∀ w, 0 < cost → wallets s !! GiftService.fromUserId req = Some w → isLocked w = false →
        balanceCoins w < cost →
        run (GiftService.sendGift now rnd req) s
        = (Err (INSUFFICIENT_BALANCE cost (balanceCoins w)), s)).
Proof.
  intros Hpass Hswf cost.
  rewrite (sendGift_run now rnd req g s Hpass). unfold gift_settlement. rewrite Hswf.
  fold cost. split; [|split; [|split]].
  - intros Hcost. by rewrite deductCoins_invalid.
  - intros Hcost Hw. by rewrite deductCoins_not_found.
  - intros w Hcost Hw Hl. by rewrite (deductCoins_locked s _ w).
  - intros w Hcost Hw Hl Hb. by rewrite (deductCoins_insufficient s _ w).
Qed.

(** A free leaf; a crown sent by C, who has no wallet; ten crowns sent from
    the locked wallet of A; thirty crowns, which cost 1523 coins, sent by A,
    who holds 1000. *)
Lemma sendGift_unpaid_writes_nothing_witness :
  run (GiftService.sendGift 0 "00" UnpaidScenario.a_leaf) UnpaidScenario.leaf_shop
  = (Err INVALID_AMOUNT, UnpaidScenario.leaf_shop) ∧
  run (GiftService.sendGift 0 "00" UnpaidScenario.crown_from_C) Scenario.gift_shop
  = (Err WALLET_NOT_FOUND, Scenario.gift_shop) ∧
  run (GiftService.sendGift 0 "00" Scenario.ten_crowns) UnpaidScenario.locked_shop
  = (Err WALLET_LOCKED, UnpaidScenario.locked_shop) ∧
  run (GiftService.sendGift 0 "00" UnpaidScenario.thirty_crowns) Scenario.gift_shop
  = (Err (INSUFFICIENT_BALANCE (50 * 30 + 23) 1000), Scenario.gift_shop).
Proof.
  split; [|split; [|split]].
  - apply (proj1 (sendGift_unpaid_writes_nothing 0 "00" UnpaidScenario.a_leaf
                    UnpaidScenario.leaf_shop (mkGiftType "Leaf" None 0 true false None 0) 0
                    ltac:(vm_compute; repeat split; (reflexivity || discriminate))
                    ltac:(vm_compute; reflexivity))).
    simpl; lia.
  - apply (proj1 (proj2 (sendGift_unpaid_writes_nothing 0 "00" UnpaidScenario.crown_from_C
                    Scenario.gift_shop (mkGiftType "Crown" None 50 true true None 7) 1
                    ltac:(vm_compute; repeat split; (reflexivity || discriminate))
                    ltac:(vm_compute; reflexivity)))).
    + simpl; lia.
    + vm_compute; reflexivity.
  - apply (proj1 (proj2 (proj2 (sendGift_unpaid_writes_nothing 0 "00" Scenario.ten_crowns
                    UnpaidScenario.locked_shop (mkGiftType "Crown" None 50 true true None 7) 8
                    ltac:(vm_compute; repeat split; (reflexivity || discriminate))
                    ltac:(vm_compute; reflexivity))))
             (mkWallet 0 "A" 1000 0 1000 true)).
    + simpl; lia.
    + vm_compute; reflexivity.
    + reflexivity.
  - apply (proj2 (proj2 (proj2 (sendGift_unpaid_writes_nothing 0 "00"
                    UnpaidScenario.thirty_crowns
                    Scenario.gift_shop (mkGiftType "Crown" None 50 true true None 7) 23
                    ltac:(vm_compute; repeat split; (reflexivity || discriminate))
                    ltac:(vm_compute; reflexivity))))
             (mkWallet 0 "A" 1000 0 1000 false)).
    + simpl; lia.
    + vm_compute; reflexivity.
    + reflexivity.
    + simpl; lia.
Defined.

(** * Further properties of the payment events *)

Section PaymentEvents.
Import WalletService StripeService StripePayments.
Implicit Types (s : Ledger.Store) (n : Z).

Lemma handlePaymentSuccess_no_metadata now paymentIntent s :
  Js.truthy_opt Js.truthy_string (metadata_userId paymentIntent) = false ∨
  Js.truthy_opt Js.truthy_string (metadata_coins paymentIntent) = false →
  run (handlePaymentSuccess now paymentIntent) s = (Ok tt, s).
Proof.
  unfold handlePaymentSuccess.
  destruct (metadata_userId paymentIntent) as [u|], (metadata_coins paymentIntent) as [c|];
    simpl; try done.
  intros [->| ->]; simpl; [done|]. by rewrite orb_true_r.
Qed.

Lemma handlePaymentSuccess_no_record now paymentIntent s u coins :
  metadata_userId paymentIntent = Some u → Js.truthy_string u = true →
  metadata_coins paymentIntent = Some coins → Js.truthy_string coins = true →
  stripePayments s !! pi_id paymentIntent = None →
  run (handlePaymentSuccess now paymentIntent) s = (Err RECORD_NOT_FOUND, s).
Proof.
  intros Hu Htu Hc Htc Hp. unfold handlePaymentSuccess. rewrite Hu, Hc, Htu, Htc. simpl.
  unfold run at 1. unfold transaction at 1. unfold bind at 1.
  unfold stripePayment_update, bind, read, seen, view. simpl. by rewrite Hp.
Qed.

Lemma handlePaymentSuccess_not_a_number now paymentIntent s u coins p :
  metadata_userId paymentIntent = Some u → Js.truthy_string u = true →
  metadata_coins paymentIntent = Some coins → Js.truthy_string coins = true →
  Js.parseInt coins = None →
  stripePayments s !! pi_id paymentIntent = Some p →
  run (handlePaymentSuccess now paymentIntent) s = (Err STORE_VALIDATION, s).
Proof.
  intros Hu Htu Hc Htc Hn Hp. unfold handlePaymentSuccess. rewrite Hu, Hc, Htu, Htc. simpl.
  rewrite Hn. unfold run at 1. unfold transaction at 1. unfold bind at 1. unfold bind at 1.
  unfold stripePayment_update, bind, read, write, seen, view, throw. simpl. by rewrite Hp.
Qed.

Lemma stripePayment_update_run s id (f : StripePayment → StripePayment) :
  run (stripePayment_update prisma id f) s
  = match stripePayments s !! id with
    | Some _ => (Ok tt, with_stripePayments (alter f id) s)
    | None => (Err RECORD_NOT_FOUND, s)
    end.
Proof. unfold_async. by destruct (stripePayments s !! id). Qed.

(** [refundPayment] on a payment that succeeded, once the processor has
    created the refund: the status is set, then the coins are debited. *)
Lemma refundPayment_run s id p refund :
  stripePayments s !! id = Some p → sp_status p = SUCCEEDED →
  run (refundPayment (Some refund) id) s =
  match run (deductCoins (sp_userId p) (sp_coins p) REFUND ("Refund for payment " +:+ id)
               (Some "stripe_refund") (Some (rf_id refund)) None)
            (with_stripePayments (alter (set_status REFUNDED) id) s) with
  | (Ok _, s') =>
      (Ok (inr (mkRefundResult (rf_id refund)
                  (match rf_amount refund with
                   | Some n => if Js.truthy_int n then n else 0
                   | None => 0
                   end)
                  (match rf_status refund with
                   | Some st => if Js.truthy_string st then st else "unknown"
                   | None => "unknown"
                   end))), s')
  | (Err e, s') => (Err e, s')
  end.
Proof.
  intros Hp Hst. unfold refundPayment.
  unfold run at 1. unfold bind at 1. unfold read at 1. cbn [seen committed].
  rewrite Hp, Hst. unfold bind at 1.
  unfold stripePayment_update, bind, read, write. cbn [seen committed pending].
  rewrite Hp. rewrite deductCoins_ctx. cbn [committed pending fst snd].
  by destruct (run (deductCoins _ _ _ _ _ _ _) _) as [[b|e] s'].
Qed.

Lemma refundPayment_refused s id stripe :
  (stripePayments s !! id = None →
   run (refundPayment stripe id) s = (Ok (inl PAYMENT_NOT_FOUND), s)) ∧
  (∀ p, stripePayments s !! id = Some p → sp_status p ≠ SUCCEEDED →
        run (refundPayment stripe id) s = (Ok (inl INVALID_PAYMENT_STATUS), s)) ∧
  (∀ p, stripePayments s !! id = Some p → sp_status p = SUCCEEDED → stripe = None →
        run (refundPayment stripe id) s = (Ok (inl STRIPE_REFUND_ERROR), s)).
Proof.
  unfold refundPayment, run, bind, read, ret. cbn [seen committed].
  split; [|split].
  - by intros ->.
  - intros p -> Hst. by destruct (sp_status p).
  - by intros p -> -> ->.
Qed.

End PaymentEvents.

(** X14: the success handler does nothing when the event carries no user id
    or no coin amount; fails with the store's record-not-found error when
    there is no payment record; and fails with INVALID_AMOUNT when the coin
    amount is not positive, or with the store's validation error when it is
    not a number. In none of these cases is a wallet credited, and the status
    update made before the failed credit is rolled back: the store is as it
    was. *)
Theorem handlePaymentSuccess_refusals
    (now : Z) (paymentIntent : StripeService.PaymentIntent) (s : Ledger.Store) :
  (Js.truthy_opt Js.truthy_string (StripeService.metadata_userId paymentIntent) = false ∨
   Js.truthy_opt Js.truthy_string (StripeService.metadata_coins paymentIntent) = false →
   run (StripeService.handlePaymentSuccess now paymentIntent) s = (Ok tt, s)) ∧
  (∀ u coins,
     StripeService.metadata_userId paymentIntent = Some u → Js.truthy_string u = true →
     StripeService.metadata_coins paymentIntent = Some coins →
     Js.truthy_string coins = true →
     (stripePayments s !! StripeService.pi_id paymentIntent = None →
      run (StripeService.handlePaymentSuccess now paymentIntent) s
      = (Err RECORD_NOT_FOUND, s)) ∧
     (∀ p, stripePayments s !! StripeService.pi_id paymentIntent = Some p →
           (Js.parseInt coins = None →
            run (StripeService.handlePaymentSuccess now paymentIntent) s
            = (Err STORE_VALIDATION, s)) ∧
           (∀ n, Js.parseInt coins = Some n → n ≤ 0 →
                 run (StripeService.handlePaymentSuccess now paymentIntent) s
                 = (Err INVALID_AMOUNT, s)))).
Proof.
  split; [apply handlePaymentSuccess_no_metadata|].
  intros u coins Hu Htu Hc Htc. split.
  - by apply handlePaymentSuccess_no_record with u coins.
  - intros p Hp. split.
    + intros Hn. by apply handlePaymentSuccess_not_a_number with u coins p.
    + intros n Hn Hle.
      rewrite (handlePaymentSuccess_run now paymentIntent s u coins n p) by done.
      by rewrite addCoins_invalid.
Qed.

Lemma handlePaymentSuccess_refusals_witness :
  run (StripeService.handlePaymentSuccess 1000 MoreScenarios.event_no_metadata)
      Scenario.payment_pending = (Ok tt, Scenario.payment_pending) ∧
  run (StripeService.handlePaymentSuccess 1000 Scenario.payment_event) empty_store
  = (Err RECORD_NOT_FOUND, empty_store) ∧
  run (StripeService.handlePaymentSuccess 1000 MoreScenarios.event_bad_coins)
      Scenario.payment_pending = (Err STORE_VALIDATION, Scenario.payment_pending) ∧
  run (StripeService.handlePaymentSuccess 1000 MoreScenarios.event_zero_coins)
      Scenario.payment_pending = (Err INVALID_AMOUNT, Scenario.payment_pending).
Proof.
  split; [|split; [|split]].
  - apply (proj1 (handlePaymentSuccess_refusals 1000 MoreScenarios.event_no_metadata
                    Scenario.payment_pending)). by left.
  - apply (proj1 (proj2 (handlePaymentSuccess_refusals 1000 Scenario.payment_event empty_store)
                    "A" "500" eq_refl eq_refl eq_refl eq_refl)).
    vm_compute; reflexivity.
  - apply (proj1 (proj2 (proj2 (handlePaymentSuccess_refusals 1000
                                  MoreScenarios.event_bad_coins Scenario.payment_pending)
                           "A" "many" eq_refl eq_refl eq_refl eq_refl)
                    (mkStripePayment "A" 500 500 PENDING None) ltac:(vm_compute; reflexivity))).
    reflexivity.
  - apply (proj2 (proj2 (proj2 (handlePaymentSuccess_refusals 1000
                                  MoreScenarios.event_zero_coins Scenario.payment_pending)
                           "A" "0" eq_refl eq_refl eq_refl eq_refl)
                    (mkStripePayment "A" 500 500 PENDING None) ltac:(vm_compute; reflexivity))
             0); [reflexivity | lia].
Defined.

(** X15: a failed or canceled event sets the status of the payment record
    whatever the status was, and touches no wallet and no ledger row: coins
    credited by an earlier success event stay. After it the payment cannot be
    refunded: [refundPayment] answers INVALID_PAYMENT_STATUS. Without a
    payment record the event fails with the store's record-not-found error. *)
Theorem failure_event_sets_status_only
    (paymentIntent : StripeService.PaymentIntent) (s : Ledger.Store) :
  (∀ p, stripePayments s !! StripeService.pi_id paymentIntent = Some p →
        ∃ s1 s2,
          run (StripePayments.handlePaymentFailed paymentIntent) s = (Ok tt, s1) ∧
          run (StripePayments.handlePaymentCanceled paymentIntent) s = (Ok tt, s2) ∧
          (sp_status <$> stripePayments s1 !! StripeService.pi_id paymentIntent) = Some FAILED ∧
          (sp_status <$> stripePayments s2 !! StripeService.pi_id paymentIntent)
          = Some CANCELED ∧
          wallets s1 = wallets s ∧ walletTransactions s1 = walletTransactions s ∧
          wallets s2 = wallets s ∧ walletTransactions s2 = walletTransactions s ∧
          ∀ stripe,
            run (StripePayments.refundPayment stripe (StripeService.pi_id paymentIntent)) s1
            = (Ok (inl StripePayments.INVALID_PAYMENT_STATUS), s1) ∧
            run (StripePayments.refundPayment stripe (StripeService.pi_id paymentIntent)) s2
            = (Ok (inl StripePayments.INVALID_PAYMENT_STATUS), s2)) ∧
  (stripePayments s !! StripeService.pi_id paymentIntent = None →
   run (StripePayments.handlePaymentFailed paymentIntent) s = (Err RECORD_NOT_FOUND, s) ∧
   run (StripePayments.handlePaymentCanceled paymentIntent) s = (Err RECORD_NOT_FOUND, s)).
Proof.
  unfold StripePayments.handlePaymentFailed, StripePayments.handlePaymentCanceled.
  rewrite !stripePayment_update_run. split.
  - intros p Hp. rewrite Hp. eexists _, _. split; [done|]. split; [done|].
    simpl. rewrite !lookup_alter_eq, Hp. simpl.
    split; [done|]. split; [done|]. split; [done|]. split; [done|].
    split; [done|]. split; [done|]. intros stripe. split.
    + apply (proj1 (proj2 (refundPayment_refused _ _ stripe))
               (StripePayments.set_status FAILED p)); [|done].
      simpl. by rewrite lookup_alter_eq, Hp.
    + apply (proj1 (proj2 (refundPayment_refused _ _ stripe))
               (StripePayments.set_status CANCELED p)); [|done].
      simpl. by rewrite lookup_alter_eq, Hp.
  - intros Hp. by rewrite Hp.
Qed.

Lemma failure_event_sets_status_only_witness :
  (∃ s1 s2,
     run (StripePayments.handlePaymentFailed Scenario.payment_event) MoreScenarios.paid
     = (Ok tt, s1) ∧
     run (StripePayments.handlePaymentCanceled Scenario.payment_event) MoreScenarios.paid
     = (Ok tt, s2) ∧
     (sp_status <$> stripePayments s1 !! "pi_1") = Some FAILED ∧
     (sp_status <$> stripePayments s2 !! "pi_1") = Some CANCELED ∧
     wallets s1 = wallets MoreScenarios.paid ∧
     walletTransactions s1 = walletTransactions MoreScenarios.paid ∧
     wallets s2 = wallets MoreScenarios.paid ∧
     walletTransactions s2 = walletTransactions MoreScenarios.paid ∧
     ∀ stripe,
       run (StripePayments.refundPayment stripe "pi_1") s1
       = (Ok (inl StripePayments.INVALID_PAYMENT_STATUS), s1) ∧
       run (StripePayments.refundPayment stripe "pi_1") s2
       = (Ok (inl StripePayments.INVALID_PAYMENT_STATUS), s2)) ∧
  (run (StripePayments.handlePaymentFailed Scenario.payment_event) empty_store
   = (Err RECORD_NOT_FOUND, empty_store) ∧
   run (StripePayments.handlePaymentCanceled Scenario.payment_event) empty_store
   = (Err RECORD_NOT_FOUND, empty_store)).
Proof.
  split.
  - apply (proj1 (failure_event_sets_status_only Scenario.payment_event MoreScenarios.paid)
             (mkStripePayment "A" 500 500 SUCCEEDED (Some 1000))).
    vm_compute; reflexivity.
  - apply (proj2 (failure_event_sets_status_only Scenario.payment_event empty_store)).
    vm_compute; reflexivity.
Defined.

(** X16: [refundPayment] is gated by the status of the payment record, and by
    nothing else. When it is called for a payment that succeeded and the
    processor creates the refund, the record is REFUNDED afterwards whether
    or not the coins could be taken back, and a refund asked in that state
    answers INVALID_PAYMENT_STATUS and changes nothing, as for every record
    whose status is not SUCCEEDED; when the processor fails, nothing changes.
    The gate can be opened again: a success event delivered for the payment,
    whatever the status of the record, sets it to SUCCEEDED, and the next
    [refundPayment] is sent to the processor and marks the record REFUNDED
    once more. *)
Theorem refund_gated_by_status
    (s : Ledger.Store) (id : string) (p : StripePayment)
    (refund : StripePayments.StripeRefund) :
  stripePayments s !! id = Some p →
  (sp_status p = SUCCEEDED →
   ∃ r s1,
     run (StripePayments.refundPayment (Some refund) id) s = (r, s1) ∧
     (sp_status <$> stripePayments s1 !! id) = Some REFUNDED ∧
     ∀ stripe, run (StripePayments.refundPayment stripe id) s1
               = (Ok (inl StripePayments.INVALID_PAYMENT_STATUS), s1)) ∧
  (sp_status p = SUCCEEDED →
   run (StripePayments.refundPayment None id) s
   = (Ok (inl StripePayments.STRIPE_REFUND_ERROR), s)) ∧
  (sp_status p ≠ SUCCEEDED →
   ∀ stripe, run (StripePayments.refundPayment stripe id) s
             = (Ok (inl StripePayments.INVALID_PAYMENT_STATUS), s)) ∧
  (∀ now event u coins n,
     StripeService.pi_id event = id →
     StripeService.metadata_userId event = Some u → Js.truthy_string u = true →
     StripeService.metadata_coins event = Some coins → Js.parseInt coins = Some n → 0 < n →
     ∃ s2,
       run (StripeService.handlePaymentSuccess now event) s = (Ok tt, s2) ∧
       (sp_status <$> stripePayments s2 !! id) = Some SUCCEEDED ∧
       ∃ r s3,
         run (StripePayments.refundPayment (Some refund) id) s2 = (r, s3) ∧
         (sp_status <$> stripePayments s3 !! id) = Some REFUNDED).
Proof.
  intros Hp.
  assert (Hrefund : ∀ s0 p0,
            stripePayments s0 !! id = Some p0 → sp_status p0 = SUCCEEDED →
            ∃ r s1,
              run (StripePayments.refundPayment (Some refund) id) s0 = (r, s1) ∧
              stripePayments s1 !! id = Some (StripePayments.set_status REFUNDED p0)).
  { intros s0 p0 Hp0 Hst. eexists _, _. split; [apply surjective_pairing|].
    rewrite (refundPayment_run s0 id p0 refund Hp0 Hst).
    pose proof (deductCoins_catalog
                  (with_stripePayments (alter (StripePayments.set_status REFUNDED) id) s0)
                  (sp_userId p0) (sp_coins p0) REFUND ("Refund for payment " +:+ id)
                  (Some "stripe_refund") (Some (StripePayments.rf_id refund)) None)
      as (_ & _ & _ & Hsp).
    destruct (run (WalletService.deductCoins _ _ _ _ _ _ _) _) as [[b|e] s1]; simpl in *;
      rewrite Hsp; simpl; by rewrite lookup_alter_eq, Hp0. }
  split; [|split; [|split]].
  - intros Hst. destruct (Hrefund s p Hp Hst) as (r & s1 & Hrun & Hp1).
    exists r, s1. split; [done|]. split; [by rewrite Hp1|]. intros stripe.
    by apply (proj1 (proj2 (refundPayment_refused s1 id stripe))
                (StripePayments.set_status REFUNDED p) Hp1).
  - intros Hst. by apply (proj2 (proj2 (refundPayment_refused s id None)) p).
  - intros Hst stripe. by apply (proj1 (proj2 (refundPayment_refused s id stripe)) p).
  - intros now event u coins n Hid Hu Htu Hc Hn Hpos. subst id.
    destruct (handlePaymentSuccess_credits now event s u coins n p Hu Htu Hc Hn Hpos Hp)
      as (s2 & row & Hrun & _ & _ & _ & _ & _ & Hp2).
    exists s2. split; [done|]. split; [by rewrite Hp2|].
    destruct (Hrefund s2 _ Hp2 eq_refl) as (r & s3 & Hrun3 & Hp3).
    exists r, s3. split; [done|]. by rewrite Hp3.
Qed.

(** The top-up of 500 coins is refunded; its success event is then delivered
    once more, and the payment is refunded a second time. *)
Lemma refund_gated_by_status_witness :
  (∃ r s1,
     run (StripePayments.refundPayment (Some MoreScenarios.a_refund) "pi_1") MoreScenarios.paid
     = (r, s1) ∧
     (sp_status <$> stripePayments s1 !! "pi_1") = Some REFUNDED ∧
     ∀ stripe, run (StripePayments.refundPayment stripe "pi_1") s1
               = (Ok (inl StripePayments.INVALID_PAYMENT_STATUS), s1)) ∧
  (∃ s2,
     run (StripeService.handlePaymentSuccess 2000 Scenario.payment_event)
         RefundScenario.refunded
     = (Ok tt, s2) ∧
     (sp_status <$> stripePayments s2 !! "pi_1") = Some SUCCEEDED ∧
     ∃ r s3,
       run (StripePayments.refundPayment (Some MoreScenarios.a_refund) "pi_1") s2 = (r, s3) ∧
       (sp_status <$> stripePayments s3 !! "pi_1") = Some REFUNDED).
Proof.
  split.
  - apply (proj1 (refund_gated_by_status MoreScenarios.paid "pi_1"
                    (mkStripePayment "A" 500 500 SUCCEEDED (Some 1000)) MoreScenarios.a_refund
                    ltac:(vm_compute; reflexivity))).
    reflexivity.
  - apply (proj2 (proj2 (proj2 (refund_gated_by_status RefundScenario.refunded "pi_1"
                    (mkStripePayment "A" 500 500 REFUNDED (Some 1000)) MoreScenarios.a_refund
                    ltac:(vm_compute; reflexivity))))
             2000 Scenario.payment_event "A" "500" 500).
    + reflexivity.
    + reflexivity.
    + reflexivity.
    + reflexivity.
    + vm_compute; reflexivity.
    + lia.
Defined.

(** The ledger of A after the top-up, its refund, the success event delivered
    again and the second refund. *)
Example refunded_twice :
  wt_amount <$> walletTransactions
                  (snd (run (StripePayments.refundPayment (Some MoreScenarios.a_refund) "pi_1")
                            (snd (run (StripeService.handlePaymentSuccess 2000
                                         Scenario.payment_event)
                                      RefundScenario.refunded))))
  = [500; -500; 500; -500].
Proof. vm_compute; reflexivity. Qed.

(** X17: when the coins of a payment have been spent, the refund is recorded
    but no coin is taken back: with a wallet that is missing, locked or holds
    less than the coins of the payment, [refundPayment] fails with the error
    of the debit after the processor has created the refund and the record
    has been set to REFUNDED; the wallets and the ledger are as before. With
    an unlocked wallet that holds enough, the coins of the payment are
    debited in a REFUND row. *)
Theorem refund_and_the_wallet
    (s : Ledger.Store) (id : string) (p : StripePayment)
    (refund : StripePayments.StripeRefund) :
  stripePayments s !! id = Some p → sp_status p = SUCCEEDED → 0 < sp_coins p →
  (∀ e, (wallets s !! sp_userId p = None ∧ e = WALLET_NOT_FOUND) ∨
        (∃ w, wallets s !! sp_userId p = Some w ∧
              ((isLocked w = true ∧ e = WALLET_LOCKED) ∨
               (isLocked w = false ∧ balanceCoins w < sp_coins p ∧
                e = INSUFFICIENT_BALANCE (sp_coins p) (balanceCoins w)))) →
        ∃ s1, run (StripePayments.refundPayment (Some refund) id) s = (Err e, s1) ∧
              (sp_status <$> stripePayments s1 !! id) = Some REFUNDED ∧
              wallets s1 = wallets s ∧ walletTransactions s1 = walletTransactions s) ∧
  (∀ w, wallets s !! sp_userId p = Some w → isLocked w = false →
        sp_coins p ≤ balanceCoins w →
        ∃ res s1, run (StripePayments.refundPayment (Some refund) id) s = (Ok (inr res), s1) ∧
                  StripePayments.refundId res = StripePayments.rf_id refund ∧
                  balance_of s1 (sp_userId p) = balanceCoins w - sp_coins p ∧
                  (wt_type <$> last (walletTransactions s1)) = Some REFUND ∧
                  (wt_amount <$> last (walletTransactions s1)) = Some (- sp_coins p)).
Proof.
  intros Hp Hst Hpos.
  assert (Hp1 : stripePayments (with_stripePayments
                                  (alter (StripePayments.set_status REFUNDED) id) s) !! id
                = Some (StripePayments.set_status REFUNDED p)).
  { simpl. by rewrite lookup_alter_eq, Hp. }
  split.
  - intros e Hcase. eexists. rewrite (refundPayment_run s id p refund Hp Hst).
    destruct Hcase as [[Hw ->]|(w & Hw & [[Hl ->]|(Hl & Hb & ->)])].
    + rewrite deductCoins_not_found by done. split; [done|]. by rewrite Hp1.
    + rewrite (deductCoins_locked _ _ w) by done. split; [done|]. by rewrite Hp1.
    + rewrite (deductCoins_insufficient _ _ w) by done. split; [done|]. by rewrite Hp1.
  - intros w Hw Hl Hb. eexists _, _. rewrite (refundPayment_run s id p refund Hp Hst).
    rewrite (deductCoins_ok _ _ w) by done. split; [done|]. split; [done|].
    split; [by rewrite balance_of_debited_same|].
    unfold debited. simpl. by rewrite !last_snoc.
Qed.

Lemma refund_and_the_wallet_witness :
  (∃ s1, run (StripePayments.refundPayment (Some MoreScenarios.a_refund) "pi_1")
             MoreScenarios.paid_and_spent
         = (Err (INSUFFICIENT_BALANCE 500 300), s1) ∧
         (sp_status <$> stripePayments s1 !! "pi_1") = Some REFUNDED ∧
         wallets s1 = wallets MoreScenarios.paid_and_spent ∧
         walletTransactions s1 = walletTransactions MoreScenarios.paid_and_spent) ∧
  (∃ res s1, run (StripePayments.refundPayment (Some MoreScenarios.a_refund) "pi_1")
                 MoreScenarios.paid = (Ok (inr res), s1) ∧
             StripePayments.refundId res = "re_1" ∧
             balance_of s1 "A" = 500 - 500 ∧
             (wt_type <$> last (walletTransactions s1)) = Some REFUND ∧
             (wt_amount <$> last (walletTransactions s1)) = Some (- 500)).
Proof.
  split.
  - apply (proj1 (refund_and_the_wallet MoreScenarios.paid_and_spent "pi_1"
                    (mkStripePayment "A" 500 500 SUCCEEDED (Some 1000)) MoreScenarios.a_refund
                    ltac:(vm_compute; reflexivity) eq_refl ltac:(simpl; lia))).
    right. exists (mkWallet 0 "A" 300 200 500 false).
    split; [vm_compute; reflexivity|]. right. split; [reflexivity|]. split; [simpl; lia|].
    reflexivity.
  - apply (proj2 (refund_and_the_wallet MoreScenarios.paid "pi_1"
                    (mkStripePayment "A" 500 500 SUCCEEDED (Some 1000)) MoreScenarios.a_refund
                    ltac:(vm_compute; reflexivity) eq_refl ltac:(simpl; lia))
             (mkWallet 0 "A" 500 0 500 false)).
    + vm_compute; reflexivity.
    + reflexivity.
    + simpl; lia.
Defined.

(** * The ledger invariant under every service call *)

Section InvariantEverywhere.
Import WalletService.
Implicit Types (s : Ledger.Store) (u : string).

Lemma ledger_invariant_same_ledger s s' :
  same_ledger s s' → ledger_invariant s → ledger_invariant s'.
Proof.
  intros (Hw & Hn & Hr) (Hcons & Huniq & Hrows).
  unfold ledger_invariant, wallet_consistent, ledger_sum, history.
  rewrite Hw, Hn, Hr. done.
Qed.

Lemma ledger_invariant_addCoins s u n ty d rt ri md :
  ledger_invariant s → ledger_invariant (snd (run (addCoins u n ty d rt ri md) s)).
Proof. intros Hinv. exact (ledger_invariant_apply_op s (Credit u n ty d rt ri md) Hinv). Qed.

Lemma ledger_invariant_deductCoins s u n ty d rt ri md :
  ledger_invariant s → ledger_invariant (snd (run (deductCoins u n ty d rt ri md) s)).
Proof. intros Hinv. exact (ledger_invariant_apply_op s (Debit u n ty d rt ri md) Hinv). Qed.

Lemma ledger_invariant_set_isLocked s u b :
  ledger_invariant s → ledger_invariant (with_wallets (alter (set_isLocked b) u) s).
Proof.
  intros (Hcons & Huniq & Hrows).
  assert (Hlook : ∀ v w', alter (set_isLocked b) u (wallets s) !! v = Some w' →
            ∃ w0, wallets s !! v = Some w0 ∧ w_id w' = w_id w0 ∧
                  balanceCoins w' = balanceCoins w0).
  { intros v w' Hv. destruct (decide (u = v)) as [<-|Hne].
    - rewrite lookup_alter_eq in Hv. destruct (wallets s !! u) as [w0|]; [|done].
      simpl in Hv. simplify_eq. by exists w0.
    - rewrite lookup_alter_ne in Hv by done. by exists w'. }
  split; [|split].
  - intros v w' Hv. simpl in Hv. apply Hlook in Hv as (w0 & Hv0 & Hid & Hbal).
    destruct (Hcons v w0 Hv0) as [[Hsum Hnn] Hlt].
    unfold wallet_consistent. rewrite Hid, Hbal. simpl. done.
  - intros v1 v2 w1 w2 H1 H2 Heq. simpl in H1, H2.
    apply Hlook in H1 as (w1' & H1 & Hid1 & _). apply Hlook in H2 as (w2' & H2 & Hid2 & _).
    apply (Huniq v1 v2 w1' w2'); congruence.
  - done.
Qed.

Lemma ledger_invariant_apply_call s call :
  ledger_invariant s → ledger_invariant (apply_call s call).
Proof.
  intros Hinv. destruct call as [u|u|op|u|u|now rnd from to n d|now rnd req
                                |now paymentIntent|paymentIntent|paymentIntent|stripe id];
    simpl.
  - (* createWallet *)
    destruct (wallets s !! u) as [w|] eqn:Hw.
    + by rewrite (createWallet_exists s u w).
    + rewrite createWallet_new by done. by apply ledger_invariant_fresh.
  - (* getWalletBalance *)
    destruct (wallets s !! u) as [w|] eqn:Hw.
    + by rewrite (getWalletBalance_existing s u w).
    + rewrite getWalletBalance_new by done. by apply ledger_invariant_fresh.
  - by apply ledger_invariant_apply_op.
  - (* lockWallet *)
    destruct (wallets s !! u) as [w|] eqn:Hw.
    + rewrite (lockWallet_run s u w) by done. by apply ledger_invariant_set_isLocked.
    + by rewrite lockWallet_missing.
  - (* unlockWallet *)
    destruct (wallets s !! u) as [w|] eqn:Hw.
    + rewrite (unlockWallet_run s u w) by done. by apply ledger_invariant_set_isLocked.
    + by rewrite unlockWallet_missing.
  - (* transferCoins *)
    destruct (decide (from = to)) as [Heq|Hne].
    { by rewrite (proj1 (transferCoins_guards now rnd from to n d) Heq). }
    destruct (Z.leb_spec n 0) as [Hn|Hn].
    { by rewrite (proj2 (transferCoins_guards now rnd from to n d) Hne Hn). }
    rewrite transferCoins_run by done.
    pose proof (ledger_invariant_deductCoins s from n GIFT_SENT d (Some "peer_transfer")
                  (Some (transferId_of now rnd)) None Hinv) as H1.
    destruct (run (deductCoins _ _ _ _ _ _ _) s) as [[b1|e] s1]; [|done].
    simpl in H1.
    pose proof (ledger_invariant_addCoins s1 to n GIFT_RECEIVED d (Some "peer_transfer")
                  (Some (transferId_of now rnd)) None H1) as H2.
    by destruct (run (addCoins _ _ _ _ _ _ _) s1) as [[b2|e] s2].
  - (* sendGift *)
    destruct (sendGift_cases now rnd req s) as [(g & Hpass & Hset)|(e & He & _)].
    2: { by rewrite He. }
    rewrite Hset. unfold gift_settlement.
    destruct (GiftService.fee _ GiftService.socialWalletFeeRate) as [swf|]; [|done].
    pose proof (ledger_invariant_deductCoins s (GiftService.fromUserId req)
                  (priceCoins g * default 1 (GiftService.quantity req) + swf) GIFT_SENT
                  (GiftService.sent_description (default 1 (GiftService.quantity req)) g)
                  (Some "gift_transaction") (Some (GiftService.transactionId_of now rnd))
                  None Hinv) as H1.
    destruct (run (deductCoins _ _ _ _ _ _ _) s) as [[b1|e] s1]; [|done].
    simpl in H1.
    destruct (GiftService.fee _ (GiftService.platformFeeRate_of _)) as [pf|]; [|done].
    pose proof (ledger_invariant_addCoins s1 (GiftService.toUserId req)
                  (priceCoins g * default 1 (GiftService.quantity req) - pf - swf)
                  GIFT_RECEIVED
                  (GiftService.received_description (default 1 (GiftService.quantity req)) g)
                  (Some "gift_transaction") (Some (GiftService.transactionId_of now rnd))
                  None H1) as H2.
    destruct (run (addCoins _ _ _ _ _ _ _) s1) as [[b2|e] s2]; [|done].
    simpl in *. apply (ledger_invariant_same_ledger s2); [|done].
    unfold gift_recorded. by destruct (isLimited g).
  - (* handlePaymentSuccess *)
    destruct (StripeService.metadata_userId paymentIntent) as [u|] eqn:Hu.
    2: { rewrite handlePaymentSuccess_no_metadata; [done|]. left. by rewrite Hu. }
    destruct (StripeService.metadata_coins paymentIntent) as [coins|] eqn:Hc.
    2: { rewrite handlePaymentSuccess_no_metadata; [done|]. right. by rewrite Hc. }
    destruct (Js.truthy_string u) eqn:Htu.
    2: { rewrite handlePaymentSuccess_no_metadata; [done|]. left. by rewrite Hu. }
    destruct (Js.truthy_string coins) eqn:Htc.
    2: { rewrite handlePaymentSuccess_no_metadata; [done|]. right. by rewrite Hc. }
    destruct (stripePayments s !! StripeService.pi_id paymentIntent) as [p|] eqn:Hp.
    2: { by rewrite (handlePaymentSuccess_no_record now paymentIntent s u coins). }
    destruct (Js.parseInt coins) as [n|] eqn:Hn.
    2: { by rewrite (handlePaymentSuccess_not_a_number now paymentIntent s u coins p). }
    rewrite (handlePaymentSuccess_run now paymentIntent s u coins n p) by done.
    pose proof (ledger_invariant_addCoins s u n DEPOSIT
                  (StripeService.deposit_description paymentIntent) (Some "stripe_payment")
                  (Some (StripeService.pi_id paymentIntent))
                  (StripeService.deposit_metadata paymentIntent) Hinv) as H1.
    destruct (run (addCoins _ _ _ _ _ _ _) s) as [[b|e] s1]; [|done].
    simpl in *. by apply (ledger_invariant_same_ledger s1).
  - (* handlePaymentFailed *)
    unfold StripePayments.handlePaymentFailed. rewrite stripePayment_update_run.
    destruct (stripePayments s !! _); [|done]. by apply (ledger_invariant_same_ledger s).
  - (* handlePaymentCanceled *)
    unfold StripePayments.handlePaymentCanceled. rewrite stripePayment_update_run.
    destruct (stripePayments s !! _); [|done]. by apply (ledger_invariant_same_ledger s).
  - (* refundPayment *)
    destruct (stripePayments s !! id) as [p|] eqn:Hp.
    2: { by rewrite (proj1 (refundPayment_refused s id stripe) Hp). }
    assert (Hdec : sp_status p = SUCCEEDED ∨ sp_status p ≠ SUCCEEDED)
      by (destruct (sp_status p); (by left) || (by right)).
    destruct Hdec as [Hst|Hst].
    2: { by rewrite (proj1 (proj2 (refundPayment_refused s id stripe)) p Hp Hst). }
    destruct stripe as [refund|].
    2: { by rewrite (proj2 (proj2 (refundPayment_refused s id None)) p Hp Hst). }
    rewrite (refundPayment_run s id p refund Hp Hst).
    pose proof (ledger_invariant_deductCoins
                  (with_stripePayments (alter (StripePayments.set_status REFUNDED) id) s)
                  (sp_userId p) (sp_coins p) REFUND ("Refund for payment " +:+ id)
                  (Some "stripe_refund") (Some (StripePayments.rf_id refund)) None
                  (ledger_invariant_same_ledger s _ ltac:(done) Hinv)) as H1.
    by destruct (run (deductCoins _ _ _ _ _ _ _) _) as [[b|e] s1].
Qed.

End InvariantEverywhere.

(** X18: every call of the wallet, gift and payment services that writes to
    the store (wallet creation, balance query, credit, debit, lock, unlock,
    transfer, gift send, payment success, failure and cancellation, refund),
    whether it succeeds or throws, keeps the ledger invariant. So after any
    series of such calls on a store that satisfies it, every wallet's balance
    is the sum of the signed amounts of its ledger rows and is not negative;
    this holds in particular in the states that a failed call leaves with
    only a part of its writes. *)
Theorem ledger_invariant_under_all_calls (s : Ledger.Store) (calls : list ServiceCall) :
  ledger_invariant s →
  ledger_invariant (apply_calls s calls) ∧
  ∀ u w, wallets (apply_calls s calls) !! u = Some w →
         balanceCoins w = ledger_sum (apply_calls s calls) (w_id w) ∧ 0 ≤ balanceCoins w.
Proof.
  intros Hinv.
  assert (H : ledger_invariant (apply_calls s calls)).
  { revert s Hinv. induction calls as [|call calls IH]; intros s Hinv; [done|].
    simpl. apply IH. by apply ledger_invariant_apply_call. }
  split; [done|]. intros u w Hw. destruct H as (Hcons & _). by destruct (Hcons u w Hw).
Qed.

Lemma ledger_invariant_gift_shop : ledger_invariant Scenario.gift_shop.
Proof.
  apply (ledger_invariant_same_ledger Scenario.A_1000); [done|].
  apply (ledger_invariant_apply_op empty_store (Credit "A" 1000 DEPOSIT "top-up" None None None)).
  apply ledger_invariant_empty.
Qed.

Lemma ledger_invariant_under_all_calls_witness :
  ledger_invariant
    (apply_calls (with_stripePayments (fun _ => stripePayments Scenario.payment_pending)
                    Scenario.gift_shop) MoreScenarios.a_day) ∧
  ∀ u w, wallets (apply_calls (with_stripePayments
                                 (fun _ => stripePayments Scenario.payment_pending)
                                 Scenario.gift_shop) MoreScenarios.a_day) !! u = Some w →
         balanceCoins w
         = ledger_sum (apply_calls (with_stripePayments
                                      (fun _ => stripePayments Scenario.payment_pending)
                                      Scenario.gift_shop) MoreScenarios.a_day) (w_id w) ∧
         0 ≤ balanceCoins w.
Proof.
  apply (ledger_invariant_under_all_calls
           (with_stripePayments (fun _ => stripePayments Scenario.payment_pending)
              Scenario.gift_shop) MoreScenarios.a_day).
  apply (ledger_invariant_same_ledger Scenario.gift_shop); [done|].
  apply ledger_invariant_gift_shop.
Defined.

(** The balances at the end of the day of the scenario. *)
Example end_of_day :
  let s := apply_calls (with_stripePayments (fun _ => stripePayments Scenario.payment_pending)
                          Scenario.gift_shop) MoreScenarios.a_day in
  balance_of s "A" = 645 ∧ balance_of s "B" = 227 ∧
  length (walletTransactions s) = 8%nat ∧
  (sp_status <$> stripePayments s !! "pi_1") = Some REFUNDED.
Proof. vm_compute. done. Qed.

(** * Further properties of the authorization broker *)

Section Authorize.
Import OAuth.
Implicit Types (s : OAuth.Store) (now : Z).

(** The client that [initiateAuthorization] looks up. *)
Lemma initiateAuthorization_tree now c params userId s :
  run (initiateAuthorization now c params userId) s =
  match List.find (fun cl => bool_decide (clientKey cl = p_clientId params) && c_isActive cl)
                  (apiClients s) with
  | None => (Err INVALID_CLIENT, s)
  | Some client =>
      if negb (bool_decide (p_redirectUri params ∈ callbackUrls client))
      then (Err INVALID_REDIRECT_URI, s)
      else if Js.truthy_opt Js.truthy_string userId then
        match authorizationCodes s !! c with
        | Some _ => (Err UNIQUE_CONSTRAINT, s)
        | None =>
            (Ok (Redirect (p_redirectUri params) c
                   (if Js.truthy_opt Js.truthy_string (p_state params)
                    then p_state params else None)
                   (c_id client) (clientName client)),
             with_authorizationCodes
               (insert c (mkAuthorizationCode (default "" userId) (c_id client) c
                            (p_redirectUri params) (p_scope params)
                            (now + 10 * 60 * 1000) false)) s)
        end
      else (Ok (RequiresLogin (c_id client) (clientName client)), s)
  end.
Proof.
  unfold initiateAuthorization. unfold_oauth.
  destruct (List.find _ (apiClients s)) as [client|]; simpl; [|done].
  destruct (bool_decide (p_redirectUri params ∈ callbackUrls client)); simpl; [|done].
  destruct userId as [userId|]; simpl; [|done].
  destruct (Js.truthy_string userId); simpl; [|done].
  by destruct (authorizationCodes s !! c).
Qed.

(** What a redirect tells about the store before and after. *)
Lemma initiateAuthorization_redirect now c params userId s s' uri code st cid cname :
  run (initiateAuthorization now c params userId) s = (Ok (Redirect uri code st cid cname), s') →
  ∃ client user,
    client ∈ apiClients s ∧ clientKey client = p_clientId params ∧
    c_isActive client = true ∧ c_id client = cid ∧
    p_redirectUri params ∈ callbackUrls client ∧
    userId = Some user ∧ code = c ∧ uri = p_redirectUri params ∧
    authorizationCodes s !! c = None ∧
    authorizationCodes s' !! c
    = Some (mkAuthorizationCode user cid c uri (p_scope params) (now + 600000) false).
Proof.
  rewrite initiateAuthorization_tree.
  destruct (List.find _ (apiClients s)) as [client|] eqn:Hfind; [|done].
  destruct (bool_decide (p_redirectUri params ∈ callbackUrls client)) eqn:Huri; simpl; [|done].
  destruct (Js.truthy_opt Js.truthy_string userId) eqn:Huser; [|done].
  destruct (authorizationCodes s !! c) as [a|] eqn:Hc; [done|].
  intros He. simplify_eq.
  apply find_some in Hfind as [Hin Hcond]. apply andb_true_iff in Hcond as [Hkey Hact].
  apply bool_decide_eq_true in Hkey, Huri. apply list_elem_of_In in Hin.
  destruct userId as [user|]; [|done].
  exists client, user. simpl. rewrite lookup_insert_eq. done.
Qed.

(** The client that [findFirst] returns for a key held by one client. *)
Lemma find_client_of_key s key client :
  client ∈ apiClients s → clientKey client = key → c_isActive client = true →
  (∀ cl, cl ∈ apiClients s → clientKey cl = key → cl = client) →
  List.find (fun cl => bool_decide (clientKey cl = key) && c_isActive cl) (apiClients s)
  = Some client.
Proof.
  intros Hin Hkey Hact Huniq.
  destruct (List.find _ (apiClients s)) as [cl|] eqn:Hfind.
  - apply find_some in Hfind as [Hcl Hcond]. apply andb_true_iff in Hcond as [Hk _].
    apply bool_decide_eq_true in Hk. apply list_elem_of_In in Hcl.
    by rewrite (Huniq cl Hcl Hk).
  - apply list_elem_of_In in Hin. pose proof (find_none _ _ Hfind client Hin) as Hnone.
    simpl in Hnone. by rewrite bool_decide_eq_true_2, Hact in Hnone.
Qed.

Lemma find_no_client_of_key s key :
  (∀ cl, cl ∈ apiClients s → clientKey cl = key → c_isActive cl = false) →
  List.find (fun cl => bool_decide (clientKey cl = key) && c_isActive cl) (apiClients s)
  = None.
Proof.
  intros Hnone. destruct (List.find _ (apiClients s)) as [cl|] eqn:Hfind; [|done].
  apply find_some in Hfind as [Hcl Hcond]. apply andb_true_iff in Hcond as [Hk Hact].
  apply bool_decide_eq_true in Hk. apply list_elem_of_In in Hcl.
  by rewrite (Hnone cl Hcl Hk) in Hact.
Qed.

End Authorize.

(** X19: what [initiateAuthorization] answers, check by check. A client key
    that no active client has is refused with INVALID_CLIENT. For the active
    client of the key, a redirect URI that is not in its list is refused with
    INVALID_REDIRECT_URI; with a listed URI and no logged-in user the call
    asks for the login, naming the client; with a logged-in user it stores
    the code for that user, client, URI and scope, unused and expiring ten
    minutes after the call, and answers with the redirect that carries the
    code and the state. No code is created in the first three cases, nor
    when the store already holds the code value. *)
Theorem initiateAuthorization_guards
    (now : Z) (c : string) (params : OAuth.AuthorizeParams) (userId : option string)
    (s : OAuth.Store) :
  ((∀ cl, cl ∈ OAuth.apiClients s → OAuth.clientKey cl = OAuth.p_clientId params →
          OAuth.c_isActive cl = false) →
   run (OAuth.initiateAuthorization now c params userId) s = (Err INVALID_CLIENT, s)) ∧
  (∀ client,
     client ∈ OAuth.apiClients s → OAuth.clientKey client = OAuth.p_clientId params →
     OAuth.c_isActive client = true →
     (∀ cl, cl ∈ OAuth.apiClients s → OAuth.clientKey cl = OAuth.p_clientId params →
            cl = client) →
     (OAuth.p_redirectUri params ∉ OAuth.callbackUrls client →
      run (OAuth.initiateAuthorization now c params userId) s
      = (Err INVALID_REDIRECT_URI, s)) ∧
     (OAuth.p_redirectUri params ∈ OAuth.callbackUrls client →
      (Js.truthy_opt Js.truthy_string userId = false →
       run (OAuth.initiateAuthorization now c params userId) s
       = (Ok (OAuth.RequiresLogin (OAuth.c_id client) (OAuth.clientName client)), s)) ∧
      (∀ user,
         userId = Some user → Js.truthy_string user = true →
         (OAuth.authorizationCodes s !! c ≠ None →
          run (OAuth.initiateAuthorization now c params userId) s
          = (Err UNIQUE_CONSTRAINT, s)) ∧
         (OAuth.authorizationCodes s !! c = None →
          run (OAuth.initiateAuthorization now c params userId) s
          = (Ok (OAuth.Redirect (OAuth.p_redirectUri params) c
                   (if Js.truthy_opt Js.truthy_string (OAuth.p_state params)
                    then OAuth.p_state params else None)
                   (OAuth.c_id client) (OAuth.clientName client)),
             OAuth.with_authorizationCodes
               (insert c (OAuth.mkAuthorizationCode user (OAuth.c_id client) c
                            (OAuth.p_redirectUri params) (OAuth.p_scope params)
                            (now + 600000) false)) s))))).
Proof.
  rewrite initiateAuthorization_tree. split.
  - intros Hnone. by rewrite find_no_client_of_key.
  - intros client Hin Hkey Hact Huniq.
    rewrite (find_client_of_key s _ client Hin Hkey Hact Huniq). split.
    + intros Huri. by rewrite bool_decide_eq_false_2.
    + intros Huri. rewrite bool_decide_eq_true_2 by done. simpl. split.
      * intros Huser. by rewrite Huser.
      * intros user -> Huser. simpl. rewrite Huser. split.
        -- intros Hc. by destruct (OAuth.authorizationCodes s !! c).
        -- intros Hc. by rewrite Hc.
Qed.

(** Client X, registered under the key [key_x] with one callback URI: an
    unknown key, an unlisted URI, no user, a code value that is taken, and
    the authorization of user 1. *)
Lemma initiateAuthorization_guards_witness :
  run (OAuth.initiateAuthorization 0 "c0de"
         (OAuth.mkAuthorizeParams "key_q" "https://x.example/cb" ["profile"] None)
         (Some "user1")) OAuthScenario.start
  = (Err INVALID_CLIENT, OAuthScenario.start) ∧
  run (OAuth.initiateAuthorization 0 "c0de"
         (OAuth.mkAuthorizeParams "key_x" "https://q.example/cb" ["profile"] None)
         (Some "user1")) OAuthScenario.start
  = (Err INVALID_REDIRECT_URI, OAuthScenario.start) ∧
  run (OAuth.initiateAuthorization 0 "c0de"
         (OAuth.mkAuthorizeParams "key_x" "https://x.example/cb" ["profile"] None)
         None) OAuthScenario.start
  = (Ok (OAuth.RequiresLogin "cx" "X"), OAuthScenario.start) ∧
  run (OAuth.initiateAuthorization 5 "c0de"
         (OAuth.mkAuthorizeParams "key_x" "https://x.example/cb" ["profile"] None)
         (Some "user2")) OAuthScenario.issued
  = (Err UNIQUE_CONSTRAINT, OAuthScenario.issued) ∧
  run (OAuth.initiateAuthorization 0 "c0de"
         (OAuth.mkAuthorizeParams "key_x" "https://x.example/cb" ["profile"] (Some "xyz"))
         (Some "user1")) OAuthScenario.start
  = (Ok (OAuth.Redirect "https://x.example/cb" "c0de" (Some "xyz") "cx" "X"),
     OAuth.with_authorizationCodes
       (insert "c0de" (OAuth.mkAuthorizationCode "user1" "cx" "c0de" "https://x.example/cb"
                         ["profile"] (0 + 600000) false)) OAuthScenario.start).
Proof.
  set (X := OAuth.mkApiClient "cx" "key_x" "secret_x" "X" ["https://x.example/cb"] true).
  assert (Hstart : ∀ cl, cl ∈ OAuth.apiClients OAuthScenario.start → cl = X).
  { intros cl Hcl. by apply list_elem_of_singleton in Hcl. }
  assert (Hissued : ∀ cl, cl ∈ OAuth.apiClients OAuthScenario.issued → cl = X).
  { intros cl Hcl. by apply list_elem_of_singleton in Hcl. }
  assert (HinS : X ∈ OAuth.apiClients OAuthScenario.start)
    by (by apply list_elem_of_singleton).
  assert (HinI : X ∈ OAuth.apiClients OAuthScenario.issued)
    by (by apply list_elem_of_singleton).
  assert (Huri : "https://x.example/cb" ∈ OAuth.callbackUrls X)
    by (by apply list_elem_of_singleton).
  split; [|split; [|split; [|split]]].
  - apply (proj1 (initiateAuthorization_guards 0 "c0de"
                    (OAuth.mkAuthorizeParams "key_q" "https://x.example/cb" ["profile"] None)
                    (Some "user1") OAuthScenario.start)).
    intros cl Hcl Hkey. rewrite (Hstart cl Hcl) in Hkey. discriminate.
  - apply (proj1 (proj2 (initiateAuthorization_guards 0 "c0de"
                    (OAuth.mkAuthorizeParams "key_x" "https://q.example/cb" ["profile"] None)
                    (Some "user1") OAuthScenario.start) X HinS eq_refl eq_refl
                    (fun cl Hcl _ => Hstart cl Hcl))).
    intros Hq. apply list_elem_of_singleton in Hq. discriminate.
  - apply (proj1 (proj2 (proj2 (initiateAuthorization_guards 0 "c0de"
                    (OAuth.mkAuthorizeParams "key_x" "https://x.example/cb" ["profile"] None)
                    None OAuthScenario.start) X HinS eq_refl eq_refl
                    (fun cl Hcl _ => Hstart cl Hcl)) Huri)).
    reflexivity.
  - apply (proj1 (proj2 (proj2 (proj2 (initiateAuthorization_guards 5 "c0de"
                    (OAuth.mkAuthorizeParams "key_x" "https://x.example/cb" ["profile"] None)
                    (Some "user2") OAuthScenario.issued) X HinI eq_refl eq_refl
                    (fun cl Hcl _ => Hissued cl Hcl)) Huri) "user2" eq_refl eq_refl)).
    vm_compute. discriminate.
  - apply (proj2 (proj2 (proj2 (proj2 (initiateAuthorization_guards 0 "c0de"
                    (OAuth.mkAuthorizeParams "key_x" "https://x.example/cb" ["profile"]
                                             (Some "xyz"))
                    (Some "user1") OAuthScenario.start) X HinS eq_refl eq_refl
                    (fun cl Hcl _ => Hstart cl Hcl)) Huri) "user1" eq_refl eq_refl)).
    vm_compute; reflexivity.
Defined.

Section Exchange.
Import OAuth.
Implicit Types (s : OAuth.Store) (a : AuthorizationCode) (now : Z).

Lemma grant_ok s a now tok refresh code :
  authorizationCodes s !! code = Some a → used a = false → now ≤ ac_expiresAt a →
  pair_taken None tok refresh (accessTokens s) = false →
  run (handleAuthorizationCodeGrant now tok refresh (ac_clientId a) code (ac_redirectUri a)) s
  = (Ok (mkTokenResponse tok 3600 refresh (ac_scopes a)),
     with_accessTokens
       (fun rows => rows ++ [mkAccessToken (nextAccessTokenId s) (ac_userId a) (ac_clientId a)
                               tok refresh (ac_scopes a) (now + 60 * 60 * 1000)])
       (N.succ (nextAccessTokenId s))
       (with_authorizationCodes (alter (set_used true) code) s)).
Proof.
  intros Hc Hu Hexp Hfree. unfold handleAuthorizationCodeGrant. unfold_oauth.
  rewrite Hc, Hu. destruct (Z.ltb_spec (ac_expiresAt a) now); [lia|].
  rewrite !bool_decide_eq_true_2 by done. simpl. rewrite Hc. simpl. by rewrite Hfree.
Qed.

Lemma grant_mismatch s a now tok refresh clientId code redirectUri :
  authorizationCodes s !! code = Some a → used a = false → now ≤ ac_expiresAt a →
  clientId ≠ ac_clientId a ∨ redirectUri ≠ ac_redirectUri a →
  run (handleAuthorizationCodeGrant now tok refresh clientId code redirectUri) s
  = (Err CODE_VALIDATION_FAILED, s).
Proof.
  intros Hc Hu Hexp Hne. unfold handleAuthorizationCodeGrant. unfold_oauth.
  rewrite Hc, Hu. destruct (Z.ltb_spec (ac_expiresAt a) now); [lia|].
  destruct Hne as [Hne|Hne].
  - by rewrite (bool_decide_eq_false_2 (ac_clientId a = clientId)) by congruence.
  - rewrite (bool_decide_eq_false_2 (ac_redirectUri a = redirectUri)) by congruence.
    by rewrite orb_true_r.
Qed.

Lemma grant_collision s a now tok refresh code :
  authorizationCodes s !! code = Some a → used a = false → now ≤ ac_expiresAt a →
  pair_taken None tok refresh (accessTokens s) = true →
  run (handleAuthorizationCodeGrant now tok refresh (ac_clientId a) code (ac_redirectUri a)) s
  = (Err UNIQUE_CONSTRAINT, s).
Proof.
  intros Hc Hu Hexp Htaken. unfold handleAuthorizationCodeGrant. unfold_oauth.
  rewrite Hc, Hu. destruct (Z.ltb_spec (ac_expiresAt a) now); [lia|].
  rewrite !bool_decide_eq_true_2 by done. simpl. rewrite Hc. simpl. by rewrite Htaken.
Qed.

(** [exchangeCodeForToken] as a decision tree: the client, its subscription,
    then the grant. *)
Lemma exchangeCodeForToken_tree now rnd1 rnd2 params s :
  run (exchangeCodeForToken now rnd1 rnd2 params) s =
  match List.find (fun c => bool_decide (clientKey c = tp_clientId params)
                            && bool_decide (clientSecret c = tp_clientSecret params)
                            && c_isActive c) (apiClients s) with
  | None => (Err INVALID_CLIENT_CREDENTIALS, s)
  | Some client =>
      match List.find (fun sub => bool_decide (s_clientId sub = c_id client)
                                  && bool_decide (subscriptionStatus sub = "active"))
                      (subscriptions s) with
      | None => (Err SUBSCRIPTION_INACTIVE, s)
      | Some _ =>
          match grantType params with
          | authorization_code =>
              run (handleAuthorizationCodeGrant now rnd1 rnd2 (c_id client) (tp_code params)
                                                (tp_redirectUri params)) s
          | refresh_token =>
              run (handleRefreshTokenGrant now rnd1 rnd2 (c_id client)
                                           (tp_refreshToken params)) s
          | other_grant _ => (Err UNSUPPORTED_GRANT_TYPE, s)
          end
      end
  end.
Proof.
  unfold exchangeCodeForToken, validateClient.
  unfold run at 1. unfold bind at 1. unfold bind at 1. unfold read at 1. cbn [seen committed].
  destruct (List.find _ (apiClients s)) as [client|]; [|done].
  unfold bind at 1. unfold read at 1. cbn [seen committed].
  destruct (List.find _ (subscriptions s)) as [sub|]; [|done].
  unfold ret. by destruct (grantType params).
Qed.

End Exchange.

(** X20: a code just issued can be exchanged by the client it was issued to,
    with the redirect URI it was issued for, up to and including the instant
    of its expiry, ten minutes after it was issued, provided the token values
    drawn are not in use: the exchange answers with a bearer token of 3600
    seconds for the scope that was asked and stores one token for the user,
    valid for one hour. One millisecond later the exchange fails with
    CODE_EXPIRED. *)
Theorem issued_code_round_trip
    (t0 : Z) (c : string) (params : OAuth.AuthorizeParams) (userId : option string)
    (s s1 : OAuth.Store) (uri code cid cname : string) (st : option string)
    (now : Z) (tok refresh : string) :
  run (OAuth.initiateAuthorization t0 c params userId) s
  = (Ok (OAuth.Redirect uri code st cid cname), s1) →
  OAuth.pair_taken None tok refresh (OAuth.accessTokens s1) = false →
  (now ≤ t0 + 600000 →
   ∃ s2 t,
     run (OAuth.handleAuthorizationCodeGrant now tok refresh cid code uri) s1
     = (Ok (OAuth.mkTokenResponse tok 3600 refresh (OAuth.p_scope params)), s2) ∧
     OAuth.accessTokens s2 = OAuth.accessTokens s1 ++ [t] ∧
     Some (OAuth.at_userId t) = userId ∧ OAuth.at_clientId t = cid ∧
     OAuth.token t = tok ∧ OAuth.refreshToken t = refresh ∧
     OAuth.at_scopes t = OAuth.p_scope params ∧ OAuth.at_expiresAt t = now + 3600000) ∧
  (t0 + 600000 < now →
   run (OAuth.handleAuthorizationCodeGrant now tok refresh cid code uri) s1
   = (Err CODE_EXPIRED, s1)).
Proof.
  intros Hissue Hfree.
  destruct (initiateAuthorization_redirect t0 c params userId s s1 uri code st cid cname Hissue)
    as (client & user & _ & _ & _ & _ & _ & -> & -> & -> & _ & Hcode).
  split.
  - intros Hnow. eexists _, _.
    pose proof (grant_ok s1 _ now tok refresh c Hcode eq_refl ltac:(simpl; lia) Hfree) as Hok.
    simpl in Hok. rewrite Hok. simpl. done.
  - intros Hnow.
    by apply (grant_expired s1 _ now tok refresh cid c (OAuth.p_redirectUri params) Hcode).
Qed.

Lemma issued_code_round_trip_witness :
  (600000 ≤ 0 + 600000 →
   ∃ s2 t,
     run (OAuth.handleAuthorizationCodeGrant 600000 "tok1" "ref1" "cx" "c0de"
            "https://x.example/cb") OAuthScenario.issued
     = (Ok (OAuth.mkTokenResponse "tok1" 3600 "ref1" ["profile"]), s2) ∧
     OAuth.accessTokens s2 = OAuth.accessTokens OAuthScenario.issued ++ [t] ∧
     Some (OAuth.at_userId t) = Some "user1" ∧ OAuth.at_clientId t = "cx" ∧
     OAuth.token t = "tok1" ∧ OAuth.refreshToken t = "ref1" ∧
     OAuth.at_scopes t = ["profile"] ∧ OAuth.at_expiresAt t = 600000 + 3600000) ∧
  (0 + 600000 < 600000 →
   run (OAuth.handleAuthorizationCodeGrant 600000 "tok1" "ref1" "cx" "c0de"
          "https://x.example/cb") OAuthScenario.issued
   = (Err CODE_EXPIRED, OAuthScenario.issued)).
Proof.
  apply (issued_code_round_trip 0 "c0de"
           (OAuth.mkAuthorizeParams "key_x" "https://x.example/cb" ["profile"] None)
           (Some "user1") OAuthScenario.start OAuthScenario.issued
           "https://x.example/cb" "c0de" "cx" "X" None 600000 "tok1" "ref1").
  - vm_compute; reflexivity.
  - vm_compute; reflexivity.
Defined.

(** The code of the scenario at the instant of its expiry and one
    millisecond later. *)
Example expiry_boundary :
  fst (run (OAuth.handleAuthorizationCodeGrant 600000 "tok1" "ref1" "cx" "c0de"
              "https://x.example/cb") OAuthScenario.issued)
  = Ok (OAuth.mkTokenResponse "tok1" 3600 "ref1" ["profile"]) ∧
  fst (run (OAuth.handleAuthorizationCodeGrant 600001 "tok1" "ref1" "cx" "c0de"
              "https://x.example/cb") OAuthScenario.issued)
  = Err CODE_EXPIRED.
Proof. split; vm_compute; reflexivity. Qed.

(** X21: an exchange attempted with another client id or another redirect
    URI than the ones recorded with the code fails with
    CODE_VALIDATION_FAILED and does not consume the code: the store is as it
    was, and the client the code was issued to can still exchange it. *)
Theorem failed_validation_keeps_code
    (s : OAuth.Store) (a : OAuth.AuthorizationCode) (now : Z)
    (tok refresh clientId code redirectUri : string) :
  OAuth.authorizationCodes s !! code = Some a → OAuth.used a = false →
  now ≤ OAuth.ac_expiresAt a →
  clientId ≠ OAuth.ac_clientId a ∨ redirectUri ≠ OAuth.ac_redirectUri a →
  run (OAuth.handleAuthorizationCodeGrant now tok refresh clientId code redirectUri) s
  = (Err CODE_VALIDATION_FAILED, s) ∧
  ∀ now' tok' refresh',
    now' ≤ OAuth.ac_expiresAt a →
    OAuth.pair_taken None tok' refresh' (OAuth.accessTokens s) = false →
    ∃ s2, run (OAuth.handleAuthorizationCodeGrant now' tok' refresh' (OAuth.ac_clientId a)
                 code (OAuth.ac_redirectUri a))
              (snd (run (OAuth.handleAuthorizationCodeGrant now tok refresh clientId code
                           redirectUri) s))
          = (Ok (OAuth.mkTokenResponse tok' 3600 refresh' (OAuth.ac_scopes a)), s2).
Proof.
  intros Hc Hu Hexp Hne.
  rewrite (grant_mismatch s a now tok refresh clientId code redirectUri) by done.
  split; [done|]. intros now' tok' refresh' Hexp' Hfree. simpl.
  eexists. by apply grant_ok.
Qed.

Lemma failed_validation_keeps_code_witness :
  run (OAuth.handleAuthorizationCodeGrant 1000 "tok9" "ref9" "cy" "c0de"
         "https://x.example/cb") OAuthScenario.issued
  = (Err CODE_VALIDATION_FAILED, OAuthScenario.issued) ∧
  ∀ now' tok' refresh',
    now' ≤ 600000 →
    OAuth.pair_taken None tok' refresh' (OAuth.accessTokens OAuthScenario.issued) = false →
    ∃ s2, run (OAuth.handleAuthorizationCodeGrant now' tok' refresh' "cx" "c0de"
                 "https://x.example/cb")
              (snd (run (OAuth.handleAuthorizationCodeGrant 1000 "tok9" "ref9" "cy" "c0de"
                           "https://x.example/cb") OAuthScenario.issued))
          = (Ok (OAuth.mkTokenResponse tok' 3600 refresh' ["profile"]), s2).
Proof.
  apply (failed_validation_keeps_code OAuthScenario.issued
           (OAuth.mkAuthorizationCode "user1" "cx" "c0de" "https://x.example/cb" ["profile"]
                                      600000 false)
           1000 "tok9" "ref9" "cy" "c0de" "https://x.example/cb").
  - vm_compute; reflexivity.
  - reflexivity.
  - simpl; lia.
  - left. discriminate.
Defined.

(** X22: [exchangeCodeForToken] hands out a token for a code only to a caller
    who presents the key and the secret of an active client with an active
    subscription, and only for a code that was issued to that client, for
    the redirect URI presented, unused and not expired. With a wrong key or
    secret, or an inactive client, it fails with INVALID_CLIENT_CREDENTIALS,
    and without an active subscription with SUBSCRIPTION_INACTIVE, before the
    code is looked at and with the store left as it was. *)
Theorem exchange_needs_client_credentials
    (now : Z) (rnd1 rnd2 : string) (params : OAuth.TokenParams) (s s1 : OAuth.Store) :
  (∀ resp,
     run (OAuth.exchangeCodeForToken now rnd1 rnd2 params) s = (Ok resp, s1) →
     OAuth.grantType params = OAuth.authorization_code →
     ∃ client sub a,
       client ∈ OAuth.apiClients s ∧
       OAuth.clientKey client = OAuth.tp_clientId params ∧
       OAuth.clientSecret client = OAuth.tp_clientSecret params ∧
       OAuth.c_isActive client = true ∧
       sub ∈ OAuth.subscriptions s ∧ OAuth.s_clientId sub = OAuth.c_id client ∧
       OAuth.subscriptionStatus sub = "active" ∧
       OAuth.authorizationCodes s !! OAuth.tp_code params = Some a ∧
       OAuth.ac_clientId a = OAuth.c_id client ∧
       OAuth.ac_redirectUri a = OAuth.tp_redirectUri params ∧
       OAuth.used a = false ∧ now ≤ OAuth.ac_expiresAt a ∧
       OAuth.r_scope resp = OAuth.ac_scopes a) ∧
  (∀ e, run (OAuth.exchangeCodeForToken now rnd1 rnd2 params) s = (Err e, s1) →
        e = INVALID_CLIENT_CREDENTIALS ∨ e = SUBSCRIPTION_INACTIVE ∨
        e = UNSUPPORTED_GRANT_TYPE → s1 = s).
Proof.
  rewrite exchangeCodeForToken_tree. split.
  - intros resp Hrun Hgrant.
    destruct (List.find _ (OAuth.apiClients s)) as [client|] eqn:Hfind; [|done].
    destruct (List.find _ (OAuth.subscriptions s)) as [sub|] eqn:Hsub; [|done].
    rewrite Hgrant in Hrun.
    apply find_some in Hfind as [Hin Hcond].
    apply andb_true_iff in Hcond as [Hcond Hact]. apply andb_true_iff in Hcond as [Hkey Hsec].
    apply bool_decide_eq_true in Hkey, Hsec.
    apply find_some in Hsub as [Hin' Hcond'].
    apply andb_true_iff in Hcond' as [Hcid Hstatus].
    apply bool_decide_eq_true in Hcid, Hstatus.
    apply list_elem_of_In in Hin, Hin'.
    destruct (grant_cases s now rnd1 rnd2 (OAuth.c_id client) (OAuth.tp_code params)
                (OAuth.tp_redirectUri params))
      as [[e He]|(a & Hc & Hu & Hexp & Hcl & Hr & _ & Hok)]; [congruence|].
    rewrite Hok in Hrun. simplify_eq.
    exists client, sub, a. done.
  - intros e Hrun He.
    destruct (List.find _ (OAuth.apiClients s)) as [client|]; [|by simplify_eq].
    destruct (List.find _ (OAuth.subscriptions s)) as [sub|]; [|by simplify_eq].
    destruct (OAuth.grantType params).
    + destruct (grant_cases s now rnd1 rnd2 (OAuth.c_id client) (OAuth.tp_code params)
                  (OAuth.tp_redirectUri params))
        as [[e' He']|(a & _ & _ & _ & _ & _ & _ & Hok)]; congruence.
    + revert Hrun. unfold OAuth.handleRefreshTokenGrant. unfold_oauth.
      destruct (List.find _ (OAuth.accessTokens s)) as [t|]; simpl;
        [|intros; by simplify_eq].
      destruct (bool_decide (OAuth.at_clientId t = OAuth.c_id client)); simpl;
        [|intros; by simplify_eq].
      destruct (existsb _ (OAuth.accessTokens s)); simpl; [|intros; by simplify_eq].
      destruct (OAuth.pair_taken _ _ _ _); simpl; intros; by simplify_eq.
    + by simplify_eq.
Qed.

Lemma exchange_needs_client_credentials_witness :
  ∃ client sub a,
    client ∈ OAuth.apiClients OAuthScenario.issued ∧
    OAuth.clientKey client = "key_x" ∧ OAuth.clientSecret client = "secret_x" ∧
    OAuth.c_isActive client = true ∧
    sub ∈ OAuth.subscriptions OAuthScenario.issued ∧
    OAuth.s_clientId sub = OAuth.c_id client ∧ OAuth.subscriptionStatus sub = "active" ∧
    OAuth.authorizationCodes OAuthScenario.issued !! "c0de" = Some a ∧
    OAuth.ac_clientId a = OAuth.c_id client ∧
    OAuth.ac_redirectUri a = "https://x.example/cb" ∧
    OAuth.used a = false ∧ 1000 ≤ OAuth.ac_expiresAt a ∧
    OAuth.r_scope (OAuth.mkTokenResponse "tok1" 3600 "ref1" ["profile"]) = OAuth.ac_scopes a.
Proof.
  apply (proj1 (exchange_needs_client_credentials 1000 "tok1" "ref1"
                  (OAuth.mkTokenParams OAuth.authorization_code "c0de" "https://x.example/cb"
                                       "key_x" "secret_x" "")
                  OAuthScenario.issued OAuthScenario.exchanged)
           (OAuth.mkTokenResponse "tok1" 3600 "ref1" ["profile"])).
  - vm_compute; reflexivity.
  - reflexivity.
Defined.

(** ** The access-token table *)

Section UniqueColumns.
Context {A B K : Type} (f : A → B) (g : A → K).
Context `{!EqDecision B, !EqDecision K}.
Implicit Types (l : list A).

Lemma unique_column_inj l x y :
  NoDup (f <$> l) → x ∈ l → y ∈ l → f x = f y → x = y.
Proof.
  induction l as [|u l IH]; simpl; intros Hnd Hx Hy Heq; [by apply elem_of_nil in Hx|].
  apply NoDup_cons in Hnd as [Hu Hnd].
  apply elem_of_cons in Hx as [->|Hx]; apply elem_of_cons in Hy as [->|Hy].
  - done.
  - destruct Hu. rewrite Heq. by apply list_elem_of_fmap_2.
  - destruct Hu. rewrite <- Heq. by apply list_elem_of_fmap_2.
  - by apply IH.
Qed.

Lemma find_unique_column l t :
  NoDup (f <$> l) → t ∈ l → List.find (fun x => bool_decide (f x = f t)) l = Some t.
Proof.
  induction l as [|u l IH]; simpl; intros Hnd Ht; [by apply elem_of_nil in Ht|].
  apply NoDup_cons in Hnd as [Hu Hnd].
  apply elem_of_cons in Ht as [->|Ht].
  - by rewrite bool_decide_eq_true_2.
  - rewrite bool_decide_eq_false_2; [by apply IH|].
    intros Heq. destruct Hu. rewrite Heq. by apply list_elem_of_fmap_2.
Qed.

Lemma find_column_None l b :
  (∀ u, u ∈ l → f u ≠ b) → List.find (fun x => bool_decide (f x = b)) l = None.
Proof.
  induction l as [|u l IH]; simpl; intros Hall; [done|].
  rewrite bool_decide_eq_false_2 by (apply Hall; left).
  apply IH. intros v Hv. apply Hall. by right.
Qed.

Lemma find_column_Some l b t :
  List.find (fun x => bool_decide (f x = b)) l = Some t → t ∈ l ∧ f t = b.
Proof.
  intros Hfind. apply find_some in Hfind as [Hin Hb].
  apply bool_decide_eq_true in Hb. by apply list_elem_of_In in Hin.
Qed.

Lemma elem_of_map_inv (upd : A → A) l v :
  v ∈ List.map upd l → ∃ u, u ∈ l ∧ v = upd u.
Proof.
  induction l as [|u l IH]; simpl; intros Hv; [by apply elem_of_nil in Hv|].
  apply elem_of_cons in Hv as [->|Hv].
  - exists u. split; [left|done].
  - destruct (IH Hv) as (w & Hw & ->). exists w. split; [by right|done].
Qed.

Lemma elem_of_filter_inv (p : A → bool) l v :
  v ∈ List.filter p l ↔ v ∈ l ∧ p v = true.
Proof. rewrite !list_elem_of_In. apply filter_In. Qed.

Lemma unique_column_update (upd : A → A) (k : K) (x : B) l :
  NoDup (g <$> l) → NoDup (f <$> l) →
  (∀ u, g u = k → f (upd u) = x) → (∀ u, g u ≠ k → upd u = u) →
  (∀ u, u ∈ l → g u ≠ k → f u ≠ x) →
  NoDup (f <$> List.map upd l).
Proof.
  intros Hg Hf Hk Hother Hfree.
  induction l as [|u l IH]; simpl; [constructor|].
  simpl in Hg, Hf. apply NoDup_cons in Hg as [Hgu Hg]. apply NoDup_cons in Hf as [Hfu Hf].
  apply NoDup_cons. split.
  2: { apply IH; [done|done|]. intros v Hv. apply Hfree. by right. }
  intros Hin. apply list_elem_of_fmap in Hin as (v' & Heq & Hv').
  apply elem_of_map_inv in Hv' as (v & Hv & ->).
  assert (g v ≠ g u) as Hne.
  { intros Hgv. destruct Hgu. rewrite <- Hgv. by apply list_elem_of_fmap_2. }
  destruct (decide (g u = k)) as [Hu|Hu].
  - rewrite (Hk u Hu) in Heq. rewrite (Hother v) in Heq by congruence.
    apply (Hfree v); [by right|congruence|done].
  - rewrite (Hother u Hu) in Heq. destruct (decide (g v = k)) as [Hv'|Hv'].
    + rewrite (Hk v Hv') in Heq. apply (Hfree u); [left|done|done].
    + rewrite (Hother v Hv') in Heq. destruct Hfu. rewrite Heq. by apply list_elem_of_fmap_2.
Qed.

Lemma unique_column_filter (p : A → bool) l :
  NoDup (f <$> l) → NoDup (f <$> List.filter p l).
Proof.
  induction l as [|u l IH]; simpl; intros Hnd; [constructor|].
  apply NoDup_cons in Hnd as [Hu Hnd]. destruct (p u); simpl; [|by apply IH].
  apply NoDup_cons. split; [|by apply IH].
  intros Hin. destruct Hu. apply list_elem_of_fmap in Hin as (v & -> & Hv).
  apply elem_of_filter_inv in Hv as [Hv _]. by apply list_elem_of_fmap_2.
Qed.

Lemma column_map_same (upd : A → A) l :
  (∀ u, g (upd u) = g u) → g <$> List.map upd l = g <$> l.
Proof.
  intros Hsame. induction l as [|u l IH]; simpl; [done|].
  rewrite Hsame. f_equal. exact IH.
Qed.

Lemma filter_keeps_all (p : A → bool) l :
  (∀ u, u ∈ l → p u = true) → List.filter p l = l.
Proof.
  induction l as [|u l IH]; simpl; intros Hall; [done|].
  rewrite Hall by left. f_equal. apply IH. intros v Hv. apply Hall. by right.
Qed.

End UniqueColumns.

Section Tokens.
Import OAuth OAuthTokens.
Implicit Types (s : OAuth.Store) (t : AccessToken) (now : Z).

Lemma pair_taken_false except tok refresh rows t :
  pair_taken except tok refresh rows = false → t ∈ rows → Some (at_id t) ≠ except →
  token t ≠ tok ∧ refreshToken t ≠ refresh.
Proof.
  unfold pair_taken. intros Hfree Hin Hex.
  induction rows as [|u rows IH]; [by apply elem_of_nil in Hin|].
  simpl in Hfree. apply orb_false_iff in Hfree as [Hu Hrest].
  apply elem_of_cons in Hin as [->|Hin]; [|by apply IH].
  rewrite (bool_decide_eq_false_2 _ Hex) in Hu. simpl in Hu.
  apply orb_false_iff in Hu as [Htok Href].
  apply bool_decide_eq_false in Htok, Href. done.
Qed.

Lemma existsb_id_of_elem id rows t :
  t ∈ rows → at_id t = id → existsb (fun u => bool_decide (at_id u = id)) rows = true.
Proof.
  intros Hin Hid. apply existsb_exists. exists t. split; [by apply list_elem_of_In|].
  by apply bool_decide_eq_true.
Qed.

(** [handleRefreshTokenGrant] as a decision tree. *)
Lemma handleRefreshTokenGrant_tree now tok refresh clientId old s :
  run (handleRefreshTokenGrant now tok refresh clientId old) s =
  match row_of_refreshToken s old with
  | None => (Err INVALID_REFRESH_TOKEN, s)
  | Some t =>
      if negb (bool_decide (at_clientId t = clientId)) then (Err INVALID_REFRESH_TOKEN, s)
      else if negb (existsb (fun u => bool_decide (at_id u = at_id t)) (accessTokens s))
      then (Err RECORD_NOT_FOUND, s)
      else if pair_taken (Some (at_id t)) tok refresh (accessTokens s)
      then (Err UNIQUE_CONSTRAINT, s)
      else (Ok (mkTokenResponse tok 3600 refresh (at_scopes t)),
            with_accessTokens
              (List.map (fun u => if bool_decide (at_id u = at_id t)
                                  then set_token_pair tok refresh (now + 60 * 60 * 1000) u
                                  else u))
              (nextAccessTokenId s) s)
  end.
Proof.
  unfold handleRefreshTokenGrant, row_of_refreshToken. unfold_oauth.
  destruct (List.find _ (accessTokens s)) as [t|]; simpl; [|done].
  destruct (bool_decide (at_clientId t = clientId)); simpl; [|done].
  destruct (existsb _ (accessTokens s)); simpl; [|done].
  by destruct (pair_taken _ _ _ _).
Qed.

(** [revokeToken] as a decision tree. *)
Lemma revokeToken_tree tok s :
  run (revokeToken tok) s =
  match row_of_token s tok with
  | None => (Ok tt, s)
  | Some t =>
      (Ok tt,
       with_accessTokens (List.filter (fun u => negb (bool_decide (at_id u = at_id t))))
                         (nextAccessTokenId s) s)
  end.
Proof.
  unfold revokeToken, accessToken_delete, accessToken_findUnique_token, row_of_token.
  unfold_oauth.
  destruct (List.find _ (accessTokens s)) as [t|] eqn:Hfind; simpl; [|by destruct s].
  apply find_some in Hfind as [Hin _]. apply list_elem_of_In in Hin.
  by rewrite (existsb_id_of_elem (at_id t) (accessTokens s) t).
Qed.

End Tokens.

Section TokensUnique.
Import OAuth OAuthTokens.
Implicit Types (s : OAuth.Store) (t : AccessToken) (now : Z).

Lemma tokens_unique_codes f s : tokens_unique s → tokens_unique (with_authorizationCodes f s).
Proof. done. Qed.

Lemma tokens_unique_create s userId clientId tok refresh scopes expiresAt :
  tokens_unique s → pair_taken None tok refresh (accessTokens s) = false →
  tokens_unique
    (with_accessTokens
       (fun rows => rows ++ [mkAccessToken (nextAccessTokenId s) userId clientId tok refresh
                               scopes expiresAt])
       (N.succ (nextAccessTokenId s)) s).
Proof.
  intros (Hid & Htok & Href & Hlt) Hfree. unfold tokens_unique. simpl.
  rewrite !fmap_app. simpl.
  assert (∀ u, u ∈ accessTokens s → token u ≠ tok ∧ refreshToken u ≠ refresh) as Hnew.
  { intros u Hu. by apply (pair_taken_false None tok refresh (accessTokens s) u). }
  repeat split.
  - apply NoDup_app. split; [done|]. split; [|apply NoDup_singleton].
    intros x Hx Hx'. apply list_elem_of_singleton in Hx'. subst x.
    apply list_elem_of_fmap in Hx as (u & Hu & Hin).
    rewrite Forall_forall in Hlt. specialize (Hlt u Hin). lia.
  - apply NoDup_app. split; [done|]. split; [|apply NoDup_singleton].
    intros x Hx Hx'. apply list_elem_of_singleton in Hx'. subst x.
    apply list_elem_of_fmap in Hx as (u & Hu & Hin). by destruct (Hnew u Hin).
  - apply NoDup_app. split; [done|]. split; [|apply NoDup_singleton].
    intros x Hx Hx'. apply list_elem_of_singleton in Hx'. subst x.
    apply list_elem_of_fmap in Hx as (u & Hu & Hin). by destruct (Hnew u Hin).
  - apply Forall_app. split.
    + eapply Forall_impl; [exact Hlt|]. simpl. intros; lia.
    + apply Forall_singleton. simpl. lia.
Qed.

Lemma tokens_unique_update s id tok refresh expiresAt :
  tokens_unique s → pair_taken (Some id) tok refresh (accessTokens s) = false →
  tokens_unique
    (with_accessTokens
       (List.map (fun u => if bool_decide (at_id u = id)
                           then set_token_pair tok refresh expiresAt u else u))
       (nextAccessTokenId s) s).
Proof.
  intros (Hid & Htok & Href & Hlt) Hfree. unfold tokens_unique. simpl.
  set (upd := fun u => if bool_decide (at_id u = id)
                       then set_token_pair tok refresh expiresAt u else u).
  assert (∀ u, at_id (upd u) = at_id u) as Hsame.
  { intros u. unfold upd. by destruct (bool_decide _). }
  assert (∀ u, at_id u ≠ id → upd u = u) as Hother.
  { intros u Hu. unfold upd. by rewrite bool_decide_eq_false_2. }
  assert (∀ u, u ∈ accessTokens s → at_id u ≠ id →
               token u ≠ tok ∧ refreshToken u ≠ refresh) as Hnew.
  { intros u Hu Hne. apply (pair_taken_false (Some id) tok refresh (accessTokens s) u);
      [done|done|congruence]. }
  repeat split.
  - by rewrite (column_map_same at_id upd).
  - apply (unique_column_update token at_id upd id tok); [done|done| |done|].
    + intros u Hu. unfold upd. by rewrite bool_decide_eq_true_2.
    + intros u Hu Hne. by destruct (Hnew u Hu Hne).
  - apply (unique_column_update refreshToken at_id upd id refresh); [done|done| |done|].
    + intros u Hu. unfold upd. by rewrite bool_decide_eq_true_2.
    + intros u Hu Hne. by destruct (Hnew u Hu Hne).
  - rewrite Forall_forall. intros v Hv.
    apply elem_of_map_inv in Hv as (u & Hu & ->). rewrite Hsame.
    rewrite Forall_forall in Hlt. by apply Hlt.
Qed.

Lemma tokens_unique_delete s (p : AccessToken → bool) :
  tokens_unique s →
  tokens_unique (with_accessTokens (List.filter p) (nextAccessTokenId s) s).
Proof.
  intros (Hid & Htok & Href & Hlt). unfold tokens_unique. simpl.
  repeat split; try by apply unique_column_filter.
  rewrite Forall_forall. intros v Hv. apply elem_of_filter_inv in Hv as [Hv _].
  rewrite Forall_forall in Hlt. by apply Hlt.
Qed.

Lemma tokens_unique_grant s now tok refresh clientId code redirectUri :
  tokens_unique s →
  tokens_unique
    (snd (run (handleAuthorizationCodeGrant now tok refresh clientId code redirectUri) s)).
Proof.
  intros Hs.
  destruct (grant_cases s now tok refresh clientId code redirectUri)
    as [[e He]|(a & _ & _ & _ & _ & _ & Hfree & Hok)].
  - by rewrite He.
  - rewrite Hok. simpl.
    by apply (tokens_unique_create (with_authorizationCodes (alter (set_used true) code) s)).
Qed.

Lemma tokens_unique_refresh s now tok refresh clientId old :
  tokens_unique s →
  tokens_unique (snd (run (handleRefreshTokenGrant now tok refresh clientId old) s)).
Proof.
  intros Hs. rewrite handleRefreshTokenGrant_tree.
  destruct (row_of_refreshToken s old) as [t|]; [|done].
  destruct (negb (bool_decide (at_clientId t = clientId))); [done|].
  destruct (negb (existsb _ (accessTokens s))); [done|].
  destruct (pair_taken _ _ _ _) eqn:Hfree; [done|].
  simpl. by apply tokens_unique_update.
Qed.

Lemma tokens_unique_call s call : tokens_unique s → tokens_unique (apply_oauth_call s call).
Proof.
  intros Hs. destruct call as [now c params userId|now rnd1 rnd2 params|tok]; simpl.
  - rewrite initiateAuthorization_tree.
    destruct (List.find _ (apiClients s)) as [client|]; [|done].
    destruct (negb _); [done|]. destruct (Js.truthy_opt _ _); [|done].
    by destruct (authorizationCodes s !! c).
  - rewrite exchangeCodeForToken_tree.
    destruct (List.find _ (apiClients s)) as [client|]; [|done].
    destruct (List.find _ (subscriptions s)) as [sub|]; [|done].
    destruct (grantType params); [by apply tokens_unique_grant
                                 |by apply tokens_unique_refresh|done].
  - rewrite revokeToken_tree. destruct (row_of_token s tok) as [t|]; [|done].
    simpl. by apply tokens_unique_delete.
Qed.

End TokensUnique.

(** The hypothesis of the two theorems below is kept by every sequence of
    calls to [initiateAuthorization], [exchangeCodeForToken] and
    [revokeToken]: the store refuses a token value or a refresh token value
    that another row has, and draws the ids from its counter. *)
Lemma tokens_unique_under_all_calls (s : OAuth.Store) (calls : list OAuthCall) :
  tokens_unique s → tokens_unique (apply_oauth_calls s calls).
Proof.
  unfold apply_oauth_calls. revert s.
  induction calls as [|call calls IH]; simpl; intros s Hs; [done|].
  apply IH. by apply tokens_unique_call.
Qed.

Lemma two_tokens_unique : tokens_unique TokenScenario.two_tokens.
Proof.
  apply (tokens_unique_under_all_calls OAuthScenario.start
           [CallAuthorize 0 "c0de"
              (OAuth.mkAuthorizeParams "key_x" "https://x.example/cb" ["profile"] None)
              (Some "user1");
            CallExchange 1000 "tok1" "ref1"
              (OAuth.mkTokenParams OAuth.authorization_code "c0de" "https://x.example/cb"
                                   "key_x" "secret_x" "");
            CallAuthorize 1500 "c0de2"
              (OAuth.mkAuthorizeParams "key_x" "https://x.example/cb" ["profile"; "email"]
                                       None)
              (Some "user1");
            CallExchange 2000 "tok3" "ref3"
              (OAuth.mkTokenParams OAuth.authorization_code "c0de2" "https://x.example/cb"
                                   "key_x" "secret_x" "")]).
  apply (bool_decide_unpack _). vm_compute. exact I.
Defined.

(** X24: refreshing rotates the token pair of the row in place. For a row of
    the client whose new values are not taken by another row, the call
    answers with the new pair, 3600 seconds and the scopes of the row; the
    table keeps its number of rows; the new token value finds the row with
    its user, client and scopes and the expiry one hour from now; the old
    token value finds nothing, and the old refresh token is refused from
    then on. The expiry of the row is not looked at: an expired token is
    refreshed like any other. *)
Theorem refresh_rotates_the_pair
    (s : OAuth.Store) (t : OAuth.AccessToken) (now : Z) (tok refresh clientId : string) :
  tokens_unique s → t ∈ OAuth.accessTokens s → OAuth.at_clientId t = clientId →
  OAuth.pair_taken (Some (OAuth.at_id t)) tok refresh (OAuth.accessTokens s) = false →
  ∃ s',
    run (OAuth.handleRefreshTokenGrant now tok refresh clientId (OAuth.refreshToken t)) s
    = (Ok (OAuth.mkTokenResponse tok 3600 refresh (OAuth.at_scopes t)), s') ∧
    length (OAuth.accessTokens s') = length (OAuth.accessTokens s) ∧
    row_of_token s' tok
    = Some (OAuth.mkAccessToken (OAuth.at_id t) (OAuth.at_userId t) (OAuth.at_clientId t)
                                tok refresh (OAuth.at_scopes t) (now + 3600000)) ∧
    (tok ≠ OAuth.token t → row_of_token s' (OAuth.token t) = None) ∧
    (refresh ≠ OAuth.refreshToken t →
     ∀ now' tok' refresh' clientId',
       run (OAuth.handleRefreshTokenGrant now' tok' refresh' clientId' (OAuth.refreshToken t)) s'
       = (Err INVALID_REFRESH_TOKEN, s')).
Proof.
  intros Hs Ht Hclient Hfree.
  pose proof (tokens_unique_update s (OAuth.at_id t) tok refresh (now + 60 * 60 * 1000)
                Hs Hfree) as Hs'.
  destruct Hs as (Hid & Htok & Href & Hlt).
  rewrite handleRefreshTokenGrant_tree. unfold row_of_refreshToken.
  rewrite (find_unique_column OAuth.refreshToken _ t Href Ht).
  rewrite (bool_decide_eq_true_2 _ Hclient).
  rewrite (existsb_id_of_elem (OAuth.at_id t) _ t Ht eq_refl). rewrite Hfree. simpl.
  set (upd := fun u => if bool_decide (OAuth.at_id u = OAuth.at_id t)
                       then OAuth.set_token_pair tok refresh (now + 60 * 60 * 1000) u
                       else u) in *.
  eexists. split; [reflexivity|]. simpl. fold upd.
  assert (∀ v, v ∈ List.map upd (OAuth.accessTokens s) →
               v = upd t ∨ (v ∈ OAuth.accessTokens s ∧ OAuth.at_id v ≠ OAuth.at_id t ∧
                            OAuth.token v ≠ OAuth.token t ∧
                            OAuth.refreshToken v ≠ OAuth.refreshToken t)) as Hrows.
  { intros v Hv. apply elem_of_map_inv in Hv as (u & Hu & ->).
    destruct (decide (OAuth.at_id u = OAuth.at_id t)) as [Heq|Hne].
    - left. f_equal. by apply (unique_column_inj OAuth.at_id (OAuth.accessTokens s)).
    - right. unfold upd. rewrite bool_decide_eq_false_2 by done.
      repeat split; [done|done| |].
      + intros Heq. apply Hne. f_equal.
        by apply (unique_column_inj OAuth.token (OAuth.accessTokens s)).
      + intros Heq. apply Hne. f_equal.
        by apply (unique_column_inj OAuth.refreshToken (OAuth.accessTokens s)). }
  assert (upd t = OAuth.mkAccessToken (OAuth.at_id t) (OAuth.at_userId t) (OAuth.at_clientId t)
                    tok refresh (OAuth.at_scopes t) (now + 3600000)) as Hupd.
  { unfold upd. by rewrite bool_decide_eq_true_2. }
  assert (upd t ∈ List.map upd (OAuth.accessTokens s)) as Hin.
  { apply list_elem_of_In, in_map. by apply list_elem_of_In. }
  split; [apply length_map|]. split; [|split].
  - unfold row_of_token. simpl. fold upd. destruct Hs' as (_ & Htok' & _ & _).
    simpl in Htok'. fold upd in Htok'.
    pose proof (find_unique_column OAuth.token _ (upd t) Htok' Hin) as Hfind.
    assert (OAuth.token (upd t) = tok) as Htk by (by rewrite Hupd).
    rewrite Htk in Hfind. rewrite Hfind. f_equal. exact Hupd.
  - intros Hne. unfold row_of_token. simpl. fold upd.
    apply find_column_None. intros v Hv.
    destruct (Hrows v Hv) as [->|(_ & _ & Hv' & _)]; [|done].
    rewrite Hupd. simpl. done.
  - intros Hne now' tok' refresh' clientId'.
    rewrite handleRefreshTokenGrant_tree. unfold row_of_refreshToken. simpl. fold upd.
    rewrite find_column_None; [done|]. intros v Hv.
    destruct (Hrows v Hv) as [->|(_ & _ & _ & Hv')]; [|done].
    rewrite Hupd. simpl. done.
Qed.

Lemma refresh_rotates_the_pair_witness :
  ∃ s',
    run (OAuth.handleRefreshTokenGrant 5000000 "tok2" "ref2" "cx" "ref1")
        OAuthScenario.exchanged
    = (Ok (OAuth.mkTokenResponse "tok2" 3600 "ref2" ["profile"]), s') ∧
    length (OAuth.accessTokens s') = length (OAuth.accessTokens OAuthScenario.exchanged) ∧
    row_of_token s' "tok2"
    = Some (OAuth.mkAccessToken 0%N "user1" "cx" "tok2" "ref2" ["profile"]
                                (5000000 + 3600000)) ∧
    ("tok2" ≠ "tok1" → row_of_token s' "tok1" = None) ∧
    ("ref2" ≠ "ref1" →
     ∀ now' tok' refresh' clientId',
       run (OAuth.handleRefreshTokenGrant now' tok' refresh' clientId' "ref1") s'
       = (Err INVALID_REFRESH_TOKEN, s')).
Proof.
  apply (refresh_rotates_the_pair OAuthScenario.exchanged
           (OAuth.mkAccessToken 0%N "user1" "cx" "tok1" "ref1" ["profile"] 3601000)
           5000000 "tok2" "ref2" "cx").
  - apply (bool_decide_unpack _). vm_compute. exact I.
  - vm_compute. left.
  - reflexivity.
  - vm_compute; reflexivity.
Defined.

(** X25: [revokeToken] never throws. It removes the row of the token value,
    and only that row, leaving the authorization codes alone; afterwards the
    token value finds nothing, the refresh token of the removed row is
    refused, and revoking again changes nothing. A token value that no row
    has leaves the table as it is. *)
Theorem revokeToken_removes_the_row (s : OAuth.Store) (tok : string) :
  tokens_unique s →
  ∃ s',
    run (OAuthTokens.revokeToken tok) s = (Ok tt, s') ∧
    OAuth.accessTokens s'
    = List.filter (fun u => negb (bool_decide (OAuth.token u = tok))) (OAuth.accessTokens s) ∧
    OAuth.authorizationCodes s' = OAuth.authorizationCodes s ∧
    row_of_token s' tok = None ∧
    (∀ t now tok' refresh' clientId,
       row_of_token s tok = Some t →
       run (OAuth.handleRefreshTokenGrant now tok' refresh' clientId (OAuth.refreshToken t)) s'
       = (Err INVALID_REFRESH_TOKEN, s')) ∧
    run (OAuthTokens.revokeToken tok) s' = (Ok tt, s') ∧
    (row_of_token s tok = None → s' = s).
Proof.
  intros (Hid & Htok & Href & Hlt).
  rewrite revokeToken_tree. destruct (row_of_token s tok) as [t|] eqn:Hrow.
  - apply find_column_Some in Hrow as [Ht Htt].
    assert (∀ u, u ∈ OAuth.accessTokens s →
                 negb (bool_decide (OAuth.at_id u = OAuth.at_id t))
                 = negb (bool_decide (OAuth.token u = tok))) as Hsame.
    { intros u Hu. f_equal. apply bool_decide_ext. split.
      - intros Heq. by rewrite (unique_column_inj OAuth.at_id _ u t Hid Hu Ht Heq).
      - intros Heq. rewrite <- Htt in Heq.
        by rewrite (unique_column_inj OAuth.token _ u t Htok Hu Ht Heq). }
    assert (List.filter (fun u => negb (bool_decide (OAuth.at_id u = OAuth.at_id t)))
                        (OAuth.accessTokens s)
            = List.filter (fun u => negb (bool_decide (OAuth.token u = tok)))
                          (OAuth.accessTokens s)) as Hfilter.
    { apply filter_ext_in. intros u Hu. apply Hsame. by apply list_elem_of_In. }
    assert (row_of_token
              (OAuth.with_accessTokens
                 (List.filter (fun u => negb (bool_decide (OAuth.at_id u = OAuth.at_id t))))
                 (OAuth.nextAccessTokenId s) s) tok = None) as Hgone.
    { unfold row_of_token. simpl. rewrite Hfilter. apply find_column_None.
      intros u Hu. apply elem_of_filter_inv in Hu as [_ Hu].
      apply negb_true_iff, bool_decide_eq_false in Hu. done. }
    eexists. split; [reflexivity|]. simpl. repeat split; [done|done| | |done].
    + intros t' now tok' refresh' clientId Ht'. simplify_eq.
      rewrite handleRefreshTokenGrant_tree. unfold row_of_refreshToken. simpl.
      rewrite find_column_None; [done|]. intros u Hu Heq.
      apply elem_of_filter_inv in Hu as [Hu Hne].
      apply negb_true_iff, bool_decide_eq_false in Hne. apply Hne. f_equal.
      by apply (unique_column_inj OAuth.refreshToken (OAuth.accessTokens s)).
    + rewrite revokeToken_tree. by rewrite Hgone.
  - exists s. split; [done|]. repeat split; try done.
    + symmetry. apply filter_keeps_all. intros u Hu. apply negb_true_iff, bool_decide_eq_false.
      unfold row_of_token in Hrow.
      assert (In u (OAuth.accessTokens s)) as Hin by (by apply list_elem_of_In).
      pose proof (find_none _ _ Hrow u Hin) as Hf. simpl in Hf.
      by apply bool_decide_eq_false in Hf.
    + rewrite revokeToken_tree. by rewrite Hrow.
Qed.

Lemma revokeToken_removes_the_row_witness :
  ∃ s',
    run (OAuthTokens.revokeToken "tok1") TokenScenario.two_tokens = (Ok tt, s') ∧
    OAuth.accessTokens s'
    = List.filter (fun u => negb (bool_decide (OAuth.token u = "tok1")))
                  (OAuth.accessTokens TokenScenario.two_tokens) ∧
    OAuth.authorizationCodes s' = OAuth.authorizationCodes TokenScenario.two_tokens ∧
    row_of_token s' "tok1" = None ∧
    (∀ t now tok' refresh' clientId,
       row_of_token TokenScenario.two_tokens "tok1" = Some t →
       run (OAuth.handleRefreshTokenGrant now tok' refresh' clientId (OAuth.refreshToken t)) s'
       = (Err INVALID_REFRESH_TOKEN, s')) ∧
    run (OAuthTokens.revokeToken "tok1") s' = (Ok tt, s') ∧
    (row_of_token TokenScenario.two_tokens "tok1" = None → s' = TokenScenario.two_tokens).
Proof.
  apply (revokeToken_removes_the_row TokenScenario.two_tokens "tok1").
  apply (bool_decide_unpack _). vm_compute. exact I.
Defined.

(** The table of the scenario after the first token is revoked: the second
    token is the only row. *)
Example revoke_first_of_two :
  OAuth.token <$> OAuth.accessTokens
                    (snd (run (OAuthTokens.revokeToken "tok1") TokenScenario.two_tokens))
  = ["tok3"].
Proof. vm_compute; reflexivity. Qed.
